(** * S03_VECT: the hardened vectorization engine

    A shallow embedding of [S03_VECT.py] (text normalisation, the token
    bucket, the circuit breaker, the embedding cache, the dead letter
    queue, [generate_embedding], [vectorize_batch] and the run modes),
    followed by the properties of the pipeline.

    Conventions of the embedding.
    - A Python [str] is the list of its code points ([pystr]); keys, error
      texts and statistic names are Rocq strings.
    - Python floats (clock readings, token levels, delays) are idealised as
      rationals; the components of an embedding vector stay abstract.
    - [self] is the record [engine]; the two SQLite files, the Qdrant
      collection, the clock and the log are the record [world].
    - Everything the process cannot control (replies of the inference
      endpoint, SQLite errors, random draws) comes from an [env]. *)

From Stdlib Require Import ZArith QArith Qminmax Qround Lqa Lia List Bool String Ascii Sorted.
From stdpp Require Import base decidable option list strings gmap.
Import ListNotations.

#[local] Open Scope Z_scope.
Set Warnings "-register-all".

(** ** Python strings *)

Definition pystr := list N.

(** Code points for which [str.isspace] holds; [str.split()] and
    [str.strip()] without arguments cut at exactly these. *)
Definition py_whitespace : list N :=
  [9; 10; 11; 12; 13; 28; 29; 30; 31; 32; 133; 160; 5760;
   8192; 8193; 8194; 8195; 8196; 8197; 8198; 8199; 8200; 8201; 8202;
   8232; 8233; 8239; 8287; 12288]%N.

Definition is_space (c : N) : bool := existsb (N.eqb c) py_whitespace.

Definition SP : N := 32%N.

(** [s.lstrip()] *)
Fixpoint lstrip (s : pystr) : pystr :=
  match s with
  | [] => []
  | c :: s' => if is_space c then lstrip s' else s
  end.

(** [s.rstrip()] *)
Fixpoint rstrip (s : pystr) : pystr :=
  match s with
  | [] => []
  | c :: s' =>
      match rstrip s' with
      | [] => if is_space c then [] else [c]
      | r => c :: r
      end
  end.

(** [s.strip()] *)
Definition strip (s : pystr) : pystr := rstrip (lstrip s).

(** [s.split()]: [cur] is the word being read. *)
Fixpoint split_from (cur : pystr) (s : pystr) : list pystr :=
  match s with
  | [] => match cur with [] => [] | _ => [cur] end
  | c :: s' =>
      if is_space c
      then match cur with
           | [] => split_from [] s'
           | _ => cur :: split_from [] s'
           end
      else split_from (cur ++ [c]) s'
  end.

Definition split (s : pystr) : list pystr := split_from [] s.

(** [sep.join(ws)] *)
Fixpoint join (sep : pystr) (ws : list pystr) : pystr :=
  match ws with
  | [] => []
  | [w] => w
  | w :: ws' => w ++ sep ++ join sep ws'
  end.

(** [s[:n]] *)
Definition slice_to (n : Z) (s : pystr) : pystr :=
  if n <? 0 then firstn (length s - Z.to_nat (- n)) s
  else firstn (Z.to_nat n) s.

(** [_norm_text(s, max_chars)] *)
Definition _norm_text (s : pystr) (max_chars : Z) : pystr :=
  match s with
  | [] => []
  | _ => slice_to max_chars (join [SP] (split (strip s)))
  end.

Definition default_max_chars : Z := 8000.

(** ** JSON values returned by the inference endpoint *)

Inductive jval : Type :=
| JNull
| JBool (b : bool)
| JNum (literal : string)
| JStr (s : string)
| JList (items : list jval)
| JObj (fields : list (string * jval)).

(** [data.get(key)] on a decoded object: the binding, or [None]. *)
Fixpoint dict_get (key : string) (fields : list (string * jval)) : jval :=
  match fields with
  | [] => JNull
  | (k, v) :: rest => if String.eqb k key then v else dict_get key rest
  end.

(** [key in d] *)
Definition dict_has (key : string) (fields : list (string * jval)) : bool :=
  existsb (fun kv => String.eqb (fst kv) key) fields.

(** [d[key] = v]: a key that is there keeps its place, a new key goes to
    the end. *)
Fixpoint dict_set (key : string) (v : jval) (fields : list (string * jval))
    : list (string * jval) :=
  match fields with
  | [] => [(key, v)]
  | (k, x) :: rest =>
      if String.eqb k key then (k, v) :: rest else (k, x) :: dict_set key v rest
  end.

(** [{**a, **b}] *)
Definition dict_merge (a b : list (string * jval)) : list (string * jval) :=
  fold_left (fun acc kv => dict_set (fst kv) (snd kv) acc) b a.

(** A JSON number decodes to an [int] when its literal has neither
    fraction nor exponent (and is not [NaN] or [Infinity]): when it is
    made of digits and a sign. *)
Definition is_int_literal (literal : string) : bool :=
  forallb (fun c => (48 <=? N_of_ascii c)%N && (N_of_ascii c <=? 57)%N
                    || (N_of_ascii c =? 45)%N)
    (list_ascii_of_string literal).

(** [type(v).__name__] of a decoded value *)
Definition py_type_name (v : jval) : string :=
  match v with
  | JNull => "NoneType"
  | JBool _ => "bool"
  | JNum literal => if is_int_literal literal then "int" else "float"
  | JStr _ => "str"
  | JList _ => "list"
  | JObj _ => "dict"
  end.

(** [str(e)] for the [AttributeError] of [data.get] on a value that is
    not a dictionary. *)
Definition no_get (data : jval) : string :=
  "'" ++ py_type_name data ++ "' object has no attribute 'get'".

(** What one [http_client.post] followed by [raise_for_status] and
    [r.json()] gives: an exception, or the decoded body. *)
Inductive reply : Type :=
| ReplyError (e : string)
| ReplyJson (data : jval).

(** ** Observable effects *)

Inductive level : Type := INFO | WARN | ERROR.

Inductive sql : Type :=
| SqlEnsureTables
| SqlCacheSelect (k : string)
| SqlCacheInsert (k : string)
| SqlDlqUpsert (k : string)
| SqlDlqSelect
| SqlDlqDelete (k : string)
| SqlQueueSelect
| SqlQueueCount
| SqlQueueUpdate (ids : list Z)
| SqlVectorsInsert (ids : list Z)
| QdrantUpsert (ids : list Z).

Inductive event : Type :=
| EvNow
| EvSleep (d : Q)
| EvRandom
| EvPost (prompt : pystr)
| EvStore (q : sql) (ok : bool)
| EvLog (lvl : level) (name : string).

(** ** Configuration *)

Inductive target_t : Type := TargetMvm | TargetQdrant | TargetBoth.

Record config : Type := {
  model : string;                (* expected_embed_model *)
  min_interval_ms : Q;           (* rate_limit.min_interval_ms *)
  attempts : Z;                  (* retry_policy.attempts *)
  base_ms : Z;                   (* retry_policy.base_ms *)
  max_ms : Z;                    (* retry_policy.max_ms *)
  cb_threshold : Z;              (* circuit_breaker.failure_threshold *)
  cb_pause_s : Q;                (* circuit_breaker.pause_duration_s *)
  target : target_t
}.

(** [CONFIG_DEFAULTS], with the command line's default target. *)
Definition CONFIG_DEFAULTS : config := {|
  model := "nomic-embed-text";
  min_interval_ms := 2000;
  attempts := 3;
  base_ms := 1000;
  max_ms := 5000;
  cb_threshold := 10;
  cb_pause_s := 30;
  target := TargetBoth
|}.

(** [CONFIG_DEFAULTS] as the dictionary it is. *)
Definition CONFIG_DEFAULTS_dict : list (string * jval) :=
  [ ("expected_embed_model", JStr "nomic-embed-text");
    ("expected_dims", JNum "768");
    ("ollama_url", JStr "http://localhost:11434");
    ("qdrant_url", JStr "http://localhost:6333");
    ("qdrant_collection", JStr "chat_vectors");
    ("qdrant_distance", JStr "Cosine");
    ("paths", JObj [ ("data_link_rel", JStr "30_DATA");
                     ("output_rel", JStr "40_RUNTIME/03_VECTOR/01_OUTPUT");
                     ("config_rel", JStr "50_CONFIG/HEALTH_CONFIG.json");
                     ("state_rel", JStr "00_STATE/MVM_STATE.db");
                     ("proc_rel", JStr "01_PROC/MVM_PROC.db");
                     ("mvm_rel", JStr "02_VECT/MVM_VECT.db") ]);
    ("file_prefix", JStr "vectorization_");
    ("file_ext", JStr ".ndjson");
    ("rate_limit", JObj [ ("max_concurrent", JNum "1");
                          ("min_interval_ms", JNum "2000") ]);
    ("retry_policy", JObj [ ("attempts", JNum "3");
                            ("base_ms", JNum "1000");
                            ("max_ms", JNum "5000") ]);
    ("circuit_breaker", JObj [ ("failure_threshold", JNum "10");
                               ("pause_duration_s", JNum "30") ]) ].

(** The body of the merge loop of [main_async]: a dictionary given for a
    key that holds a dictionary is merged into it, anything else
    replaces what the key held. *)
Definition merge_entry (config : list (string * jval)) (kv : string * jval)
    : list (string * jval) :=
  let '(key, value) := kv in
  if dict_has key config then
    match dict_get key config, value with
    | JObj old, JObj new => dict_set key (JObj (dict_merge old new)) config
    | _, _ => dict_set key value config
    end
  else dict_set key value config.

(** The configuration [main_async] works with. [file] is what it finds
    at [config_path]: [None] if no file exists, [Some (inl e)] if opening
    or parsing it raises [e], [Some (inr v)] for the value parsed. A
    parsed value that is not an object has no [items()]: the exception
    brings the defaults back. *)
Definition load_config (file : option (string + jval)) : list (string * jval) :=
  match file with
  | Some (inr (JObj user_config)) => fold_left merge_entry user_config CONFIG_DEFAULTS_dict
  | _ => CONFIG_DEFAULTS_dict
  end.

(** ** Outcomes of a call: a value, a Python exception, or a loop that
    did not finish within the fuel. *)

Inductive outcome (A : Type) : Type :=
| Ok (a : A)
| Raised (e : string)
| Diverged.
Arguments Ok {A} a.
Arguments Raised {A} e.
Arguments Diverged {A}.

(** [range(n)] *)
Definition py_range (n : Z) : list Z := map Z.of_nat (seq 0 (Z.to_nat n)).

(** [LIMIT n]: a negative bound means no bound. *)
Definition sql_limit {A} (n : Z) (rows : list A) : list A :=
  if n <? 0 then rows else firstn (Z.to_nat n) rows.

(** The time stamps of the tables, written by SQLite's [datetime('now')]
    and by [_iso_utc()], name a whole second: the clock reading without
    its fraction. *)
Definition second_of (t : Q) : Q := inject_Z (Qfloor t).

(** ** The engine, the stores and the outside world *)

Section Vectorizer.

(** Components of an embedding vector (Python floats), left abstract. *)
Variable float : Type.

(** The environment: library functions and everything outside the
    process. *)
Record env : Type := {
  (* [float(x)] on a decoded JSON value: the float, or [str(e)] of the
     exception it raises *)
  py_float : jval -> string + float;
  (* [hashlib.sha256(s.encode("utf-8")).hexdigest()] *)
  sha256_hex : pystr -> string;
  (* the reply to the n-th POST, given its prompt *)
  inference : nat -> pystr -> reply;
  (* [Some e]: the n-th request to SQLite or Qdrant raises [e] *)
  storage_fault : nat -> option string;
  (* the n-th draw of [random.uniform], as a fraction of its interval *)
  draw : nat -> Q
}.

(** [PROC.db], table [chat_data]. *)
Record work_item : Type := {
  rowid : Z;
  bubble_id : string;
  composer_id : string;
  created_at_utc : string;
  text : option pystr;
  bubble_type_name : string;
  processed : Z
}.

(** [MVM.db], table [vectors]. *)
Record vector_row : Type := {
  state_row_id : Z;
  v_bubble_id : string;
  v_composer_id : string;
  CHAT_TIMESTAMP_UTC : string;
  message_text : pystr;
  v_bubble_type_name : string;
  vector : list float;
  vector_model : string;
  vector_dimensions : Z;
  vectorized_at : Q
}.

(** [MVM.db], table [embed_cache]; the [vector] column holds
    [json.dumps(vec)], which [json.loads] maps back to [vec]. *)
Record cache_row : Type := {
  c_key : string;
  c_vector : list float;
  c_model : string;
  c_dims : Z;
  c_created_at : Q
}.

(** [MVM.db], table [embed_dlq]. *)
Record dlq_row : Type := {
  d_key : string;
  d_text : pystr;
  d_last_error : string;
  d_attempts : Z;
  d_last_attempt_at : Q
}.

(** The dictionaries collected by [vectorize_batch]. *)
Record vec_item : Type := {
  i_rowid : Z;
  i_bubble_id : string;
  i_composer_id : string;
  i_timestamp : string;
  i_text : pystr;
  i_bubble_type : string;
  i_vector : list float
}.

(** A Qdrant point: its id and vector, and the payload fields. *)
Record point : Type := {
  p_id : string;
  p_vector : list float;
  p_composer_id : string;
  p_timestamp : string;
  p_text_preview : pystr;
  p_bubble_type : string;
  p_vector_model : string;
  p_vector_dimensions : Z;
  p_vectorized_at : Q
}.

(** The mutable attributes of [VectorizerEngine]. *)
Record engine : Type := {
  tokens : Q;
  token_last : Q;
  cb_failures : Z;
  stats : gmap string Z;
  cache_initialized : bool
}.

Record stores : Type := {
  chat_data : list work_item;
  vectors : list vector_row;
  embed_cache : list cache_row;
  embed_dlq : list dlq_row;
  qdrant : list point
}.

Record world : Type := {
  clock : Q;          (* seconds *)
  posts : nat;        (* inference calls issued so far *)
  requests : nat;     (* storage requests issued so far *)
  draws : nat;        (* random draws so far *)
  trace : list event  (* effects so far, oldest first *)
}.

Record state : Type := {
  eng : engine;
  db : stores;
  io : world
}.

(** *** Field updates *)

Definition with_eng (f : engine -> engine) (s : state) : state :=
  {| eng := f (eng s); db := db s; io := io s |}.
Definition with_db (f : stores -> stores) (s : state) : state :=
  {| eng := eng s; db := f (db s); io := io s |}.
Definition with_io (f : world -> world) (s : state) : state :=
  {| eng := eng s; db := db s; io := f (io s) |}.

Definition set_tokens (t : Q) (e : engine) : engine :=
  {| tokens := t; token_last := token_last e; cb_failures := cb_failures e;
     stats := stats e; cache_initialized := cache_initialized e |}.
Definition set_token_last (t : Q) (e : engine) : engine :=
  {| tokens := tokens e; token_last := t; cb_failures := cb_failures e;
     stats := stats e; cache_initialized := cache_initialized e |}.
Definition set_cb_failures (n : Z) (e : engine) : engine :=
  {| tokens := tokens e; token_last := token_last e; cb_failures := n;
     stats := stats e; cache_initialized := cache_initialized e |}.
Definition set_stats (m : gmap string Z) (e : engine) : engine :=
  {| tokens := tokens e; token_last := token_last e; cb_failures := cb_failures e;
     stats := m; cache_initialized := cache_initialized e |}.
Definition set_cache_initialized (b : bool) (e : engine) : engine :=
  {| tokens := tokens e; token_last := token_last e; cb_failures := cb_failures e;
     stats := stats e; cache_initialized := b |}.

Definition set_chat_data (l : list work_item) (d : stores) : stores :=
  {| chat_data := l; vectors := vectors d; embed_cache := embed_cache d;
     embed_dlq := embed_dlq d; qdrant := qdrant d |}.
Definition set_vectors (l : list vector_row) (d : stores) : stores :=
  {| chat_data := chat_data d; vectors := l; embed_cache := embed_cache d;
     embed_dlq := embed_dlq d; qdrant := qdrant d |}.
Definition set_embed_cache (l : list cache_row) (d : stores) : stores :=
  {| chat_data := chat_data d; vectors := vectors d; embed_cache := l;
     embed_dlq := embed_dlq d; qdrant := qdrant d |}.
Definition set_embed_dlq (l : list dlq_row) (d : stores) : stores :=
  {| chat_data := chat_data d; vectors := vectors d; embed_cache := embed_cache d;
     embed_dlq := l; qdrant := qdrant d |}.
Definition set_qdrant (l : list point) (d : stores) : stores :=
  {| chat_data := chat_data d; vectors := vectors d; embed_cache := embed_cache d;
     embed_dlq := embed_dlq d; qdrant := l |}.

Definition emit (ev : event) (w : world) : world :=
  {| clock := clock w; posts := posts w; requests := requests w;
     draws := draws w; trace := trace w ++ [ev] |}.
Definition advance (d : Q) (w : world) : world :=
  {| clock := (clock w + d)%Q; posts := posts w; requests := requests w;
     draws := draws w; trace := trace w |}.
Definition count_post (w : world) : world :=
  {| clock := clock w; posts := S (posts w); requests := requests w;
     draws := draws w; trace := trace w |}.
Definition count_request (w : world) : world :=
  {| clock := clock w; posts := posts w; requests := S (requests w);
     draws := draws w; trace := trace w |}.
Definition count_draw (w : world) : world :=
  {| clock := clock w; posts := posts w; requests := requests w;
     draws := S (draws w); trace := trace w |}.

(** *** The monad of engine methods *)

Definition M (A : Type) : Type := state -> outcome A * state.

Definition ret {A} (a : A) : M A := fun s => (Ok a, s).

Definition bind {A B} (m : M A) (k : A -> M B) : M B :=
  fun s =>
    match m s with
    | (Ok a, s') => k a s'
    | (Raised e, s') => (Raised e, s')
    | (Diverged, s') => (Diverged, s')
    end.

Definition raise {A} (e : string) : M A := fun s => (Raised e, s).

Definition diverge {A} : M A := fun s => (Diverged, s).

(** [try: body except Exception as e: handler(e)] *)
Definition try_catch {A} (body : M A) (handler : string -> M A) : M A :=
  fun s =>
    match body s with
    | (Raised e, s') => handler e s'
    | r => r
    end.

Definition gets {A} (f : state -> A) : M A := fun s => (Ok (f s), s).

Definition modify (f : state -> state) : M unit := fun s => (Ok tt, f s).

Notation "x <- c1 ;; c2" := (bind c1 (fun x => c2))
  (at level 100, c1 at next level, right associativity).
Notation "c1 ;; c2" := (bind c1 (fun _ => c2))
  (at level 100, right associativity).

Variable E : env.
Variable cfg : config.

(** *** Primitive effects *)

(** [log_event({"level": lvl, "event": name, ...})] *)
Definition log_event (lvl : level) (name : string) : M unit :=
  modify (with_io (emit (EvLog lvl name))).

(** [time.time()] *)
Definition time_time : M Q :=
  fun s => (Ok (clock (io s)), with_io (emit EvNow) s).

(** [await asyncio.sleep(d)]; a delay that is not positive returns at once. *)
Definition sleep (d : Q) : M unit :=
  modify (with_io (fun w => advance (Qmax 0 d) (emit (EvSleep d) w))).

(** [random.uniform(a, b)] *)
Definition random_uniform (a b : Q) : M Q :=
  fun s =>
    let u := draw E (draws (io s)) in
    (Ok (a + (b - a) * u)%Q, with_io (fun w => count_draw (emit EvRandom w)) s).

(** One connect / execute / commit / close sequence on SQLite, or one
    Qdrant call: it raises and changes nothing, or it runs [run]. *)
Definition store_request {A} (q : sql) (run : stores -> A * stores) : M A :=
  fun s =>
    match storage_fault E (requests (io s)) with
    | Some e =>
        (Raised e, with_io (fun w => count_request (emit (EvStore q false) w)) s)
    | None =>
        let '(a, d) := run (db s) in
        (Ok a, with_db (fun _ => d)
                 (with_io (fun w => count_request (emit (EvStore q true) w)) s))
    end.

(** [http_client.post(...)], [raise_for_status()], [r.json()] *)
Definition http_post (prompt : pystr) : M jval :=
  fun s =>
    let s' := with_io (fun w => count_post (emit (EvPost prompt) w)) s in
    match inference E (posts (io s)) prompt with
    | ReplyError e => (Raised e, s')
    | ReplyJson data => (Ok data, s')
    end.

(** [self.stats[name]] of a [defaultdict(int)] *)
Definition stat (name : string) (e : engine) : Z := default 0 (stats e !! name).

(** [self.stats[name] += n] *)
Definition stat_add (name : string) (n : Z) : M unit :=
  modify (with_eng (fun e => set_stats (<[name := stat name e + n]> (stats e)) e)).

(** [_hash_key(s)] *)
Definition _hash_key (s : pystr) : string :=
  sha256_hex E (_norm_text s default_max_chars).

(** *** The SQL statements, as functions on tables *)

Definition has_key (k : string) (r : cache_row) : bool := String.eqb (c_key r) k.
Definition dlq_has_key (k : string) (r : dlq_row) : bool := String.eqb (d_key r) k.

(** [SELECT vector, dims FROM embed_cache WHERE key=?] *)
Definition cache_select (k : string) (rows : list cache_row) : option cache_row :=
  List.find (has_key k) rows.

(** [INSERT OR IGNORE INTO embed_cache(key, vector, model, dims)] *)
Definition cache_insert_ignore (r : cache_row) (rows : list cache_row) : list cache_row :=
  if existsb (has_key (c_key r)) rows then rows else rows ++ [r].

Definition dlq_bump (err : string) (now : Q) (r : dlq_row) : dlq_row :=
  {| d_key := d_key r; d_text := d_text r; d_last_error := err;
     d_attempts := d_attempts r + 1; d_last_attempt_at := now |}.

(** [INSERT INTO embed_dlq ... VALUES(?,?,?,1,datetime('now'))
    ON CONFLICT(key) DO UPDATE SET last_error=excluded.last_error,
    attempts=embed_dlq.attempts+1, last_attempt_at=datetime('now')] *)
Definition dlq_upsert (k : string) (txt : pystr) (err : string) (now : Q)
    (rows : list dlq_row) : list dlq_row :=
  if existsb (dlq_has_key k) rows
  then map (fun r => if dlq_has_key k r then dlq_bump err now r else r) rows
  else rows ++ [{| d_key := k; d_text := txt; d_last_error := err;
                   d_attempts := 1; d_last_attempt_at := now |}].

Fixpoint insert_by_last_attempt (r : dlq_row) (rows : list dlq_row) : list dlq_row :=
  match rows with
  | [] => [r]
  | r' :: rest =>
      if Qle_bool (d_last_attempt_at r) (d_last_attempt_at r')
      then r :: rows
      else r' :: insert_by_last_attempt r rest
  end.

(** [SELECT key, text FROM embed_dlq WHERE attempts < 10
    ORDER BY last_attempt_at ASC LIMIT ?] *)
Definition dlq_select (max_items : Z) (rows : list dlq_row) : list (string * pystr) :=
  map (fun r => (d_key r, d_text r))
    (sql_limit max_items
       (foldr insert_by_last_attempt []
          (List.filter (fun r => d_attempts r <? 10) rows))).

(** [DELETE FROM embed_dlq WHERE key=?] *)
Definition dlq_delete (k : string) (rows : list dlq_row) : list dlq_row :=
  List.filter (fun r => negb (dlq_has_key k r)) rows.

Definition unprocessed (r : work_item) : bool := processed r =? 0.

(** [SELECT ... FROM chat_data WHERE processed = 0 LIMIT ?] *)
Definition queue_select (batch_size : Z) (rows : list work_item) : list work_item :=
  sql_limit batch_size (List.filter unprocessed rows).

(** [SELECT COUNT( * ) FROM chat_data WHERE processed = 0] *)
Definition queue_count (rows : list work_item) : Z :=
  Z.of_nat (length (List.filter unprocessed rows)).

Definition mark (r : work_item) : work_item :=
  {| rowid := rowid r; bubble_id := bubble_id r; composer_id := composer_id r;
     created_at_utc := created_at_utc r; text := text r;
     bubble_type_name := bubble_type_name r; processed := 1 |}.

(** [UPDATE chat_data SET processed = 1 WHERE rowid IN (...)] *)
Definition queue_update (ids : list Z) (rows : list work_item) : list work_item :=
  map (fun r => if existsb (Z.eqb (rowid r)) ids then mark r else r) rows.

Definition vector_row_of (now : Q) (v : vec_item) : vector_row :=
  {| state_row_id := i_rowid v; v_bubble_id := i_bubble_id v;
     v_composer_id := i_composer_id v; CHAT_TIMESTAMP_UTC := i_timestamp v;
     message_text := slice_to 500 (i_text v);
     v_bubble_type_name := i_bubble_type v; vector := i_vector v;
     vector_model := model cfg;
     vector_dimensions := Z.of_nat (length (i_vector v));
     vectorized_at := now |}.

(** [INSERT OR IGNORE INTO vectors (...)], once per item; [bubble_id] is
    [UNIQUE]. *)
Definition vectors_insert_ignore (now : Q) (vs : list vec_item)
    (rows : list vector_row) : list vector_row :=
  fold_left
    (fun acc v =>
       if existsb (fun r => String.eqb (v_bubble_id r) (i_bubble_id v)) acc
       then acc else acc ++ [vector_row_of now v])
    vs rows.

Definition point_of (now : Q) (v : vec_item) : point :=
  {| p_id := i_bubble_id v; p_vector := i_vector v;
     p_composer_id := i_composer_id v; p_timestamp := i_timestamp v;
     p_text_preview := slice_to 500 (i_text v);
     p_bubble_type := i_bubble_type v; p_vector_model := model cfg;
     p_vector_dimensions := Z.of_nat (length (i_vector v));
     p_vectorized_at := now |}.

(** [qdrant_client.upsert(points=...)]: a point replaces the one with its id. *)
Definition qdrant_upsert (pts : list point) (coll : list point) : list point :=
  fold_left
    (fun acc p =>
       List.filter (fun p' => negb (String.eqb (p_id p') (p_id p))) acc ++ [p])
    pts coll.

(** *** [VectorizerEngine] *)

(** [self.tokens_per_sec], fixed by [__init__]. *)
Definition tokens_per_sec : Q := (1000 / min_interval_ms cfg)%Q.

(** [self.bucket_size] *)
Definition bucket_size : Q := 2%Q.

(** [__init__] at clock reading [now]. *)
Definition new_engine (now : Q) : engine :=
  {| tokens := 2; token_last := now; cb_failures := 0;
     stats := <["circuit_trips" := 0]> (<["cache_hits" := 0]> ∅);
     cache_initialized := false |}.

(** [_ensure_cache_tables]: the tables are created once; the rows of
    existing tables are left as they are. *)
Definition _ensure_cache_tables : M unit :=
  init <- gets (fun s => cache_initialized (eng s)) ;;
  if (init : bool) then ret tt
  else
    store_request SqlEnsureTables (fun d => (tt, d)) ;;
    modify (with_eng (set_cache_initialized true)).

(** [_take_token] *)
Definition _take_token : M bool :=
  now <- time_time ;;
  modify (with_eng (fun e =>
    set_token_last now
      (set_tokens (Qmin bucket_size
                     (tokens e + (now - token_last e) * tokens_per_sec)) e))) ;;
  tk <- gets (fun s => tokens (eng s)) ;;
  if Qle_bool 1 tk then
    modify (with_eng (set_tokens (tk - 1))) ;;
    ret true
  else
    let needed := (1 - tk)%Q in
    let wait_time := (needed / tokens_per_sec)%Q in
    sleep (Qmin wait_time (1 # 2)) ;;
    ret false.

(** [while not await self._take_token(): pass] *)
Fixpoint await_token (fuel : nat) : M unit :=
  match fuel with
  | O => diverge
  | S fuel' =>
      got <- _take_token ;;
      if (got : bool) then ret tt else await_token fuel'
  end.

(** [_cool_if_cb_open] *)
Definition _cool_if_cb_open : M unit :=
  failures <- gets (fun s => cb_failures (eng s)) ;;
  if cb_threshold cfg <=? failures then
    trips <- gets (fun s => stat "circuit_trips" (eng s)) ;;
    let pause_multiplier := Z.min (trips + 1) 5 in
    let pause_time := (cb_pause_s cfg * inject_Z pause_multiplier)%Q in
    log_event ERROR "circuit_open" ;;
    sleep pause_time ;;
    modify (with_eng (set_cb_failures 0)) ;;
    stat_add "circuit_trips" 1
  else ret tt.

(** The cache check of [generate_embedding]: [Some vec] is the early
    [return vec]; [None] falls through to the breaker gate. *)
Definition cache_check (k : string) : M (option (list float)) :=
  try_catch
    (row <- store_request (SqlCacheSelect k)
              (fun d => (cache_select k (embed_cache d), d)) ;;
     match row with
     | Some r =>
         stat_add "cache_hits" 1 ;;
         log_event INFO "cache_hit" ;;
         ret (Some (c_vector r))
     | None => ret None
     end)
    (fun e => log_event WARN "cache_read_failed" ;; ret None).

(** [[float(x) for x in emb]]: the first conversion that raises ends it. *)
Fixpoint floats_of (emb : list jval) : string + list float :=
  match emb with
  | [] => inr []
  | x :: rest =>
      match py_float E x with
      | inl e => inl e
      | inr f =>
          match floats_of rest with
          | inl e => inl e
          | inr fs => inr (f :: fs)
          end
      end
  end.

(** From [data] to [vec]: [data.get("embedding")], the payload check and
    the conversion to floats; [inl] is the text of the exception raised. *)
Definition decode_embedding (data : jval) : string + list float :=
  match data with
  | JObj fields =>
      match dict_get "embedding" fields with
      | JList (x :: rest) => floats_of (x :: rest)
      | _ => inl "invalid_embedding_payload"%string
      end
  | _ => inl (no_get data)
  end.

(** The write-through to the cache, with its own [try]. *)
Definition cache_write (k : string) (vec : list float) : M unit :=
  try_catch
    (now <- gets (fun s => second_of (clock (io s))) ;;
     store_request (SqlCacheInsert k)
       (fun d => (tt, set_embed_cache
                        (cache_insert_ignore
                           {| c_key := k; c_vector := vec; c_model := model cfg;
                              c_dims := Z.of_nat (length vec);
                              c_created_at := now |}
                           (embed_cache d)) d)))
    (fun e2 => log_event WARN "cache_write_failed").

(** The body of the [try] of one attempt; it ends in [return vec]. *)
Definition attempt_once (txt : pystr) (k : string) : M (list float) :=
  data <- http_post txt ;;
  match decode_embedding data with
  | inl e => raise e
  | inr vec =>
      cache_write k vec ;;
      modify (with_eng (set_cb_failures 0)) ;;
      stat_add "embeddings_generated" 1 ;;
      ret vec
  end.

(** The write to the dead letter queue after the last attempt. *)
Definition dlq_write (k : string) (txt : pystr) (e : string) : M unit :=
  try_catch
    (now <- gets (fun s => second_of (clock (io s))) ;;
     store_request (SqlDlqUpsert k)
       (fun d => (tt, set_embed_dlq (dlq_upsert k txt e now (embed_dlq d)) d)))
    (fun e2 => log_event ERROR "dlq_write_failed").

(** [delay_ms] of attempt number [attempt] *)
Definition delay_ms (attempt : Z) : Z :=
  Z.min (base_ms cfg * 2 ^ attempt) (max_ms cfg).

(** [for attempt in range(rp["attempts"]): ...], on the attempts left. *)
Fixpoint retry_loop (todo : list Z) (txt : pystr) (k : string)
    : M (option (list float)) :=
  match todo with
  | [] => ret None
  | attempt :: rest =>
      try_catch
        (vec <- attempt_once txt k ;; ret (Some vec))
        (fun e =>
           stat_add "embedding_errors" 1 ;;
           modify (with_eng (fun en => set_cb_failures (cb_failures en + 1) en)) ;;
           if attempt <? attempts cfg - 1 then
             jitter <- random_uniform 0 (inject_Z (delay_ms attempt) * (1 # 10)) ;;
             sleep ((inject_Z (delay_ms attempt) + jitter) / 1000) ;;
             log_event WARN "embedding_retry" ;;
             retry_loop rest txt k
           else
             dlq_write k txt e ;;
             log_event ERROR "embedding_failed_final" ;;
             ret None)
  end.

(** [generate_embedding(text)]: [Some []] is the empty list returned for
    empty text, [None] is Python's [None]. *)
Definition generate_embedding (fuel : nat) (txt : pystr)
    : M (option (list float)) :=
  _ensure_cache_tables ;;
  await_token fuel ;;
  let txt := _norm_text txt default_max_chars in
  match txt with
  | [] =>
      stat_add "empty_text" 1 ;;
      ret (Some [])
  | _ =>
      let k := _hash_key txt in
      hit <- cache_check k ;;
      match hit with
      | Some vec => ret (Some vec)
      | None =>
          _cool_if_cb_open ;;
          retry_loop (py_range (attempts cfg)) txt k
      end
  end.

(** The loop of [drain_dlq] over the selected rows. *)
Fixpoint drain_rows (fuel : nat) (rows : list (string * pystr)) (recovered : Z)
    : M Z :=
  match rows with
  | [] => ret recovered
  | (k, txt) :: rest =>
      v <- generate_embedding fuel txt ;;
      match v with
      | Some _ =>
          store_request (SqlDlqDelete k)
            (fun d => (tt, set_embed_dlq (dlq_delete k (embed_dlq d)) d)) ;;
          log_event INFO "dlq_recovered" ;;
          drain_rows fuel rest (recovered + 1)
      | None => drain_rows fuel rest recovered
      end
  end.

(** [drain_dlq(max_items)] *)
Definition drain_dlq (fuel : nat) (max_items : Z) : M unit :=
  try_catch
    (rows <- store_request SqlDlqSelect
               (fun d => (dlq_select max_items (embed_dlq d), d)) ;;
     match rows with
     | [] => ret tt
     | _ =>
         log_event INFO "dlq_drain_start" ;;
         recovered <- drain_rows fuel rows 0 ;;
         log_event INFO "dlq_drain_complete"
     end)
    (fun e => log_event WARN "dlq_drain_failed").

(** [get_queue_size()] *)
Definition get_queue_size : M Z :=
  try_catch
    (store_request SqlQueueCount (fun d => (queue_count (chat_data d), d)))
    (fun e => log_event ERROR "queue_read_failed" ;; ret 0).

(** [_write_to_mvm(vectors)] *)
Definition _write_to_mvm (vs : list vec_item) : M unit :=
  try_catch
    (now <- gets (fun s => second_of (clock (io s))) ;;
     store_request (SqlVectorsInsert (map i_rowid vs))
       (fun d => (tt, set_vectors (vectors_insert_ignore now vs (vectors d)) d)) ;;
     log_event INFO "mvm_write_complete" ;;
     stat_add "mvm_writes" (Z.of_nat (length vs)))
    (fun e => log_event ERROR "mvm_write_failed").

(** A point whose vector has no component. *)
Definition empty_vector (p : point) : bool :=
  match p_vector p with [] => true | _ => false end.

(** [qdrant_client.upsert(collection_name=..., points=points)]. A
    collection has a positive size, and a batch in which a vector does
    not have that size is refused as a whole. For an empty vector that
    is always so; for another vector it depends on the collection, and
    is left to the faults of the environment. *)
Definition qdrant_client_upsert (ids : list Z) (points : list point) : M unit :=
  if existsb empty_vector points then
    modify (with_io (fun w => count_request (emit (EvStore (QdrantUpsert ids) false) w))) ;;
    raise "Wrong input: Vector dimension error"
  else
    store_request (QdrantUpsert ids)
      (fun d => (tt, set_qdrant (qdrant_upsert points (qdrant d)) d)).

(** [_write_to_qdrant(vectors)] *)
Definition _write_to_qdrant (vs : list vec_item) : M unit :=
  try_catch
    (now <- gets (fun s => second_of (clock (io s))) ;;
     qdrant_client_upsert (map i_rowid vs) (map (point_of now) vs) ;;
     log_event INFO "qdrant_write_complete" ;;
     stat_add "qdrant_writes" (Z.of_nat (length vs)))
    (fun e => log_event ERROR "qdrant_write_failed").

Definition item_of (row : work_item) (txt : pystr) (vec : list float) : vec_item :=
  {| i_rowid := rowid row; i_bubble_id := bubble_id row;
     i_composer_id := composer_id row; i_timestamp := created_at_utc row;
     i_text := txt; i_bubble_type := bubble_type_name row; i_vector := vec |}.

(** The three lists built by the loop of [vectorize_batch]. *)
Record batch_acc : Type := {
  acc_vectors : list vec_item;
  rowids_success : list Z;
  failed : list (Z * string)
}.

(** [row["text"] or ""] *)
Definition text_of (row : work_item) : pystr := default [] (text row).

(** [for row in rows: ...] of [vectorize_batch] *)
Fixpoint embed_rows (fuel : nat) (rows : list work_item) (acc : batch_acc)
    : M batch_acc :=
  match rows with
  | [] => ret acc
  | row :: rest =>
      let txt := text_of row in
      vec <- generate_embedding fuel txt ;;
      match vec with
      | None =>
          embed_rows fuel rest
            {| acc_vectors := acc_vectors acc;
               rowids_success := rowids_success acc;
               failed := failed acc ++ [(rowid row, bubble_id row)] |}
      | Some v =>
          embed_rows fuel rest
            {| acc_vectors := acc_vectors acc ++ [item_of row txt v];
               rowids_success := rowids_success acc ++ [rowid row];
               failed := failed acc |}
      end
  end.

Definition to_mvm (t : target_t) : bool :=
  match t with TargetMvm | TargetBoth => true | TargetQdrant => false end.
Definition to_qdrant (t : target_t) : bool :=
  match t with TargetQdrant | TargetBoth => true | TargetMvm => false end.

(** What [vectorize_batch] does with the three lists. *)
Definition finish_batch (acc : batch_acc) : M Z :=
  match acc_vectors acc with
  | [] => ret tt
  | _ =>
      (if to_mvm (target cfg) then _write_to_mvm (acc_vectors acc) else ret tt) ;;
      (if to_qdrant (target cfg) then _write_to_qdrant (acc_vectors acc) else ret tt)
  end ;;
  match rowids_success acc with
  | [] => ret tt
  | ids =>
      store_request (SqlQueueUpdate ids)
        (fun d => (tt, set_chat_data (queue_update ids (chat_data d)) d)) ;;
      log_event INFO "batch_complete"
  end ;;
  match failed acc with
  | [] => ret tt
  | _ => log_event WARN "batch_partial_fail"
  end ;;
  ret (Z.of_nat (length (rowids_success acc))).

Definition empty_acc : batch_acc :=
  {| acc_vectors := []; rowids_success := []; failed := [] |}.

(** [vectorize_batch(batch_size)] *)
Definition vectorize_batch (fuel : nat) (batch_size : Z) : M Z :=
  try_catch
    (rows <- store_request SqlQueueSelect
               (fun d => (queue_select batch_size (chat_data d), d)) ;;
     match rows with
     | [] => ret 0
     | _ =>
         log_event INFO "batch_start" ;;
         acc <- embed_rows fuel rows empty_acc ;;
         finish_batch acc
     end)
    (fun e => log_event ERROR "batch_failed" ;; ret 0).

(** [while self.get_queue_size() > 0: ...] of [run_instant_mode] *)
Fixpoint instant_loop (rounds fuel : nat) (total : Z) : M Z :=
  match rounds with
  | O => diverge
  | S rounds' =>
      size <- get_queue_size ;;
      if 0 <? size then
        count <- vectorize_batch fuel 10 ;;
        if count =? 0 then ret total
        else instant_loop rounds' fuel (total + count)
      else ret total
  end.

(** [run_instant_mode()] *)
Definition run_instant_mode (rounds fuel : nat) : M Z :=
  drain_dlq fuel 25 ;;
  queue_size <- get_queue_size ;;
  if queue_size =? 0 then ret 0
  else
    log_event INFO "mode_instant" ;;
    instant_loop rounds fuel 0.

(** [for batch_num in range(max_batches): ...] of [run_bulk_mode] *)
Fixpoint bulk_loop (fuel : nat) (todo : list Z) (total : Z) : M Z :=
  match todo with
  | [] => ret total
  | batch_num :: rest =>
      count <- vectorize_batch fuel 10 ;;
      if count =? 0 then ret total
      else
        remaining <- get_queue_size ;;
        log_event INFO "bulk_batch_progress" ;;
        sleep 2 ;;
        bulk_loop fuel rest (total + count)
  end.

(** [run_bulk_mode(max_batches)] *)
Definition run_bulk_mode (fuel : nat) (max_batches : Z) : M Z :=
  drain_dlq fuel 25 ;;
  queue_size <- get_queue_size ;;
  if queue_size =? 0 then ret 0
  else
    log_event INFO "mode_bulk" ;;
    total <- bulk_loop fuel (py_range max_batches) 0 ;;
    remaining <- get_queue_size ;;
    ret total.

(** *** Start-up *)

(** The prompt of the health check, ["test warmup"]. *)
Definition warmup_prompt : pystr :=
  [116; 101; 115; 116; 32; 119; 97; 114; 109; 117; 112]%N.

(** How one round of the health check ends: with the dimension of the
    embedding received ([break]), with nothing decided (the loop goes
    on), or with [return False]. *)
Inductive probe : Type :=
| Healthy (dim : Z)
| Again
| GaveUp.

(** One round of [for attempt in range(3)] in [initialize]. *)
Definition warm_up_once (attempt : Z) : M probe :=
  try_catch
    (data <- http_post warmup_prompt ;;
     match data with
     | JObj fields =>
         match dict_get "embedding" fields with
         | JList (x :: rest) =>
             log_event INFO "ollama_initialized" ;;
             ret (Healthy (Z.of_nat (length (x :: rest))))
         | _ => ret Again
         end
     | _ => raise (no_get data)
     end)
    (fun e =>
       if attempt <? 2 then
         sleep (inject_Z (2 ^ attempt)) ;;
         ret Again
       else
         log_event ERROR "ollama_init_failed" ;;
         ret GaveUp).

(** The health check: [None] is [return False]; [Some dim] is the value
    of [self.embedding_dim] when the loop is left. *)
Fixpoint warm_up (todo : list Z) : M (option (option Z)) :=
  match todo with
  | [] => ret (Some None)
  | attempt :: rest =>
      r <- warm_up_once attempt ;;
      match r with
      | Healthy dim => ret (Some (Some dim))
      | Again => warm_up rest
      | GaveUp => ret None
      end
  end.

(** What [initialize] leaves in [self] when it returns [True]. *)
Record setup : Type := {
  effective_target : target_t;     (* self.target *)
  embedding_dim : option Z         (* self.embedding_dim *)
}.

(** [initialize()]: [None] is [False], [Some st] is [True] with the
    attributes [st]. Outside the model, and given as arguments: [client]
    is [Some e] if importing [httpx] or building the client raises [e];
    [init_qdrant] is [_init_qdrant], which talks to the Qdrant client;
    [mvm_db_exists] is [self.mvm_db.exists()]. *)
Definition initialize (client : option string) (init_qdrant : option Z -> M bool)
    (mvm_db_exists : bool) : M (option setup) :=
  try_catch
    (match client with Some e => raise e | None => ret tt end ;;
     w <- warm_up (py_range 3) ;;
     match w with
     | None => ret None
     | Some dim =>
         t <- (if to_qdrant (target cfg) then
                 ok <- init_qdrant dim ;;
                 if (ok : bool) then ret (Some (target cfg))
                 else match target cfg with
                      | TargetQdrant => ret None
                      | _ => ret (Some TargetMvm)
                      end
               else ret (Some (target cfg))) ;;
         match t with
         | None => ret None
         | Some t =>
             if to_mvm t then
               if mvm_db_exists then
                 _ensure_cache_tables ;;
                 ret (Some {| effective_target := t; embedding_dim := dim |})
               else ret None
             else ret (Some {| effective_target := t; embedding_dim := dim |})
         end
     end)
    (fun e => log_event ERROR "init_failed" ;; ret None).

(** * Vocabulary of the properties

    Predicates on states, and the states that the methods above reach,
    written out as functions so that the properties can name them. *)

(** ** Texts *)

(** A word of [split]: not empty and free of whitespace. *)
Definition word (w : pystr) : Prop := w <> [] /\ forallb (fun c => negb (is_space c)) w = true.

(** ** Preorders on states *)

(** [m] moves every state along the preorder [R], whatever its outcome. *)
Definition steady {A} (R : state -> state -> Prop) (m : M A) : Prop :=
  forall s, R s (snd (m s)).

(** The queue is the same in both states. *)
Definition same_queue (s s' : state) : Prop := chat_data (db s') = chat_data (db s).

(** [m] never ends in an exception. *)
Definition no_raise {A} (m : M A) : Prop := forall s e, fst (m s) <> Raised e.

(** A relation on the stores, as a relation on states. *)
Definition on_stores (R : stores -> stores -> Prop) (s s' : state) : Prop :=
  R (db s) (db s').

(** [r'] is [r], except that its flag may have been set to 1. *)
Definition same_but_processed (r r' : work_item) : Prop :=
  rowid r' = rowid r /\ bubble_id r' = bubble_id r /\
  composer_id r' = composer_id r /\ created_at_utc r' = created_at_utc r /\
  text r' = text r /\ bubble_type_name r' = bubble_type_name r /\
  (processed r' = processed r \/ processed r' = 1).

(** Row by row the queue of [s'] is the queue of [s]: no row was added
    or deleted, and nothing but flags set to 1 has changed. *)
Definition queue_frame (s s' : state) : Prop :=
  Forall2 same_but_processed (chat_data (db s)) (chat_data (db s')).

(** Between [s] and [s'] the work queue, the sinks and the token bucket
    were not touched, and time and the counters only went forward. *)
Record embed_frame (s s' : state) : Prop := {
  ef_chat : chat_data (db s') = chat_data (db s);
  ef_vectors : vectors (db s') = vectors (db s);
  ef_qdrant : qdrant (db s') = qdrant (db s);
  ef_tokens : tokens (eng s') = tokens (eng s);
  ef_last : token_last (eng s') = token_last (eng s);
  ef_init : cache_initialized (eng s) = true -> cache_initialized (eng s') = true;
  ef_clock : (clock (io s) <= clock (io s'))%Q;
  ef_posts : (posts (io s) <= posts (io s'))%nat;
  ef_requests : (requests (io s) <= requests (io s'))%nat
}.

(** [behaves b m]: [m] respects [embed_frame], never exhausts its fuel,
    and raises only if [b] allows it. *)
Definition behaves {A} (may_raise : bool) (m : M A) : Prop :=
  forall s,
    embed_frame s (snd (m s)) /\
    match fst (m s) with
    | Ok _ => True
    | Raised _ => may_raise = true
    | Diverged => False
    end.

(** ** The token bucket *)

(** The bucket never holds a debt and was last refilled in the past. *)
Definition wf (s : state) : Prop :=
  (0 <= tokens (eng s))%Q /\ (token_last (eng s) <= clock (io s))%Q.

(** The level [_take_token] computes before it decides. *)
Definition refill (s : state) : Q :=
  Qmin bucket_size
    (tokens (eng s) + (clock (io s) - token_last (eng s)) * tokens_per_sec).

(** The effects of pacing: clock readings and sleeps. *)
Definition pacing (ev : event) : bool :=
  match ev with EvNow | EvSleep _ => true | _ => false end.

(** Only the pacing of [await_token] happened between [s] and [s'], and
    it ended with a token taken from a level of at least 1. *)
Record paced (s s' : state) : Prop := {
  paced_db : db s' = db s;
  paced_cb : cb_failures (eng s') = cb_failures (eng s);
  paced_stats : stats (eng s') = stats (eng s);
  paced_init : cache_initialized (eng s') = cache_initialized (eng s);
  paced_posts : posts (io s') = posts (io s);
  paced_requests : requests (io s') = requests (io s);
  paced_draws : draws (io s') = draws (io s);
  paced_trace : exists evs, trace (io s') = trace (io s) ++ EvNow :: evs
                            /\ forallb pacing evs = true;
  paced_clock : (clock (io s) <= clock (io s'))%Q;
  paced_last : (token_last (eng s') <= clock (io s'))%Q;
  paced_taken : exists level, (1 <= level)%Q /\ (tokens (eng s') == level - 1)%Q
}.

(** Rounds of [await_token] that always suffice. *)
Definition token_fuel : nat := S (S (Z.to_nat (Qceiling (2 / tokens_per_sec)))).

(** From a bucket without debt, [m] does not run out of fuel and leaves
    the bucket without debt. *)
Definition lively {A} (m : M A) : Prop :=
  forall s, wf s -> wf (snd (m s)) /\ fst (m s) <> Diverged.

(** ** Elementary steps *)

(** After a storage request [q] that succeeded ([ok]) or raised. *)
Definition requested (q : sql) (ok : bool) (s : state) : state :=
  with_io (fun w => count_request (emit (EvStore q ok) w)) s.

(** After [log_event]. *)
Definition logged (lvl : level) (name : string) (s : state) : state :=
  with_io (emit (EvLog lvl name)) s.

(** After [self.stats[name] += 1]. *)
Definition counted (name : string) (s : state) : state :=
  with_eng (fun e => set_stats (<[name := stat name e + 1]> (stats e)) e) s.

(** After a call to the inference endpoint. *)
Definition posted (txt : pystr) (s : state) : state :=
  with_io (fun w => count_post (emit (EvPost txt) w)) s.

(** After [asyncio.sleep(d)]. *)
Definition slept (d : Q) (s : state) : state :=
  with_io (fun w => advance (Qmax 0 d) (emit (EvSleep d) w)) s.

(** A reply that raises nothing and holds no embedding: an object
    without a non-empty list under [embedding]. *)
Definition no_embedding (r : reply) : bool :=
  match r with
  | ReplyJson (JObj fields) =>
      match dict_get "embedding" fields with
      | JList (_ :: _) => false
      | _ => true
      end
  | _ => false
  end.

(** A reply on which the health check raises: an error of the request,
    or a body that is not an object. *)
Definition raises (r : reply) : bool :=
  match r with
  | ReplyError _ => true
  | ReplyJson (JObj _) => false
  | ReplyJson _ => true
  end.

(** No request to SQLite or Qdrant raises. *)
Definition storage_ok : Prop := forall n, storage_fault E n = None.

(** ** The steps of an embedding request *)

(** The tables exist, or creating them will not fail. *)
Definition ready (s : state) : Prop :=
  cache_initialized (eng s) = true \/ storage_fault E (requests (io s)) = None.

(** After the table check, when it does not raise. *)
Definition ensured (s : state) : state :=
  if cache_initialized (eng s) then s
  else with_eng (set_cache_initialized true)
         (with_io (fun w => count_request (emit (EvStore SqlEnsureTables true) w)) s).

(** [generate_embedding] after the table check and the pacing loop. *)
Definition embed_paced (txt : pystr) : M (option (list float)) :=
  match _norm_text txt default_max_chars with
  | [] =>
      stat_add "empty_text" 1 ;;
      ret (Some [])
  | c :: t =>
      let k := _hash_key (c :: t) in
      hit <- cache_check k ;;
      match hit with
      | Some vec => ret (Some vec)
      | None =>
          _cool_if_cb_open ;;
          retry_loop (py_range (attempts cfg)) (c :: t) k
      end
  end.

(** The state [_cool_if_cb_open] leaves when the breaker is open. *)
Definition cooled (s : state) : state :=
  let trips := stat "circuit_trips" (eng s) in
  let pause_time := (cb_pause_s cfg * inject_Z (Z.min (trips + 1) 5))%Q in
  with_eng (fun e => set_stats (<["circuit_trips" := stat "circuit_trips" e + 1]> (stats e)) e)
    (with_eng (set_cb_failures 0)
       (with_io (fun w => advance (Qmax 0 pause_time) (emit (EvSleep pause_time) w))
          (with_io (emit (EvLog ERROR "circuit_open")) s))).


(** The row written through to the cache. *)
Definition cache_row_of (k : string) (vec : list float) (now : Q) : cache_row :=
  {| c_key := k; c_vector := vec; c_model := model cfg;
     c_dims := Z.of_nat (length vec); c_created_at := now |}.

(** After the write-through to the cache, done or failed. *)
Definition cache_written (k : string) (vec : list float) (s : state) : state :=
  match storage_fault E (requests (io s)) with
  | Some e => logged WARN "cache_write_failed" (requested (SqlCacheInsert k) false s)
  | None =>
      with_db (set_embed_cache
                 (cache_insert_ignore (cache_row_of k vec (second_of (clock (io s))))
                    (embed_cache (db s))))
        (requested (SqlCacheInsert k) true s)
  end.

(** After a successful attempt. *)
Definition succeeded (k : string) (vec : list float) (s : state) : state :=
  counted "embeddings_generated" (with_eng (set_cb_failures 0) (cache_written k vec s)).

(** What the [n]-th reply makes of an attempt: the exception caught by
    the retry loop, or the vector. *)
Definition attempt_result (n : nat) (txt : pystr) : string + list float :=
  match inference E n txt with
  | ReplyError e => inl e
  | ReplyJson data => decode_embedding data
  end.


(** The endpoint answers every request with an embedding that converts
    to floats. *)
Definition endpoint_ok : Prop :=
  forall n txt, exists vec, attempt_result n txt = inr vec.

(** After a failed attempt was counted. *)
Definition failed_attempt (txt : pystr) (s : state) : state :=
  with_eng (fun en => set_cb_failures (cb_failures en + 1) en)
    (counted "embedding_errors" (posted txt s)).

(** The jitter drawn in state [s] for a delay of [d] milliseconds. *)
Definition jitter_of (d : Z) (s : state) : Q :=
  (0 + (inject_Z d * (1 # 10) - 0) * draw E (draws (io s)))%Q.

(** The seconds slept before the next attempt. *)
Definition backoff_s (attempt : Z) (s : state) : Q :=
  ((inject_Z (delay_ms attempt) + jitter_of (delay_ms attempt) s) / 1000)%Q.

(** After the back-off that follows a failed attempt. *)
Definition backed_off (attempt : Z) (s : state) : state :=
  logged WARN "embedding_retry"
    (with_io (fun w => advance (Qmax 0 (backoff_s attempt s))
                         (emit (EvSleep (backoff_s attempt s)) w))
       (with_io (fun w => count_draw (emit EvRandom w)) s)).

(** After the write to the dead letter queue, done or failed. *)
Definition dlq_written (k : string) (txt : pystr) (e : string) (s : state) : state :=
  match storage_fault E (requests (io s)) with
  | Some e2 => logged ERROR "dlq_write_failed" (requested (SqlDlqUpsert k) false s)
  | None =>
      with_db (set_embed_dlq
                 (dlq_upsert k txt e (second_of (clock (io s))) (embed_dlq (db s))))
        (requested (SqlDlqUpsert k) true s)
  end.

(** After the last attempt has failed. *)
Definition gave_up (k : string) (txt : pystr) (e : string) (s : state) : state :=
  logged ERROR "embedding_failed_final" (dlq_written k txt e s).

(** ** The dead letter queue *)

(** The first entry with key [k]. *)
Definition dlq_find (k : string) (rows : list dlq_row) : option dlq_row :=
  List.find (dlq_has_key k) rows.

(** All entries with key [k]. *)
Definition dlq_entries (k : string) (rows : list dlq_row) : list dlq_row :=
  List.filter (dlq_has_key k) rows.

(** [r] was last tried no later than [r']. *)
Definition older (r r' : dlq_row) : Prop :=
  (d_last_attempt_at r <= d_last_attempt_at r')%Q.

(** An entry as [generate_embedding] writes it: the text is a normalised
    text and the key is the content hash of that text. *)
Definition engine_written (r : dlq_row) : Prop :=
  exists txt, d_text r = _norm_text txt default_max_chars /\
              d_key r = _hash_key (d_text r).

(** ** The sinks *)

(** Every row that a lookup finds in the cache of [d] it finds in the
    cache of [d']. *)
Definition cache_kept (d d' : stores) : Prop :=
  forall k r,
    cache_select k (embed_cache d) = Some r -> cache_select k (embed_cache d') = Some r.

(** The table of vectors of [d'] starts with the rows it has in [d]. *)
Definition vectors_kept (d d' : stores) : Prop :=
  exists added, vectors d' = vectors d ++ added.

(** The columns declared as keys hold no value twice: the row identifier
    of the queue, [key] of the cache and of the dead letter queue,
    [bubble_id] of [vectors], the id of a point. *)
Definition unique_keys (d : stores) : Prop :=
  NoDup (map rowid (chat_data d)) /\ NoDup (map c_key (embed_cache d)) /\
  NoDup (map d_key (embed_dlq d)) /\ NoDup (map v_bubble_id (vectors d)) /\
  NoDup (map p_id (qdrant d)).

(** The point has the id [id]. *)
Definition has_id (id : string) (p : point) : bool := String.eqb (p_id p) id.

(** ** A batch *)

(** The embed calls of a batch, in order, with what each returned. *)
Fixpoint embed_each (fuel : nat) (rows : list work_item)
    : M (list (option (list float))) :=
  match rows with
  | [] => ret []
  | row :: rest =>
      vec <- generate_embedding fuel (text_of row) ;;
      vecs <- embed_each fuel rest ;;
      ret (vec :: vecs)
  end.

(** The three lists of [vectorize_batch], from what the calls returned. *)
Fixpoint collect (rows : list work_item) (results : list (option (list float)))
    (acc : batch_acc) : batch_acc :=
  match rows, results with
  | row :: rest, Some v :: results' =>
      collect rest results'
        {| acc_vectors := acc_vectors acc ++ [item_of row (text_of row) v];
           rowids_success := rowids_success acc ++ [rowid row];
           failed := failed acc |}
  | row :: rest, None :: results' =>
      collect rest results'
        {| acc_vectors := acc_vectors acc;
           rowids_success := rowids_success acc;
           failed := failed acc ++ [(rowid row, bubble_id row)] |}
  | _, _ => acc
  end.

(** The rows whose call returned something other than [None]. *)
Fixpoint succeeded_rows (rows : list work_item) (results : list (option (list float)))
    : list work_item :=
  match rows, results with
  | row :: rest, Some _ :: results' => row :: succeeded_rows rest results'
  | row :: rest, None :: results' => succeeded_rows rest results'
  | _, _ => []
  end.

(** The key under which a row's text goes to the cache and to the dead
    letter queue. *)
Definition key_of (row : work_item) : string :=
  _hash_key (_norm_text (text_of row) default_max_chars).

(** The [processed] flag of the row with identifier [id]. *)
Definition processed_of (id : Z) (table : list work_item) : option Z :=
  processed <$> List.find (fun r => rowid r =? id) table.

(** After [_write_to_mvm], done or failed. *)
Definition mvm_written (vs : list vec_item) (s : state) : state :=
  match storage_fault E (requests (io s)) with
  | Some e =>
      logged ERROR "mvm_write_failed"
        (requested (SqlVectorsInsert (map i_rowid vs)) false s)
  | None =>
      with_eng (fun e => set_stats
                  (<["mvm_writes" := stat "mvm_writes" e + Z.of_nat (length vs)]> (stats e)) e)
        (logged INFO "mvm_write_complete"
           (with_db (set_vectors
                       (vectors_insert_ignore (second_of (clock (io s))) vs
                          (vectors (db s))))
              (requested (SqlVectorsInsert (map i_rowid vs)) true s)))
  end.

(** An item of a batch whose vector is empty. *)
Definition no_components (v : vec_item) : bool :=
  match i_vector v with [] => true | _ => false end.

(** The upsert of the items [vs] is turned down: by the client, since
    one of the vectors is empty, or by a fault of the environment. *)
Definition qdrant_refuses (vs : list vec_item) (s : state) : bool :=
  existsb no_components vs || bool_decide (is_Some (storage_fault E (requests (io s)))).

(** After [_write_to_qdrant], done or failed. *)
Definition qdrant_written (vs : list vec_item) (s : state) : state :=
  if qdrant_refuses vs s then
    logged ERROR "qdrant_write_failed"
      (requested (QdrantUpsert (map i_rowid vs)) false s)
  else
    with_eng (fun e => set_stats
                (<["qdrant_writes" := stat "qdrant_writes" e + Z.of_nat (length vs)]> (stats e)) e)
      (logged INFO "qdrant_write_complete"
         (with_db (set_qdrant (qdrant_upsert (map (point_of (second_of (clock (io s)))) vs)
                                 (qdrant (db s))))
            (requested (QdrantUpsert (map i_rowid vs)) true s))).

(** After the sink writers were handed the vectors of the batch. *)
Definition sunk (acc : batch_acc) (s : state) : state :=
  match acc_vectors acc with
  | [] => s
  | vs =>
      let s1 := if to_mvm (target cfg) then mvm_written vs s else s in
      if to_qdrant (target cfg) then qdrant_written vs s1 else s1
  end.

(** After the warning about the failed rows of a batch, if any. *)
Definition partial_logged (acc : batch_acc) (s : state) : state :=
  match failed acc with
  | [] => s
  | _ => logged WARN "batch_partial_fail" s
  end.

(** The state in which the calls of a batch start. *)
Definition batch_started (rows : list work_item) (s : state) : state :=
  match rows with
  | [] => requested SqlQueueSelect true s
  | _ => logged INFO "batch_start" (requested SqlQueueSelect true s)
  end.

(** The state in which a batch ends when the update of the queue works. *)
Definition finished (acc : batch_acc) (s : state) : state :=
  partial_logged acc
    match rowids_success acc with
    | [] => sunk acc s
    | ids =>
        logged INFO "batch_complete"
          (with_db (set_chat_data (queue_update ids (chat_data (db (sunk acc s)))))
             (requested (SqlQueueUpdate ids) true (sunk acc s)))
    end.

(** ** What happened between two states *)

(** The events of [s'] that came after [s]. *)
Definition events_since (s s' : state) : list event :=
  skipn (length (trace (io s))) (trace (io s')).

(** [s'] comes after [s]: its trace starts with the trace of [s]. *)
Definition extends (s s' : state) : Prop :=
  trace (io s') = trace (io s) ++ events_since s s'.

(** The statements on the work queue and on the dead letter store, the
    creation of the tables included. *)
Definition queue_or_dlq (q : sql) : bool :=
  match q with
  | SqlEnsureTables | SqlDlqUpsert _ | SqlDlqSelect | SqlDlqDelete _
  | SqlQueueSelect | SqlQueueCount | SqlQueueUpdate _ => true
  | _ => false
  end.

(** The event of a request of kind [p] that raised. *)
Definition failure_of (p : sql -> bool) (ev : event) : bool :=
  match ev with
  | EvStore q false => p q
  | _ => false
  end.

(** No request of kind [p] raised between [s] and [s']. *)
Definition none_failed (p : sql -> bool) (s s' : state) : Prop :=
  existsb (failure_of p) (events_since s s') = false.

(** Every entry of the dead letter queue of [d] is still there in [d'],
    with no fewer attempts. *)
Definition dlq_kept (d d' : stores) : Prop :=
  forall k r, dlq_find k (embed_dlq d) = Some r ->
    exists r', dlq_find k (embed_dlq d') = Some r' /\ d_attempts r <= d_attempts r'.

(** * Properties *)

(** ** Facts about splitting and joining *)

Lemma is_space_SP : is_space SP = true.
Proof. reflexivity. Qed.

Lemma split_from_lstrip s : split_from [] (lstrip s) = split_from [] s.
Proof.
  induction s as [|c s IH]; simpl; [reflexivity|].
  destruct (is_space c) eqn:Hsp; [exact IH|].
  simpl. rewrite Hsp. reflexivity.
Qed.

Lemma rstrip_nil_split s : rstrip s = [] -> split_from [] s = [].
Proof.
  induction s as [|c s IH]; simpl; [reflexivity|].
  destruct (rstrip s) eqn:R.
  - destruct (is_space c); [intros _; apply IH; reflexivity | discriminate].
  - discriminate.
Qed.

Lemma split_from_rstrip s : forall cur, split_from cur (rstrip s) = split_from cur s.
Proof.
  induction s as [|c s IH]; intros cur; simpl; [reflexivity|].
  destruct (rstrip s) as [|r0 r] eqn:R.
  - destruct (is_space c) eqn:Hsp.
    + simpl. rewrite (rstrip_nil_split s R). destruct cur; reflexivity.
    + simpl. rewrite Hsp. rewrite <- IH. reflexivity.
  - simpl. destruct (is_space c) eqn:Hsp.
    + rewrite <- (IH []). destruct cur; reflexivity.
    + apply IH.
Qed.

Lemma split_strip s : split (strip s) = split s.
Proof.
  unfold split, strip. rewrite split_from_rstrip. apply split_from_lstrip.
Qed.

Lemma split_from_nonspace w : forall cur rest,
  forallb (fun c => negb (is_space c)) w = true ->
  split_from cur (w ++ rest) = split_from (cur ++ w) rest.
Proof.
  induction w as [|c w IH]; intros cur rest H; simpl in *.
  - rewrite app_nil_r. reflexivity.
  - apply andb_true_iff in H as [Hc Hw].
    apply negb_true_iff in Hc. rewrite Hc.
    rewrite IH by exact Hw. rewrite <- app_assoc. reflexivity.
Qed.

Lemma split_from_words s : forall cur,
  forallb (fun c => negb (is_space c)) cur = true ->
  Forall word (split_from cur s).
Proof.
  induction s as [|c s IH]; intros cur Hcur; simpl.
  - destruct cur as [|c0 cur]; constructor; [|constructor].
    split; [discriminate | exact Hcur].
  - destruct (is_space c) eqn:Ec.
    + destruct cur as [|c0 cur]; [apply IH; reflexivity|].
      constructor; [split; [discriminate | exact Hcur] | apply IH; reflexivity].
    + apply IH. rewrite forallb_app, Hcur. simpl. rewrite Ec. reflexivity.
Qed.

Lemma split_words s : Forall word (split s).
Proof. apply split_from_words. reflexivity. Qed.

Lemma join_cons w ws :
  join [SP] (w :: ws) = w ++ match ws with [] => [] | _ => SP :: join [SP] ws end.
Proof. destruct ws; simpl; [rewrite app_nil_r|]; reflexivity. Qed.

Lemma split_join ws : Forall word ws -> split (join [SP] ws) = ws.
Proof.
  unfold split. induction 1 as [|w ws [Hne Hw] Hws IH]; [reflexivity|].
  rewrite join_cons, split_from_nonspace by exact Hw. simpl.
  destruct ws as [|w' ws'].
  - simpl. destruct w; [contradiction|reflexivity].
  - cbn [split_from]. rewrite is_space_SP.
    destruct w; [contradiction|]. rewrite IH. reflexivity.
Qed.

Lemma split_from_snoc_space s : forall cur,
  split_from cur (s ++ [SP]) = split_from cur s.
Proof.
  induction s as [|c s IH]; intros cur; simpl.
  - destruct cur; reflexivity.
  - destruct (is_space c); [rewrite IH; reflexivity | apply IH].
Qed.

Lemma rstrip_snoc_space s : rstrip (s ++ [SP]) = rstrip s.
Proof.
  induction s as [|c s IH]; simpl; [reflexivity|]. rewrite IH. reflexivity.
Qed.

Lemma rstrip_nil_inv s : rstrip s = [] -> forallb is_space s = true.
Proof.
  induction s as [|c s IH]; simpl; [reflexivity|].
  destruct (rstrip s) eqn:R; [|discriminate].
  destruct (is_space c); [intros _; apply IH; reflexivity | discriminate].
Qed.

Lemma rstrip_app t r : rstrip r <> [] -> rstrip (t ++ r) = t ++ rstrip r.
Proof.
  intros Hr. induction t as [|c t IH]; [reflexivity|].
  simpl. rewrite IH. destruct (rstrip r) as [|r0 r'] eqn:R; [contradiction|].
  destruct (t ++ r0 :: r') eqn:Q; [destruct t; discriminate | reflexivity].
Qed.

Lemma rstrip_word w : word w -> rstrip w = w.
Proof.
  intros [_ Hw]. induction w as [|c w IH]; [reflexivity|].
  simpl in *. apply andb_true_iff in Hw as [Hc Hw].
  apply negb_true_iff in Hc. rewrite IH, Hc by exact Hw.
  destruct w; reflexivity.
Qed.

Lemma join_nonnil w ws : word w -> join [SP] (w :: ws) <> [].
Proof.
  intros [Hne _]. rewrite join_cons. destruct w; [contradiction|discriminate].
Qed.

Lemma rstrip_join ws : Forall word ws -> rstrip (join [SP] ws) = join [SP] ws.
Proof.
  induction 1 as [|w ws Hw Hws IH]; [reflexivity|].
  rewrite join_cons. destruct ws as [|w' ws'].
  - rewrite app_nil_r. apply rstrip_word, Hw.
  - inversion Hws as [|? ? Hw' _]; subst.
    pose proof (join_nonnil w' ws' Hw') as Hne.
    remember (join [SP] (w' :: ws')) as J eqn:HJ. clear HJ.
    assert (HS : rstrip (SP :: J) = SP :: J).
    { simpl. rewrite IH. destruct J; [contradiction|reflexivity]. }
    rewrite rstrip_app; rewrite HS; [reflexivity|discriminate].
Qed.

Lemma rstrip_idem s : rstrip (rstrip s) = rstrip s.
Proof.
  induction s as [|c s IH]; [reflexivity|]. simpl.
  destruct (rstrip s) as [|r0 r] eqn:R.
  - destruct (is_space c) eqn:Ec; [reflexivity|]. simpl. rewrite Ec. reflexivity.
  - change (rstrip (c :: r0 :: r)) with
      (match rstrip (r0 :: r) with
       | [] => if is_space c then [] else [c]
       | r' => c :: r'
       end).
    rewrite IH. reflexivity.
Qed.

Lemma word_firstn n w : word w -> (0 < n)%nat -> word (firstn n w).
Proof.
  intros [Hne Hw] Hn. split.
  - destruct w; [contradiction|]. destruct n; [lia|discriminate].
  - clear Hne Hn. revert n. induction w as [|c w IH]; intros [|n]; simpl in *; try reflexivity.
    apply andb_true_iff in Hw as [Hc Hw]. rewrite Hc, IH by exact Hw. reflexivity.
Qed.

(** A prefix of a tidy text (words separated by single spaces) is tidy,
    up to one space left at its end. *)
Lemma firstn_join ws : Forall word ws -> forall n,
  exists ws', Forall word ws' /\
    (firstn n (join [SP] ws) = join [SP] ws' \/
     (ws' <> [] /\ firstn n (join [SP] ws) = join [SP] ws' ++ [SP])).
Proof.
  induction 1 as [|w ws Hw Hws IH]; intros n.
  - exists []. split; [constructor|left]. destruct n; reflexivity.
  - rewrite join_cons, firstn_app.
    destruct (Nat.le_gt_cases n (length w)) as [Hle|Hgt].
    + replace (n - length w)%nat with 0%nat by lia. rewrite firstn_O, app_nil_r.
      destruct n as [|n].
      * exists []. split; [constructor|left; reflexivity].
      * exists [firstn (S n) w]. split; [|left; reflexivity].
        constructor; [apply word_firstn; [exact Hw|lia] | constructor].
    + rewrite firstn_all2 by lia.
      destruct ws as [|w' ws'].
      * exists [w]. split; [constructor; [exact Hw|constructor]|left].
        rewrite firstn_nil, app_nil_r. reflexivity.
      * destruct (n - length w)%nat as [|m] eqn:Hm; [lia|].
        rewrite firstn_cons.
        destruct (IH m) as (ws2 & Hws2 & [Heq | [Hne Heq]]); rewrite Heq.
        -- destruct ws2 as [|x ws2].
           ++ exists [w]. split; [constructor; [exact Hw|constructor]|right].
              split; [discriminate|reflexivity].
           ++ exists (w :: x :: ws2). split; [constructor; assumption|left].
              rewrite (join_cons w). reflexivity.
        -- destruct ws2 as [|x ws2]; [contradiction|].
           exists (w :: x :: ws2). split; [constructor; assumption|right].
           split; [discriminate|].
           rewrite (join_cons w), <- app_assoc. reflexivity.
Qed.

Lemma slice_to_nonneg n s : 0 <= n -> slice_to n s = firstn (Z.to_nat n) s.
Proof. intros H. unfold slice_to. destruct (Z.ltb_spec n 0); [lia|reflexivity]. Qed.

Lemma norm_text_tidy ws n :
  Forall word ws -> 0 <= n -> (length (join [SP] ws) <= Z.to_nat n)%nat ->
  _norm_text (join [SP] ws) n = join [SP] ws.
Proof.
  intros Hws Hn Hlen. unfold _norm_text.
  destruct (join [SP] ws) as [|c t] eqn:J; [reflexivity|]. rewrite <- J.
  rewrite split_strip, split_join, slice_to_nonneg by assumption.
  apply firstn_all2. rewrite J. exact Hlen.
Qed.

Lemma norm_text_tidy_space ws n :
  Forall word ws -> 0 <= n -> (length (join [SP] ws) <= Z.to_nat n)%nat ->
  _norm_text (join [SP] ws ++ [SP]) n = join [SP] ws.
Proof.
  intros Hws Hn Hlen. unfold _norm_text.
  destruct (join [SP] ws ++ [SP]) as [|c t] eqn:J.
  { destruct (join [SP] ws); discriminate. }
  rewrite <- J. rewrite split_strip. unfold split.
  rewrite split_from_snoc_space. fold (split (join [SP] ws)).
  rewrite split_join, slice_to_nonneg by assumption.
  apply firstn_all2. exact Hlen.
Qed.

(** Normalising a normalised text only strips the space that the
    truncation may have left at its end. *)
Lemma norm_text_twice s n :
  0 <= n -> _norm_text (_norm_text s n) n = rstrip (_norm_text s n).
Proof.
  intros Hn. unfold _norm_text at 2 3. destruct s as [|c s]; [reflexivity|].
  rewrite slice_to_nonneg by exact Hn.
  set (ws := split (strip (c :: s))).
  assert (Hws : Forall word ws) by apply split_words.
  pose proof (length_firstn (Z.to_nat n) (join [SP] ws)) as Hlen.
  destruct (firstn_join ws Hws (Z.to_nat n)) as (ws' & Hws' & [Heq | [Hne Heq]]);
    rewrite Heq in *.
  - rewrite norm_text_tidy, rstrip_join by (assumption || lia). reflexivity.
  - rewrite length_app in Hlen. simpl in Hlen.
    rewrite norm_text_tidy_space, rstrip_snoc_space, rstrip_join
      by (assumption || lia).
    reflexivity.
Qed.

Lemma norm_text_fits s n :
  0 <= n -> (length (join [SP] (split (strip s))) <= Z.to_nat n)%nat ->
  _norm_text (_norm_text s n) n = _norm_text s n.
Proof.
  intros Hn Hlen. rewrite norm_text_twice by exact Hn.
  unfold _norm_text. destruct s as [|c s]; [reflexivity|].
  rewrite slice_to_nonneg, firstn_all2 by assumption.
  apply rstrip_join, split_words.
Qed.

(** ** Reasoning about engine methods *)

Section Steady.
Variable R : state -> state -> Prop.
Hypothesis R_refl : forall s, R s s.
Hypothesis R_trans : forall s1 s2 s3, R s1 s2 -> R s2 s3 -> R s1 s3.

Lemma steady_ret {A} (a : A) : steady R (ret a).
Proof. intros s. apply R_refl. Qed.

Lemma steady_raise {A} e : steady R (@raise A e).
Proof. intros s. apply R_refl. Qed.

Lemma steady_diverge {A} : steady R (@diverge A).
Proof. intros s. apply R_refl. Qed.

Lemma steady_gets {A} (f : state -> A) : steady R (gets f).
Proof. intros s. apply R_refl. Qed.

Lemma steady_bind {A B} (m : M A) (k : A -> M B) :
  steady R m -> (forall a, steady R (k a)) -> steady R (bind m k).
Proof.
  intros Hm Hk s. specialize (Hm s). unfold bind.
  destruct (m s) as [[a|e|] s']; simpl in *; try exact Hm.
  eapply R_trans; [exact Hm | apply Hk].
Qed.

Lemma steady_try {A} (m : M A) (h : string -> M A) :
  steady R m -> (forall e, steady R (h e)) -> steady R (try_catch m h).
Proof.
  intros Hm Hh s. specialize (Hm s). unfold try_catch.
  destruct (m s) as [[a|e|] s']; simpl in *; try exact Hm.
  eapply R_trans; [exact Hm | apply Hh].
Qed.

End Steady.

(** ** The token bucket *)

Section TokenBucket.
Hypothesis rate_positive : (0 < min_interval_ms cfg)%Q.

Lemma tokens_per_sec_positive : (0 < tokens_per_sec)%Q.
Proof.
  unfold tokens_per_sec. apply Qlt_shift_div_l; [exact rate_positive|].
  ring_simplify. reflexivity.
Qed.

Lemma take_token_run s :
  _take_token s =
  let s1 := with_eng (fun e => set_token_last (clock (io s)) (set_tokens (refill s) e))
              (with_io (emit EvNow) s) in
  if Qle_bool 1 (refill s)
  then (Ok true, with_eng (set_tokens (refill s - 1)) s1)
  else (Ok false,
        with_io (fun w => advance (Qmax 0 (Qmin ((1 - refill s) / tokens_per_sec) (1 # 2)))
                            (emit (EvSleep (Qmin ((1 - refill s) / tokens_per_sec) (1 # 2))) w))
          s1).
Proof.
  unfold _take_token, bind, time_time, modify, gets, sleep, ret, refill. simpl.
  destruct (Qle_bool 1 _); reflexivity.
Qed.

Lemma await_token_rounds (k : nat) : forall s fuel,
  ((1 - refill s) * 2 <= inject_Z (Z.of_nat k) * tokens_per_sec)%Q ->
  (k < fuel)%nat ->
  exists s', await_token fuel s = (Ok tt, s') /\ paced s s'.
Proof.
  pose proof tokens_per_sec_positive as Hr.
  induction k as [|k IH]; intros s fuel Hk Hfuel;
    (destruct fuel as [|fuel]; [lia|]);
    cbn [await_token]; unfold bind at 1; rewrite take_token_run; cbv zeta;
    destruct (Qle_bool 1 (refill s)) eqn:Hge.
  1,3: apply Qle_bool_iff in Hge; eexists; split; [reflexivity|];
       constructor; simpl; try reflexivity;
       [ exists []; split; reflexivity | apply Qle_refl | apply Qle_refl
       | exists (refill s); split; [exact Hge | reflexivity] ].
  - exfalso. assert (Hlt : ~ (1 <= refill s)%Q).
    { intros H. apply Qle_bool_iff in H. congruence. }
    apply Hlt. change (inject_Z (Z.of_nat 0)) with 0%Q in Hk. lra.
  - assert (Hlt : (refill s < 1)%Q).
    { apply Qnot_le_lt. intros H. apply Qle_bool_iff in H. congruence. }
    set (w := ((1 - refill s) / tokens_per_sec)%Q) in *.
    assert (Hw : (w * tokens_per_sec == 1 - refill s)%Q).
    { unfold w. rewrite Qmult_comm. apply Qmult_div_r. lra. }
    set (d := Qmin w (1 # 2)) in *.
    assert (Hd : (0 < d)%Q).
    { unfold d. destruct (Q.min_spec w (1 # 2)) as [[_ ->]|[_ ->]]; [|reflexivity].
      unfold w. apply Qlt_shift_div_l; [exact Hr|]. lra. }
    assert (Hmax : (Qmax 0 d == d)%Q) by (apply Q.max_r; lra).
    match goal with |- exists s', await_token fuel ?s1 = _ /\ _ =>
      destruct (IH s1 fuel) as (s' & Hrun & Hp); [|lia|] end.
    + unfold refill. simpl. fold (refill s). fold d. rewrite Hmax.
      rewrite Nat2Z.inj_succ, <- Z.add_1_r, inject_Z_plus in Hk. simpl in Hk.
      unfold bucket_size in *.
      assert (Hk0 : (0 <= inject_Z (Z.of_nat k))%Q).
      { change 0%Q with (inject_Z 0). rewrite <- Zle_Qle. lia. }
      change (inject_Z 1) with 1%Q in Hk.
      destruct (Q.min_spec 2 (refill s + (clock (io s) + d - clock (io s)) * tokens_per_sec))
        as [[_ ->]|[_ ->]]; [nra|].
      unfold d. destruct (Q.min_spec w (1 # 2)) as [[_ Hm]|[Hh Hm]]; rewrite Hm; nra.
    + exists s'. split; [exact Hrun|].
      destruct Hp as [? ? ? ? ? ? ? (evs & Htr & Hevs) Hclk ? ?]; simpl in *.
      constructor; simpl; try assumption.
      * exists (EvSleep d :: EvNow :: evs). split; [|exact Hevs].
        rewrite Htr, <- !app_assoc. reflexivity.
      * rewrite Hmax in Hclk. lra.
Qed.

Lemma paced_wf s s' : paced s s' -> wf s'.
Proof.
  intros [_ _ _ _ _ _ _ _ _ Hlast (level & Hge & Heq)]. split; [|exact Hlast].
  rewrite Heq. lra.
Qed.

Lemma refill_nonneg s : wf s -> (0 <= refill s)%Q.
Proof.
  pose proof tokens_per_sec_positive as Hr.
  intros [Htok Hlast]. unfold refill, bucket_size.
  apply Q.min_glb; [lra|]. nra.
Qed.

(** With a positive interval the pacing loop ends within [token_fuel]
    rounds, and a token has been taken when it does. *)
Lemma await_token_returns s fuel :
  wf s -> (token_fuel <= fuel)%nat ->
  exists s', await_token fuel s = (Ok tt, s') /\ paced s s'.
Proof.
  pose proof tokens_per_sec_positive as Hr.
  intros Hwf Hfuel.
  apply (await_token_rounds (S (Z.to_nat (Qceiling (2 / tokens_per_sec))))).
  - pose proof (refill_nonneg s Hwf) as H0.
    pose proof (Qle_ceiling (2 / tokens_per_sec)) as Hc.
    set (c := Qceiling (2 / tokens_per_sec)) in *.
    assert (Hq : (0 <= 2 / tokens_per_sec)%Q).
    { apply Qle_shift_div_l; [exact Hr|]. lra. }
    assert (Hcz : (inject_Z c <= inject_Z (Z.of_nat (S (Z.to_nat c))))%Q).
    { rewrite <- Zle_Qle. lia. }
    assert (Hm : (2 / tokens_per_sec * tokens_per_sec == 2)%Q).
    { rewrite Qmult_comm. apply Qmult_div_r. lra. }
    assert (Hle : (2 / tokens_per_sec <= inject_Z (Z.of_nat (S (Z.to_nat c))))%Q) by lra.
    apply (Qmult_le_compat_r _ _ tokens_per_sec) in Hle; lra.
  - unfold token_fuel in Hfuel. lia.
Qed.

End TokenBucket.

(** ** Statistics *)

Lemma stat_set_same name v m e : stat name (set_stats (<[name := v]> m) e) = v.
Proof. unfold stat. simpl. rewrite lookup_insert_eq. reflexivity. Qed.

Lemma stat_set_other name name' v e :
  name <> name' -> stat name' (set_stats (<[name := v]> (stats e)) e) = stat name' e.
Proof. intros H. unfold stat. simpl. rewrite lookup_insert_ne by exact H. reflexivity. Qed.

(** ** The circuit breaker *)

Lemma cool_run s :
  _cool_if_cb_open s =
  (Ok tt, if cb_threshold cfg <=? cb_failures (eng s) then cooled s else s).
Proof.
  unfold _cool_if_cb_open, bind, gets. simpl.
  destruct (cb_threshold cfg <=? cb_failures (eng s)); reflexivity.
Qed.

(** C5. The gate of the circuit breaker. With
    [consecutive_failures >= failure_threshold] (10 by default) the call
    is not refused: it returns normally after logging [circuit_open] and
    sleeping [pause_duration_s * min(trip_count + 1, 5)] seconds, with the
    failure counter back at 0 and the trip counter one higher, and
    without touching the stores or the endpoint. Below the threshold the
    gate leaves the state as it is. *)
Theorem circuit_breaker_gate (s : state) :
  cb_threshold CONFIG_DEFAULTS = 10 /\
  (cb_threshold cfg <= cb_failures (eng s) ->
   let trips := stat "circuit_trips" (eng s) in
   let pause := (cb_pause_s cfg * inject_Z (Z.min (trips + 1) 5))%Q in
   exists s',
     _cool_if_cb_open s = (Ok tt, s') /\
     trace (io s') = trace (io s) ++ [EvLog ERROR "circuit_open"; EvSleep pause] /\
     clock (io s') = (clock (io s) + Qmax 0 pause)%Q /\
     cb_failures (eng s') = 0 /\
     stat "circuit_trips" (eng s') = trips + 1 /\
     posts (io s') = posts (io s) /\
     requests (io s') = requests (io s) /\
     db s' = db s) /\
  (cb_failures (eng s) < cb_threshold cfg ->
   _cool_if_cb_open s = (Ok tt, s)).
Proof.
  split; [reflexivity|]. split.
  - intros Hopen trips pause. exists (cooled s). rewrite cool_run.
    destruct (Z.leb_spec (cb_threshold cfg) (cb_failures (eng s))); [|lia].
    repeat split.
    + simpl. rewrite <- app_assoc. reflexivity.
    + unfold cooled. cbn [eng with_eng]. apply stat_set_same.
  - intros Hclosed. rewrite cool_run.
    destruct (Z.leb_spec (cb_threshold cfg) (cb_failures (eng s))); [lia|reflexivity].
Qed.

(** ** The dead letter queue *)

Lemma dlq_has_key_true k r : dlq_has_key k r = true <-> d_key r = k.
Proof. unfold dlq_has_key. apply String.eqb_eq. Qed.

Lemma dlq_absent_iff k rows :
  existsb (dlq_has_key k) rows = false <-> dlq_find k rows = None.
Proof.
  unfold dlq_find. induction rows as [|r rows IH]; simpl; [tauto|].
  destruct (dlq_has_key k r); simpl; [split; discriminate | exact IH].
Qed.

Lemma dlq_absent_entries k rows :
  existsb (dlq_has_key k) rows = false -> dlq_entries k rows = [].
Proof.
  unfold dlq_entries. induction rows as [|r rows IH]; simpl; [reflexivity|].
  destruct (dlq_has_key k r); simpl; [discriminate | exact IH].
Qed.

Lemma dlq_absent_not_in k rows :
  existsb (dlq_has_key k) rows = false -> ~ In k (map d_key rows).
Proof.
  induction rows as [|r rows IH]; simpl; [tauto|].
  destruct (dlq_has_key k r) eqn:Hk; simpl; [discriminate|].
  intros Hrows [Heq | Hin]; [|exact (IH Hrows Hin)].
  apply dlq_has_key_true in Heq. congruence.
Qed.

Lemma dlq_bump_keys k err now rows :
  map d_key (map (fun r => if dlq_has_key k r then dlq_bump err now r else r) rows)
  = map d_key rows.
Proof.
  rewrite map_map. apply map_ext. intros r. destruct (dlq_has_key k r); reflexivity.
Qed.

Lemma dlq_upsert_keys_nodup k txt err now rows :
  NoDup (map d_key rows) -> NoDup (map d_key (dlq_upsert k txt err now rows)).
Proof.
  intros Hnd. unfold dlq_upsert. destruct (existsb (dlq_has_key k) rows) eqn:Hex.
  - rewrite dlq_bump_keys. exact Hnd.
  - rewrite map_app. simpl. apply NoDup_app. split; [exact Hnd|]. split.
    + intros x Hx Hin. apply list_elem_of_In in Hx, Hin. simpl in Hin.
      destruct Hin as [<-|[]]. exact (dlq_absent_not_in k rows Hex Hx).
    + apply NoDup_singleton.
Qed.

Lemma dlq_entries_unique k rows r :
  NoDup (map d_key rows) -> dlq_find k rows = Some r -> dlq_entries k rows = [r].
Proof.
  unfold dlq_find, dlq_entries. induction rows as [|r0 rows IH]; simpl; [discriminate|].
  intros Hnd. apply NoDup_cons in Hnd as [Hnotin Hnd].
  destruct (dlq_has_key k r0) eqn:Hk.
  - intros [= <-]. f_equal. apply dlq_has_key_true in Hk.
    fold (dlq_entries k rows). apply dlq_absent_entries.
    destruct (existsb (dlq_has_key k) rows) eqn:Hex; [|reflexivity].
    exfalso. apply Hnotin. apply existsb_exists in Hex as (r1 & Hin & Hr1).
    apply dlq_has_key_true in Hr1. apply list_elem_of_In, in_map_iff.
    exists r1. split; [congruence | exact Hin].
  - apply IH, Hnd.
Qed.

Lemma dlq_upsert_find_absent k txt err now rows :
  dlq_find k rows = None ->
  dlq_find k (dlq_upsert k txt err now rows) =
  Some {| d_key := k; d_text := txt; d_last_error := err;
          d_attempts := 1; d_last_attempt_at := now |}.
Proof.
  intros Habs. unfold dlq_upsert. rewrite (proj2 (dlq_absent_iff k rows) Habs).
  unfold dlq_find in *. induction rows as [|r rows IH]; simpl in *.
  - unfold dlq_has_key. simpl. rewrite String.eqb_refl. reflexivity.
  - destruct (dlq_has_key k r); [discriminate | apply IH, Habs].
Qed.

Lemma dlq_upsert_find_present k txt err now rows r :
  dlq_find k rows = Some r ->
  dlq_find k (dlq_upsert k txt err now rows) = Some (dlq_bump err now r).
Proof.
  intros Hfind. unfold dlq_upsert.
  destruct (existsb (dlq_has_key k) rows) eqn:Hex.
  2:{ apply dlq_absent_iff in Hex. congruence. }
  clear Hex. unfold dlq_find in *. induction rows as [|r0 rows IH]; simpl in *; [discriminate|].
  destruct (dlq_has_key k r0) eqn:Hk.
  - injection Hfind as <-. simpl.
    unfold dlq_has_key in *. simpl. rewrite Hk. reflexivity.
  - rewrite Hk. apply IH, Hfind.
Qed.

Lemma dlq_upsert_others k k' txt err now rows :
  k' <> k -> dlq_entries k' (dlq_upsert k txt err now rows) = dlq_entries k' rows.
Proof.
  intros Hne. unfold dlq_upsert, dlq_entries.
  assert (Hoff : forall r, dlq_has_key k r = true -> dlq_has_key k' r = false).
  { intros r Hr. apply dlq_has_key_true in Hr. unfold dlq_has_key.
    apply String.eqb_neq. congruence. }
  destruct (existsb (dlq_has_key k) rows).
  - induction rows as [|r rows IH]; simpl; [reflexivity|].
    destruct (dlq_has_key k r) eqn:Hk.
    + unfold dlq_has_key at 1. simpl. fold (dlq_has_key k' r).
      rewrite (Hoff r Hk). exact IH.
    + destruct (dlq_has_key k' r); [f_equal|]; exact IH.
  - rewrite List.filter_app. simpl. unfold dlq_has_key at 2. simpl.
    destruct (String.eqb_spec k k'); [congruence|]. apply app_nil_r.
Qed.

(** ** What an embedding request leaves alone *)

Lemma ef_refl s : embed_frame s s.
Proof. constructor; try reflexivity; auto. apply Qle_refl. Qed.

Lemma ef_trans s1 s2 s3 : embed_frame s1 s2 -> embed_frame s2 s3 -> embed_frame s1 s3.
Proof.
  intros [] []. constructor; try congruence; try lia; auto.
  eapply Qle_trans; eassumption.
Qed.

Lemma clock_advance_le c d : (c <= c + Qmax 0 d)%Q.
Proof. pose proof (Q.le_max_l 0 d). lra. Qed.

Ltac frame_tac :=
  constructor; simpl; try reflexivity; try apply Qle_refl;
  try apply clock_advance_le; try lia; auto.

Lemma behaves_ret {A} b (a : A) : behaves b (ret a).
Proof. intros s. split; [apply ef_refl | exact I]. Qed.

Lemma behaves_raise {A} e : behaves true (@raise A e).
Proof. intros s. split; [apply ef_refl | reflexivity]. Qed.

Lemma behaves_gets {A} b (f : state -> A) : behaves b (gets f).
Proof. intros s. split; [apply ef_refl | exact I]. Qed.

Lemma behaves_bind {A B} b (m : M A) (k : A -> M B) :
  behaves b m -> (forall a, behaves b (k a)) -> behaves b (bind m k).
Proof.
  intros Hm Hk s. destruct (Hm s) as [Hf Ho]. unfold bind.
  destruct (m s) as [[a|e|] s']; simpl in *; [|auto|contradiction].
  destruct (Hk a s') as [Hf' Ho']. split; [eapply ef_trans; eassumption | exact Ho'].
Qed.

Lemma behaves_try {A} b (m : M A) (h : string -> M A) :
  behaves true m -> (forall e, behaves b (h e)) -> behaves b (try_catch m h).
Proof.
  intros Hm Hh s. destruct (Hm s) as [Hf Ho]. unfold try_catch.
  destruct (m s) as [[a|e|] s']; simpl in *; [auto| |contradiction].
  destruct (Hh e s') as [Hf' Ho']. split; [eapply ef_trans; eassumption | exact Ho'].
Qed.

Lemma behaves_log b lvl name : behaves b (log_event lvl name).
Proof. intros s. split; [frame_tac | exact I]. Qed.

Lemma behaves_sleep b d : behaves b (sleep d).
Proof. intros s. split; [frame_tac | exact I]. Qed.

Lemma behaves_uniform b x y : behaves b (random_uniform x y).
Proof. intros s. split; [frame_tac | exact I]. Qed.

Lemma behaves_stat_add b name n : behaves b (stat_add name n).
Proof. intros s. split; [frame_tac | exact I]. Qed.

Lemma behaves_set_cb b (f : engine -> Z) :
  behaves b (modify (with_eng (fun en => set_cb_failures (f en) en))).
Proof. intros s. split; [frame_tac | exact I]. Qed.

Lemma behaves_post txt : behaves true (http_post txt).
Proof.
  intros s. unfold http_post.
  destruct (inference E (posts (io s)) txt); (split; [frame_tac | reflexivity || exact I]).
Qed.

(** A request that rewrites only the cache and the dead letter queue. *)
Lemma behaves_store {A} q (run : stores -> A * stores) :
  (forall d, chat_data (snd (run d)) = chat_data d /\
             vectors (snd (run d)) = vectors d /\
             qdrant (snd (run d)) = qdrant d) ->
  behaves true (store_request q run).
Proof.
  intros Hrun s. unfold store_request.
  destruct (storage_fault E (requests (io s))); [split; [frame_tac | reflexivity]|].
  specialize (Hrun (db s)). destruct (run (db s)) as [a d]. simpl in Hrun.
  destruct Hrun as (? & ? & ?). split; [frame_tac; assumption | exact I].
Qed.

Lemma behaves_cool b : behaves b _cool_if_cb_open.
Proof.
  intros s. rewrite cool_run. simpl. split; [|exact I].
  destruct (cb_threshold cfg <=? cb_failures (eng s)); [frame_tac | apply ef_refl].
Qed.

Lemma behaves_cache_check b k : behaves b (cache_check k).
Proof.
  unfold cache_check. apply behaves_try.
  - apply behaves_bind; [apply behaves_store; intros d; simpl; auto|].
    intros [r|]; [|apply behaves_ret].
    repeat (apply behaves_bind; [apply behaves_stat_add || apply behaves_log | intros _]).
    apply behaves_ret.
  - intros e. apply behaves_bind; [apply behaves_log | intros _; apply behaves_ret].
Qed.

Lemma behaves_cache_write b k vec : behaves b (cache_write k vec).
Proof.
  unfold cache_write. apply behaves_try.
  - apply behaves_bind; [apply behaves_gets|]. intros now.
    apply behaves_store. intros d. simpl. auto.
  - intros e. apply behaves_log.
Qed.

Lemma behaves_dlq_write b k txt e : behaves b (dlq_write k txt e).
Proof.
  unfold dlq_write. apply behaves_try.
  - apply behaves_bind; [apply behaves_gets|]. intros now.
    apply behaves_store. intros d. simpl. auto.
  - intros e2. apply behaves_log.
Qed.

Lemma behaves_attempt txt k : behaves true (attempt_once txt k).
Proof.
  unfold attempt_once. apply behaves_bind; [apply behaves_post|]. intros data.
  destruct (decode_embedding data) as [e|vec]; [apply behaves_raise|].
  apply behaves_bind; [apply behaves_cache_write | intros _].
  apply behaves_bind; [apply (behaves_set_cb true (fun _ => 0)) | intros _].
  apply behaves_bind; [apply behaves_stat_add | intros _].
  apply behaves_ret.
Qed.

Lemma behaves_retry b txt k todo : behaves b (retry_loop todo txt k).
Proof.
  induction todo as [|attempt rest IH]; [apply behaves_ret|].
  cbn [retry_loop]. apply behaves_try.
  - apply behaves_bind; [apply behaves_attempt | intros vec; apply behaves_ret].
  - intros e.
    apply behaves_bind; [apply behaves_stat_add | intros _].
    apply behaves_bind; [apply (behaves_set_cb b (fun en => cb_failures en + 1)) | intros _].
    destruct (attempt <? attempts cfg - 1).
    + apply behaves_bind; [apply behaves_uniform | intros jitter].
      apply behaves_bind; [apply behaves_sleep | intros _].
      apply behaves_bind; [apply behaves_log | intros _]. exact IH.
    + apply behaves_bind; [apply behaves_dlq_write | intros _].
      apply behaves_bind; [apply behaves_log | intros _]. apply behaves_ret.
Qed.

Lemma generate_embedding_unfold fuel txt :
  generate_embedding fuel txt =
  (_ensure_cache_tables ;; await_token fuel ;; embed_paced txt).
Proof.
  unfold generate_embedding, embed_paced.
  destruct (_norm_text txt default_max_chars); reflexivity.
Qed.

Lemma behaves_embed_paced b txt : behaves b (embed_paced txt).
Proof.
  unfold embed_paced. destruct (_norm_text txt default_max_chars) as [|c t].
  - apply behaves_bind; [apply behaves_stat_add | intros _; apply behaves_ret].
  - apply behaves_bind; [apply behaves_cache_check|]. intros [vec|]; [apply behaves_ret|].
    apply behaves_bind; [apply behaves_cool | intros _]. apply behaves_retry.
Qed.

Lemma ef_wf s s' : embed_frame s s' -> wf s -> wf s'.
Proof.
  intros [] [Htok Hlast]. split; [congruence|].
  rewrite ef_last0. eapply Qle_trans; eassumption.
Qed.

(** *** The table check *)

Lemma ensure_run s :
  _ensure_cache_tables s =
  if cache_initialized (eng s) then (Ok tt, s)
  else match storage_fault E (requests (io s)) with
       | Some e =>
           (Raised e,
            with_io (fun w => count_request (emit (EvStore SqlEnsureTables false) w)) s)
       | None => (Ok tt, ensured s)
       end.
Proof.
  unfold _ensure_cache_tables, ensured, bind, gets, store_request, modify. simpl.
  destruct (cache_initialized (eng s)) eqn:Hinit; [reflexivity|].
  destruct (storage_fault E (requests (io s))); [reflexivity|].
  destruct s as [e d w]. reflexivity.
Qed.

Lemma ensure_ready s :
  ready s ->
  _ensure_cache_tables s = (Ok tt, ensured s) /\
  cache_initialized (eng (ensured s)) = true /\
  embed_frame s (ensured s) /\
  cb_failures (eng (ensured s)) = cb_failures (eng s) /\
  stats (eng (ensured s)) = stats (eng s) /\
  db (ensured s) = db s /\
  posts (io (ensured s)) = posts (io s) /\
  clock (io (ensured s)) = clock (io s).
Proof.
  intros Hready. rewrite ensure_run. unfold ensured.
  destruct (cache_initialized (eng s)) eqn:Hinit.
  - repeat split; try assumption; try apply ef_refl.
  - destruct Hready as [Hr|Hr]; [congruence|]. rewrite Hr.
    split; [reflexivity|]. split; [reflexivity|]. split; [frame_tac|].
    repeat split.
Qed.

(** *** The pacing loop, whenever it ends *)

Lemma await_token_paced fuel : forall s s',
  await_token fuel s = (Ok tt, s') -> paced s s'.
Proof.
  induction fuel as [|fuel IH]; intros s s'; [discriminate|].
  cbn [await_token]. unfold bind at 1. rewrite take_token_run. cbv zeta.
  destruct (Qle_bool 1 (refill s)) eqn:Hge.
  - intros [= <-]. apply Qle_bool_iff in Hge.
    constructor; simpl; try reflexivity;
      [ exists []; split; reflexivity | apply Qle_refl | apply Qle_refl
      | exists (refill s); split; [exact Hge | reflexivity] ].
  - intros Hrun. apply IH in Hrun.
    destruct Hrun as [? ? ? ? ? ? ? (evs & Htr & Hevs) Hclk ? ?]; simpl in *.
    constructor; simpl; try assumption.
    + eexists (EvSleep _ :: EvNow :: evs). split; [|exact Hevs].
      rewrite Htr, <- !app_assoc. reflexivity.
    + eapply Qle_trans; [apply clock_advance_le | exact Hclk].
Qed.

(** *** An embedding request, step by step *)

(** From a state where the tables exist or can be created, and with a
    positive rate-limit interval, [generate_embedding] returns: the table
    check, then the pacing loop, then the rest, none of which raises. *)
Lemma generate_embedding_steps fuel txt s :
  (0 < min_interval_ms cfg)%Q -> (token_fuel <= fuel)%nat ->
  wf s -> ready s ->
  exists s1 r s',
    await_token fuel (ensured s) = (Ok tt, s1) /\
    paced (ensured s) s1 /\
    embed_paced txt s1 = (Ok r, s') /\
    embed_frame s1 s' /\
    generate_embedding fuel txt s = (Ok r, s').
Proof.
  intros Hrate Hfuel Hwf Hready.
  destruct (ensure_ready s Hready) as (Hens & Hinit & Hef & _).
  destruct (await_token_returns Hrate (ensured s) fuel (ef_wf _ _ Hef Hwf) Hfuel)
    as (s1 & Hawait & Hpaced).
  destruct (behaves_embed_paced false txt s1) as [Hframe Hout].
  destruct (embed_paced txt s1) as [[r| |] s'] eqn:Hrest; simpl in *;
    [|discriminate|contradiction].
  exists s1, r, s'. split; [exact Hawait|]. split; [exact Hpaced|].
  split; [exact Hrest|]. split; [exact Hframe|].
  rewrite generate_embedding_unfold. unfold bind. rewrite Hens, Hawait. exact Hrest.
Qed.

(** When [generate_embedding] returns, the three steps were taken. *)
Lemma generate_embedding_inv fuel txt s r s' :
  generate_embedding fuel txt s = (Ok r, s') ->
  exists s1,
    _ensure_cache_tables s = (Ok tt, ensured s) /\
    await_token fuel (ensured s) = (Ok tt, s1) /\
    paced (ensured s) s1 /\
    embed_paced txt s1 = (Ok r, s') /\
    embed_frame s1 s'.
Proof.
  intros Hrun. rewrite generate_embedding_unfold in Hrun. unfold bind in Hrun.
  assert (Hens : _ensure_cache_tables s = (Ok tt, ensured s)).
  { rewrite ensure_run in *. unfold ensured.
    destruct (cache_initialized (eng s)); [reflexivity|].
    destruct (storage_fault E (requests (io s))); [discriminate | reflexivity]. }
  rewrite Hens in Hrun.
  destruct (await_token fuel (ensured s)) as [[[]| |] s1] eqn:Hawait; try discriminate.
  exists s1. split; [exact Hens|]. split; [reflexivity|].
  split; [apply (await_token_paced fuel), Hawait|]. split; [exact Hrun|].
  pose proof (proj1 (behaves_embed_paced false txt s1)) as H.
  rewrite Hrun in H. exact H.
Qed.

(** ** The states an embedding request goes through *)

Lemma store_request_run {A} q (run : stores -> A * stores) s :
  store_request q run s =
  match storage_fault E (requests (io s)) with
  | Some e => (Raised e, requested q false s)
  | None => (Ok (fst (run (db s))),
             with_db (fun _ => snd (run (db s))) (requested q true s))
  end.
Proof.
  unfold store_request. destruct (storage_fault E (requests (io s))); [reflexivity|].
  destruct (run (db s)); reflexivity.
Qed.

(** *** The cache check *)

Lemma cache_check_run k s :
  cache_check k s =
  match storage_fault E (requests (io s)) with
  | Some e =>
      (Ok None, logged WARN "cache_read_failed" (requested (SqlCacheSelect k) false s))
  | None =>
      match cache_select k (embed_cache (db s)) with
      | Some r =>
          (Ok (Some (c_vector r)),
           logged INFO "cache_hit" (counted "cache_hits" (requested (SqlCacheSelect k) true s)))
      | None => (Ok None, requested (SqlCacheSelect k) true s)
      end
  end.
Proof.
  unfold cache_check, try_catch, bind. rewrite store_request_run.
  destruct (storage_fault E (requests (io s))); [reflexivity|]. simpl.
  destruct (cache_select k (embed_cache (db s))); destruct s as [e d w]; reflexivity.
Qed.

(** *** One attempt *)

Lemma cache_write_run k vec s : cache_write k vec s = (Ok tt, cache_written k vec s).
Proof.
  unfold cache_write, cache_written, try_catch, bind, gets. rewrite store_request_run.
  destruct (storage_fault E (requests (io s))); destruct s as [e d w]; reflexivity.
Qed.

Lemma attempt_once_run txt k s :
  attempt_once txt k s =
  match attempt_result (posts (io s)) txt with
  | inl e => (Raised e, posted txt s)
  | inr vec => (Ok vec, succeeded k vec (posted txt s))
  end.
Proof.
  unfold attempt_once, attempt_result, bind at 1, http_post.
  fold (posted txt s).
  destruct (inference E (posts (io s)) txt) as [e|data]; [reflexivity|].
  destruct (decode_embedding data) as [e|vec]; [reflexivity|].
  unfold bind. rewrite cache_write_run. reflexivity.
Qed.

(** *** After a failed attempt *)

Lemma dlq_write_run k txt e s : dlq_write k txt e s = (Ok tt, dlq_written k txt e s).
Proof.
  unfold dlq_write, dlq_written, try_catch, bind, gets. rewrite store_request_run.
  destruct (storage_fault E (requests (io s))); destruct s as [en d w]; reflexivity.
Qed.

Lemma retry_loop_step attempt rest txt k s :
  retry_loop (attempt :: rest) txt k s =
  match attempt_result (posts (io s)) txt with
  | inr vec => (Ok (Some vec), succeeded k vec (posted txt s))
  | inl e =>
      if attempt <? attempts cfg - 1
      then retry_loop rest txt k (backed_off attempt (failed_attempt txt s))
      else (Ok None, gave_up k txt e (failed_attempt txt s))
  end.
Proof.
  cbn [retry_loop]. unfold try_catch, bind at 1. rewrite attempt_once_run.
  destruct (attempt_result (posts (io s)) txt) as [e|vec]; [|reflexivity].
  unfold bind at 1. unfold stat_add at 1, modify at 1. fold (counted "embedding_errors" (posted txt s)).
  unfold bind at 1. unfold modify at 1. fold (failed_attempt txt s).
  destruct (attempt <? attempts cfg - 1).
  - reflexivity.
  - unfold bind. rewrite dlq_write_run. reflexivity.
Qed.

(** *** Inference calls issued *)





Lemma py_range_length n : length (py_range n) = Z.to_nat n.
Proof. unfold py_range. rewrite length_map, length_seq. reflexivity. Qed.



(** *** Statistics and breaker along an attempt *)

Lemma stat_counted name s : stat name (eng (counted name s)) = stat name (eng s) + 1.
Proof. unfold counted. cbn [eng with_eng]. apply stat_set_same. Qed.


(** *** The loop as a whole *)

Lemma eng_dlq_written k txt e s : eng (dlq_written k txt e s) = eng s.
Proof. unfold dlq_written. destruct (storage_fault E (requests (io s))); reflexivity. Qed.

Lemma draws_dlq_written k txt e s : draws (io (dlq_written k txt e s)) = draws (io s).
Proof. unfold dlq_written. destruct (storage_fault E (requests (io s))); reflexivity. Qed.

Lemma stat_failed_attempt txt s :
  stat "embedding_errors" (eng (failed_attempt txt s))
  = stat "embedding_errors" (eng s) + 1.
Proof. unfold failed_attempt. cbn [eng with_eng]. apply stat_set_same. Qed.

Lemma gave_up_fields k txt e s :
  eng (gave_up k txt e s) = eng s /\
  posts (io (gave_up k txt e s)) = posts (io s) /\
  draws (io (gave_up k txt e s)) = draws (io s).
Proof.
  unfold gave_up, dlq_written.
  destruct (storage_fault E (requests (io s))); repeat split.
Qed.

Lemma failed_attempt_fields txt s :
  posts (io (failed_attempt txt s)) = S (posts (io s)) /\
  cb_failures (eng (failed_attempt txt s)) = cb_failures (eng s) + 1 /\
  draws (io (failed_attempt txt s)) = draws (io s).
Proof. repeat split. Qed.

Lemma backed_off_fields attempt s :
  eng (backed_off attempt s) = eng s /\
  posts (io (backed_off attempt s)) = posts (io s) /\
  draws (io (backed_off attempt s)) = S (draws (io s)).
Proof. repeat split. Qed.

(** A retry loop over the attempts [a, a + 1, ..., attempts - 1] that
    returns [None] has used them all. *)
Lemma retry_loop_exhausted txt k : forall m a s s',
  Z.of_nat (a + S m) = attempts cfg ->
  retry_loop (map Z.of_nat (seq a (S m))) txt k s = (Ok None, s') ->
  posts (io s') = (posts (io s) + S m)%nat /\
  cb_failures (eng s') = cb_failures (eng s) + Z.of_nat (S m) /\
  stat "embedding_errors" (eng s')
  = stat "embedding_errors" (eng s) + Z.of_nat (S m) /\
  draws (io s') = (draws (io s) + m)%nat /\
  (forall i, (i < S m)%nat ->
     exists e, attempt_result (posts (io s) + i) txt = inl e).
Proof.
  induction m as [|m IH]; intros a s s' Ha Hrun;
    cbn [seq map] in Hrun; rewrite retry_loop_step in Hrun;
    destruct (attempt_result (posts (io s)) txt) as [e|vec] eqn:Hres; try discriminate;
    destruct (Z.ltb_spec (Z.of_nat a) (attempts cfg - 1)) as [Hlt|Hge]; try lia;
    destruct (failed_attempt_fields txt s) as (Fp & Fcb & Fdr);
    pose proof (stat_failed_attempt txt s) as Fst.
  - injection Hrun as <-.
    destruct (gave_up_fields k txt e (failed_attempt txt s)) as (-> & -> & ->).
    rewrite Fp, Fcb, Fst, Fdr.
    repeat split; try lia.
    intros i Hi. assert (i = 0)%nat as -> by lia. rewrite Nat.add_0_r. eauto.
  - apply (IH (S a)) in Hrun; [|lia].
    destruct (backed_off_fields (Z.of_nat a) (failed_attempt txt s)) as (Be & Bp & Bd).
    rewrite Be, Bp, Bd, Fp, Fcb, Fst, Fdr in Hrun.
    destruct Hrun as (Hp & Hcb & Hst & Hdr & Hall).
    repeat split; try lia.
    intros [|i] Hi; [rewrite Nat.add_0_r; eauto|].
    destruct (Hall i ltac:(lia)) as (e' & He'). exists e'.
    rewrite <- He'. f_equal. lia.
Qed.








(** ** Empty text *)

Lemma ensured_initialized s : cache_initialized (eng (ensured s)) = true.
Proof.
  unfold ensured. destruct (cache_initialized (eng s)) eqn:H; [exact H | reflexivity].
Qed.

Lemma embed_paced_empty txt s :
  _norm_text txt default_max_chars = [] ->
  embed_paced txt s = (Ok (Some []), counted "empty_text" s).
Proof. intros H. unfold embed_paced. rewrite H. reflexivity. Qed.

(** C6, as the code has it. For a text whose normalised form is empty,
    and once the cache tables exist or can be created, [generate_embedding]
    first goes through the rate limiter, where a token is taken, and only
    then normalises the text and returns the empty list. Apart from the
    table check it reads the clock and sleeps, nothing else: no cache
    lookup, no cache write, no call to the endpoint; it counts the text
    under [empty_text]. *)
Theorem empty_text_after_token (fuel : nat) (txt : pystr) (s : state) :
  (0 < min_interval_ms cfg)%Q -> (token_fuel <= fuel)%nat ->
  wf s -> ready s ->
  _norm_text txt default_max_chars = [] ->
  exists s1,
    await_token fuel (ensured s) = (Ok tt, s1) /\
    generate_embedding fuel txt s = (Ok (Some []), counted "empty_text" s1) /\
    (exists level, (1 <= level)%Q /\ (tokens (eng s1) == level - 1)%Q) /\
    (exists evs, trace (io (counted "empty_text" s1))
                 = trace (io (ensured s)) ++ EvNow :: evs
                 /\ forallb pacing evs = true) /\
    posts (io (counted "empty_text" s1)) = posts (io s) /\
    requests (io (counted "empty_text" s1)) = requests (io (ensured s)) /\
    db (counted "empty_text" s1) = db s /\
    stat "empty_text" (eng (counted "empty_text" s1)) = stat "empty_text" (eng s) + 1.
Proof.
  intros Hrate Hfuel Hwf Hready Hempty.
  destruct (generate_embedding_steps fuel txt s Hrate Hfuel Hwf Hready)
    as (s1 & r & s' & Hawait & Hpaced & Hrest & _ & Hrun).
  rewrite (embed_paced_empty txt s1 Hempty) in Hrest. injection Hrest as <- <-.
  destruct (ensure_ready s Hready) as (_ & _ & _ & _ & Hstats & Hdb & Hposts & _).
  destruct Hpaced as [Pdb _ Pstats _ Pposts Preq _ Ptrace _ _ Ptaken].
  exists s1. split; [exact Hawait|]. split; [exact Hrun|].
  split; [exact Ptaken|]. split; [exact Ptrace|].
  split; [simpl; congruence|]. split; [exact Preq|].
  split; [simpl; congruence|].
  rewrite stat_counted. unfold stat. rewrite Pstats, Hstats. reflexivity.
Qed.

(** ** Cache hits *)

Lemma embed_paced_hit txt c t s r :
  _norm_text txt default_max_chars = c :: t ->
  storage_fault E (requests (io s)) = None ->
  cache_select (_hash_key (c :: t)) (embed_cache (db s)) = Some r ->
  embed_paced txt s =
  (Ok (Some (c_vector r)),
   logged INFO "cache_hit"
     (counted "cache_hits" (requested (SqlCacheSelect (_hash_key (c :: t))) true s))).
Proof.
  intros Hnorm Hok Hrow. unfold embed_paced. rewrite Hnorm. cbv zeta.
  unfold bind. rewrite cache_check_run, Hok, Hrow. reflexivity.
Qed.

Lemma embed_paced_nonempty txt s r s' :
  embed_paced txt s = (Ok (Some r), s') -> r <> [] ->
  _norm_text txt default_max_chars <> [].
Proof.
  intros Hrun Hr Hempty. rewrite (embed_paced_empty txt s Hempty) in Hrun.
  injection Hrun as <- _. contradiction.
Qed.

(** C3. Idempotence through the embedding cache. If [generate_embedding]
    returned a vector for [txt] and the cache then holds that vector under
    the content hash of the text, a second call with a text of the same
    normalised form, the cache being readable, returns the same vector
    from the cache: the hit is counted and logged, no inference call is
    issued, and the call returns before the breaker gate (its counters
    are untouched and nothing is slept for beyond the rate limiter). *)
Theorem cache_hit_idempotent (fuel : nat) (txt txt' : pystr) (s s1 : state)
    (vec : list float) (row : cache_row) :
  (0 < min_interval_ms cfg)%Q -> (token_fuel <= fuel)%nat ->
  generate_embedding fuel txt s = (Ok (Some vec), s1) ->
  vec <> [] ->
  cache_select (_hash_key (_norm_text txt default_max_chars)) (embed_cache (db s1))
  = Some row ->
  c_vector row = vec ->
  _norm_text txt' default_max_chars = _norm_text txt default_max_chars ->
  storage_fault E (requests (io s1)) = None ->
  exists s1' s2,
    await_token fuel s1 = (Ok tt, s1') /\
    generate_embedding fuel txt' s1 = (Ok (Some vec), s2) /\
    posts (io s2) = posts (io s1) /\
    trace (io s2)
    = trace (io s1')
      ++ [EvStore (SqlCacheSelect (_hash_key (_norm_text txt default_max_chars))) true;
          EvLog INFO "cache_hit"] /\
    (exists evs, trace (io s1') = trace (io s1) ++ EvNow :: evs
                 /\ forallb pacing evs = true) /\
    stat "cache_hits" (eng s2) = stat "cache_hits" (eng s1) + 1 /\
    cb_failures (eng s2) = cb_failures (eng s1) /\
    stat "circuit_trips" (eng s2) = stat "circuit_trips" (eng s1) /\
    db s2 = db s1.
Proof.
  intros Hrate Hfuel Hfirst Hvec Hrow Hrowvec Hnorm Hok.
  destruct (generate_embedding_inv fuel txt s (Some vec) s1 Hfirst)
    as (sa & _ & _ & Hpa & Hresta & Hfa).
  pose proof (embed_paced_nonempty txt sa vec s1 Hresta Hvec) as Hne.
  destruct (_norm_text txt default_max_chars) as [|c t] eqn:Hn; [contradiction|].
  assert (Hinit1 : cache_initialized (eng s1) = true).
  { apply (ef_init _ _ Hfa). rewrite (paced_init _ _ Hpa). apply ensured_initialized. }
  assert (Hwf1 : wf s1) by (apply (ef_wf _ _ Hfa), (paced_wf _ _ Hpa)).
  assert (Hens1 : ensured s1 = s1) by (unfold ensured; rewrite Hinit1; reflexivity).
  destruct (generate_embedding_steps fuel txt' s1 Hrate Hfuel Hwf1 (or_introl Hinit1))
    as (s1' & r & s2 & Hawait & Hpaced & Hrest & _ & Hrun).
  rewrite Hens1 in Hawait, Hpaced.
  destruct Hpaced as [Pdb Pcb Pstats _ Pposts Preq _ Ptrace _ _ _].
  rewrite (embed_paced_hit txt' c t s1' row Hnorm) in Hrest;
    [| rewrite Preq; exact Hok | rewrite Pdb; exact Hrow].
  injection Hrest as <- <-. rewrite Hrowvec in Hrun.
  exists s1'. eexists. split; [exact Hawait|]. split; [exact Hrun|].
  split; [simpl; exact Pposts|].
  split; [simpl; rewrite <- app_assoc; reflexivity|].
  split; [exact Ptrace|].
  split.
  { unfold logged. cbn [eng with_io]. rewrite stat_counted. cbn [eng requested with_io].
    unfold stat. rewrite Pstats. reflexivity. }
  split; [simpl; exact Pcb|].
  split.
  { unfold logged, counted. cbn [eng with_io with_eng].
    rewrite stat_set_other by discriminate. cbn [eng requested with_io].
    unfold stat. rewrite Pstats. reflexivity. }
  simpl. exact Pdb.
Qed.

(** ** Permanent failures *)

Lemma py_range_last n : 1 <= n -> In (n - 1) (py_range n).
Proof.
  intros Hn. unfold py_range. apply in_map_iff. exists (Z.to_nat (n - 1)).
  split; [lia|]. apply in_seq. lia.
Qed.

Lemma dlq_cache_written k vec s : embed_dlq (db (cache_written k vec s)) = embed_dlq (db s).
Proof. unfold cache_written. destruct (storage_fault E (requests (io s))); reflexivity. Qed.

(** A retry loop that returns [None] after reaching the last attempt has
    upserted the text into the dead letter queue, and done nothing else
    to it. *)
Lemma retry_loop_none txt k todo : storage_ok -> forall s s',
  retry_loop todo txt k s = (Ok None, s') ->
  Exists (fun a => attempts cfg - 1 <= a) todo ->
  exists e now, embed_dlq (db s') = dlq_upsert k txt e now (embed_dlq (db s)).
Proof.
  intros Hok. induction todo as [|attempt rest IH]; intros s s' Hrun Hex.
  { inversion Hex. }
  rewrite retry_loop_step in Hrun.
  destruct (attempt_result (posts (io s)) txt) as [e|vec]; [|discriminate].
  destruct (Z.ltb_spec attempt (attempts cfg - 1)) as [Hlt|Hge].
  - apply IH in Hrun; [exact Hrun|].
    inversion Hex as [? ? Hhd|? ? Htl]; subst; [lia | exact Htl].
  - injection Hrun as <-. exists e, (second_of (clock (io (failed_attempt txt s)))).
    unfold gave_up, dlq_written. rewrite Hok. reflexivity.
Qed.

Lemma embed_paced_none txt s s' :
  storage_ok -> 1 <= attempts cfg ->
  embed_paced txt s = (Ok None, s') ->
  exists e now,
    _norm_text txt default_max_chars <> [] /\
    embed_dlq (db s')
    = dlq_upsert (_hash_key (_norm_text txt default_max_chars))
        (_norm_text txt default_max_chars) e now (embed_dlq (db s)).
Proof.
  intros Hok Hatt. unfold embed_paced.
  destruct (_norm_text txt default_max_chars) as [|c t]; [discriminate|].
  cbv zeta. unfold bind at 1. rewrite cache_check_run, Hok.
  destruct (cache_select _ _); [discriminate|].
  unfold bind. rewrite cool_run. intros Hrun.
  apply (retry_loop_none _ _ _ Hok) in Hrun.
  - destruct Hrun as (e & now & Hdlq). exists e, now. split; [discriminate|].
    rewrite Hdlq. destruct (cb_threshold cfg <=? cb_failures _); reflexivity.
  - apply Exists_exists. exists (attempts cfg - 1).
    split; [apply list_elem_of_In, py_range_last, Hatt | lia].
Qed.

(** A permanent failure of [generate_embedding], storage working and at
    least one attempt configured, is one upsert of the normalised text
    under its content hash. *)
Lemma generate_embedding_none fuel txt s s' :
  storage_ok -> 1 <= attempts cfg ->
  generate_embedding fuel txt s = (Ok None, s') ->
  exists e now,
    _norm_text txt default_max_chars <> [] /\
    embed_dlq (db s')
    = dlq_upsert (_hash_key (_norm_text txt default_max_chars))
        (_norm_text txt default_max_chars) e now (embed_dlq (db s)).
Proof.
  intros Hok Hatt Hrun.
  destruct (generate_embedding_inv fuel txt s None s' Hrun)
    as (s1 & _ & _ & Hpaced & Hrest & _).
  destruct (embed_paced_none txt s1 s' Hok Hatt Hrest) as (e & now & Hne & Hdlq).
  exists e, now. split; [exact Hne|]. rewrite Hdlq, (paced_db _ _ Hpaced).
  destruct (ensure_ready s (or_intror (Hok _))) as (_ & _ & _ & _ & _ & Hdb & _).
  rewrite Hdb. reflexivity.
Qed.

Lemma dlq_upsert_entries k txt err now rows :
  NoDup (map d_key rows) ->
  dlq_entries k (dlq_upsert k txt err now rows) =
  [match dlq_find k rows with
   | None => {| d_key := k; d_text := txt; d_last_error := err;
                d_attempts := 1; d_last_attempt_at := now |}
   | Some r => dlq_bump err now r
   end].
Proof.
  intros Hnd. apply dlq_entries_unique; [apply dlq_upsert_keys_nodup, Hnd|].
  destruct (dlq_find k rows) as [r|] eqn:Hfind.
  - apply dlq_upsert_find_present, Hfind.
  - apply dlq_upsert_find_absent, Hfind.
Qed.

Lemma dlq_find_key k rows r : dlq_find k rows = Some r -> d_key r = k.
Proof.
  unfold dlq_find. intros H. apply find_some in H as [_ H].
  apply dlq_has_key_true, H.
Qed.

(** C4. The upsert of the dead letter store. For a key without an entry
    it inserts one with [attempts = 1]; for a key with an entry it adds 1
    to [attempts] and overwrites [last_error] and [last_attempt_at],
    keeping key and text. Keys stay unique, entries of other keys are
    untouched, so a key has exactly one entry afterwards; two upserts in
    a row for a fresh key leave one entry with [attempts = 2], and so do
    two consecutive permanent failures of [generate_embedding] for the
    same text (storage working, at least one attempt configured). *)
Theorem dlq_upsert_semantics :
  (forall k txt err now rows,
     NoDup (map d_key rows) ->
     let rows' := dlq_upsert k txt err now rows in
     NoDup (map d_key rows') /\
     (forall k', k' <> k -> dlq_entries k' rows' = dlq_entries k' rows) /\
     match dlq_find k rows with
     | None =>
         dlq_entries k rows'
         = [{| d_key := k; d_text := txt; d_last_error := err;
               d_attempts := 1; d_last_attempt_at := now |}]
     | Some r =>
         dlq_entries k rows'
         = [{| d_key := k; d_text := d_text r; d_last_error := err;
               d_attempts := d_attempts r + 1; d_last_attempt_at := now |}]
     end /\
     (dlq_find k rows = None ->
      forall txt2 err2 now2,
        dlq_entries k (dlq_upsert k txt2 err2 now2 rows')
        = [{| d_key := k; d_text := txt; d_last_error := err2;
              d_attempts := 2; d_last_attempt_at := now2 |}])) /\
  (forall fuel txt s s1 s2,
     storage_ok -> 1 <= attempts cfg ->
     NoDup (map d_key (embed_dlq (db s))) ->
     let k := _hash_key (_norm_text txt default_max_chars) in
     dlq_find k (embed_dlq (db s)) = None ->
     generate_embedding fuel txt s = (Ok None, s1) ->
     generate_embedding fuel txt s1 = (Ok None, s2) ->
     exists e now,
       dlq_entries k (embed_dlq (db s2))
       = [{| d_key := k; d_text := _norm_text txt default_max_chars;
             d_last_error := e; d_attempts := 2; d_last_attempt_at := now |}]).
Proof.
  split.
  - intros k txt err now rows Hnd rows'.
    split; [apply dlq_upsert_keys_nodup, Hnd|].
    split; [intros k' Hk'; apply dlq_upsert_others, Hk'|].
    split.
    + unfold rows'. rewrite dlq_upsert_entries by exact Hnd.
      destruct (dlq_find k rows) as [r|] eqn:Hfind; [|reflexivity].
      unfold dlq_bump. rewrite (dlq_find_key k rows r Hfind). reflexivity.
    + intros Habs txt2 err2 now2.
      rewrite dlq_upsert_entries by (apply dlq_upsert_keys_nodup, Hnd).
      unfold rows'. rewrite (dlq_upsert_find_absent k txt err now rows Habs).
      reflexivity.
  - intros fuel txt s s1 s2 Hok Hatt Hnd k Habs Hrun1 Hrun2.
    destruct (generate_embedding_none fuel txt s s1 Hok Hatt Hrun1)
      as (e1 & now1 & _ & Hdlq1).
    destruct (generate_embedding_none fuel txt s1 s2 Hok Hatt Hrun2)
      as (e2 & now2 & _ & Hdlq2).
    exists e2, now2. rewrite Hdlq2, Hdlq1. fold k.
    rewrite dlq_upsert_entries by (apply dlq_upsert_keys_nodup, Hnd).
    rewrite (dlq_upsert_find_absent k _ e1 now1 _ Habs). reflexivity.
Qed.

(** ** A batch *)

Lemma embed_rows_each fuel rows : forall acc s,
  embed_rows fuel rows acc s =
  match embed_each fuel rows s with
  | (Ok results, s') => (Ok (collect rows results acc), s')
  | (Raised e, s') => (Raised e, s')
  | (Diverged, s') => (Diverged, s')
  end.
Proof.
  induction rows as [|row rest IH]; intros acc s; [reflexivity|].
  cbn [embed_rows embed_each]. cbv zeta. unfold bind.
  destruct (generate_embedding fuel (text_of row) s) as [[[v|]| |] s1];
    try reflexivity; rewrite IH;
    destruct (embed_each fuel rest s1) as [[results| |] s2]; reflexivity.
Qed.

Lemma collect_rowids rows : forall results acc,
  rowids_success (collect rows results acc)
  = rowids_success acc ++ map rowid (succeeded_rows rows results).
Proof.
  induction rows as [|row rest IH]; intros results acc; simpl.
  - destruct results; rewrite app_nil_r; reflexivity.
  - destruct results as [|[v|] results]; simpl.
    + rewrite app_nil_r. reflexivity.
    + rewrite IH. simpl. rewrite <- app_assoc. reflexivity.
    + rewrite IH. reflexivity.
Qed.

(** *** The sinks and the update of the queue *)

Lemma write_to_mvm_run vs s : _write_to_mvm vs s = (Ok tt, mvm_written vs s).
Proof.
  unfold _write_to_mvm, mvm_written, try_catch, bind, gets. rewrite store_request_run.
  destruct (storage_fault E (requests (io s))); destruct s as [en d w]; reflexivity.
Qed.

Lemma no_components_points now vs :
  existsb empty_vector (map (point_of now) vs) = existsb no_components vs.
Proof. induction vs as [|v vs IH]; [reflexivity|]. simpl. rewrite IH. reflexivity. Qed.

Lemma write_to_qdrant_run vs s : _write_to_qdrant vs s = (Ok tt, qdrant_written vs s).
Proof.
  unfold _write_to_qdrant, qdrant_written, qdrant_refuses, try_catch, gets.
  unfold bind at 1 2. unfold qdrant_client_upsert. rewrite no_components_points.
  destruct (existsb no_components vs); [reflexivity|].
  rewrite store_request_run.
  destruct (storage_fault E (requests (io s))); destruct s as [en d w]; reflexivity.
Qed.

Lemma finish_batch_run acc s :
  finish_batch acc s =
  match rowids_success acc with
  | [] => (Ok 0, partial_logged acc (sunk acc s))
  | ids =>
      match storage_fault E (requests (io (sunk acc s))) with
      | Some e => (Raised e, requested (SqlQueueUpdate ids) false (sunk acc s))
      | None =>
          (Ok (Z.of_nat (length ids)),
           partial_logged acc
             (logged INFO "batch_complete"
                (with_db (set_chat_data (queue_update ids (chat_data (db (sunk acc s)))))
                   (requested (SqlQueueUpdate ids) true (sunk acc s)))))
      end
  end.
Proof.
  assert (Hsink :
    (match acc_vectors acc with
     | [] => ret tt
     | _ =>
         (if to_mvm (target cfg) then _write_to_mvm (acc_vectors acc) else ret tt) ;;
         (if to_qdrant (target cfg) then _write_to_qdrant (acc_vectors acc) else ret tt)
     end) s = (Ok tt, sunk acc s)).
  { unfold sunk. destruct (acc_vectors acc) as [|v vs]; [reflexivity|].
    unfold bind, ret. destruct (to_mvm (target cfg)), (to_qdrant (target cfg));
      rewrite ?write_to_mvm_run; cbv beta iota;
      rewrite ?write_to_qdrant_run; reflexivity. }
  unfold finish_batch. unfold bind at 1. rewrite Hsink.
  unfold partial_logged. destruct (rowids_success acc) as [|i ids].
  - unfold bind. destruct (failed acc); reflexivity.
  - unfold bind at 1 2. rewrite store_request_run.
    destruct (storage_fault E (requests (io (sunk acc s)))); [reflexivity|].
    unfold bind. destruct (failed acc); destruct (sunk acc s) as [en d w]; reflexivity.
Qed.

Lemma chat_mvm_written vs s : chat_data (db (mvm_written vs s)) = chat_data (db s).
Proof. unfold mvm_written. destruct (storage_fault E (requests (io s))); reflexivity. Qed.

Lemma chat_qdrant_written vs s : chat_data (db (qdrant_written vs s)) = chat_data (db s).
Proof. unfold qdrant_written. destruct (qdrant_refuses vs s); reflexivity. Qed.

Lemma chat_sunk acc s : chat_data (db (sunk acc s)) = chat_data (db s).
Proof.
  unfold sunk. destruct (acc_vectors acc); [reflexivity|].
  destruct (to_mvm (target cfg)), (to_qdrant (target cfg));
    rewrite ?chat_qdrant_written, ?chat_mvm_written; reflexivity.
Qed.

Lemma chat_partial_logged acc s : chat_data (db (partial_logged acc s)) = chat_data (db s).
Proof. unfold partial_logged. destruct (failed acc); reflexivity. Qed.

(** *** The queue table *)

Lemma processed_of_update id ids table :
  processed_of id (queue_update ids table)
  = (fun p => if existsb (Z.eqb id) ids then 1 else p) <$> processed_of id table.
Proof.
  unfold processed_of, queue_update. induction table as [|r table IH]; [reflexivity|].
  simpl. assert (Hid : rowid (if existsb (Z.eqb (rowid r)) ids then mark r else r) = rowid r).
  { destruct (existsb (Z.eqb (rowid r)) ids); reflexivity. }
  rewrite Hid. destruct (Z.eqb_spec (rowid r) id) as [->|Hne]; [|exact IH].
  simpl. destruct (existsb (Z.eqb id) ids); reflexivity.
Qed.

Lemma queue_update_nil table : queue_update [] table = table.
Proof. unfold queue_update. simpl. apply map_id. Qed.

Lemma processed_of_unique table row :
  NoDup (map rowid table) -> In row table ->
  processed_of (rowid row) table = Some (processed row).
Proof.
  unfold processed_of. induction table as [|r table IH]; simpl; [contradiction|].
  intros Hnd Hin. apply NoDup_cons in Hnd as [Hnotin Hnd].
  destruct (Z.eqb_spec (rowid r) (rowid row)) as [Heq|Hne].
  - destruct Hin as [->|Hin]; [reflexivity|]. exfalso. apply Hnotin.
    rewrite Heq. apply list_elem_of_In, in_map, Hin.
  - destruct Hin as [->|Hin]; [contradiction|]. apply IH; assumption.
Qed.

Lemma in_firstn {A} n : forall (l : list A) x, In x (firstn n l) -> In x l.
Proof.
  induction n as [|n IH]; intros [|a l] x; simpl; try tauto.
  intros [->|H]; [left; reflexivity | right; apply IH, H].
Qed.

Lemma nodup_rowid_filter p (table : list work_item) :
  NoDup (map rowid table) -> NoDup (map rowid (List.filter p table)).
Proof.
  induction table as [|r table IH]; simpl; [auto|].
  intros Hnd. apply NoDup_cons in Hnd as [Hnotin Hnd].
  destruct (p r); [|apply IH, Hnd]. simpl. apply NoDup_cons. split; [|apply IH, Hnd].
  intros Hin. apply Hnotin. apply list_elem_of_In in Hin. apply list_elem_of_In.
  apply in_map_iff in Hin as (r' & Hr' & Hin). apply filter_In in Hin as [Hin _].
  apply in_map_iff. exists r'. auto.
Qed.

Lemma nodup_rowid_firstn n : forall table : list work_item,
  NoDup (map rowid table) -> NoDup (map rowid (firstn n table)).
Proof.
  induction n as [|n IH]; intros [|r table]; simpl; auto using NoDup_nil_2.
  intros Hnd. apply NoDup_cons in Hnd as [Hnotin Hnd].
  apply NoDup_cons. split; [|apply IH, Hnd].
  intros Hin. apply Hnotin. apply list_elem_of_In in Hin. apply list_elem_of_In.
  apply in_map_iff in Hin as (r' & Hr' & Hin). apply in_firstn in Hin.
  apply in_map_iff. exists r'. auto.
Qed.

Lemma nodup_rowid_select n table :
  NoDup (map rowid table) -> NoDup (map rowid (queue_select n table)).
Proof.
  intros Hnd. unfold queue_select, sql_limit.
  destruct (n <? 0); [|apply nodup_rowid_firstn]; apply nodup_rowid_filter, Hnd.
Qed.

Lemma queue_select_in n table row :
  In row (queue_select n table) -> In row table /\ processed row = 0.
Proof.
  unfold queue_select, sql_limit. intros Hin.
  assert (H : In row (List.filter unprocessed table)).
  { destruct (n <? 0); [exact Hin | apply in_firstn in Hin; exact Hin]. }
  apply filter_In in H as [H Hun]. split; [exact H|].
  unfold unprocessed in Hun. lia.
Qed.

Lemma succeeded_rows_in rows : forall results r,
  In r (succeeded_rows rows results) -> In r rows.
Proof.
  induction rows as [|row rest IH]; intros [|[v|] results] r; simpl; try tauto.
  - intros [->|H]; [left; reflexivity | right; eapply IH, H].
  - intros H. right. eapply IH, H.
Qed.

(** With unique identifiers, the identifier of a batch row is among the
    successes exactly when its own call returned something. *)
Lemma success_ids rows : forall results i row res,
  NoDup (map rowid rows) ->
  rows !! i = Some row -> results !! i = Some res ->
  existsb (Z.eqb (rowid row)) (map rowid (succeeded_rows rows results))
  = match res with Some _ => true | None => false end.
Proof.
  induction rows as [|r0 rest IH]; intros results i row res Hnd Hrow Hres;
    [discriminate|].
  destruct results as [|res0 results]; [discriminate|].
  simpl in Hnd. apply NoDup_cons in Hnd as [Hnotin Hnd].
  assert (Hrest : forall r, In r rest -> (rowid r0 =? rowid r) = false).
  { intros r Hr. apply Z.eqb_neq. intros Heq. apply Hnotin. rewrite Heq.
    apply list_elem_of_In, in_map, Hr. }
  assert (Hfresh : forall results',
            existsb (Z.eqb (rowid r0)) (map rowid (succeeded_rows rest results')) = false).
  { intros results'. destruct (existsb _ _) eqn:Hex; [|reflexivity].
    apply existsb_exists in Hex as (id & Hin & Hid).
    apply in_map_iff in Hin as (r & <- & Hin). apply succeeded_rows_in in Hin.
    rewrite (Hrest r Hin) in Hid. discriminate. }
  destruct i as [|i]; simpl in Hrow, Hres.
  - injection Hrow as <-. injection Hres as <-. destruct res0 as [v|]; simpl.
    + rewrite Z.eqb_refl. reflexivity.
    + apply Hfresh.
  - assert (Hin : In row rest).
    { apply list_elem_of_In. eapply list_elem_of_lookup_2, Hrow. }
    specialize (IH results i row res Hnd Hrow Hres).
    destruct res0 as [v|]; simpl; [|exact IH].
    rewrite Z.eqb_sym, (Hrest row Hin). exact IH.
Qed.

Lemma outside_ids rows results id :
  ~ In id (map rowid rows) ->
  existsb (Z.eqb id) (map rowid (succeeded_rows rows results)) = false.
Proof.
  intros Hout. destruct (existsb _ _) eqn:Hex; [|reflexivity].
  apply existsb_exists in Hex as (id' & Hin & Hid). apply Z.eqb_eq in Hid. subst id'.
  apply in_map_iff in Hin as (r & <- & Hin). apply succeeded_rows_in in Hin.
  exfalso. apply Hout, in_map, Hin.
Qed.

(** *** The dead letter queue along a batch *)

Lemma retry_loop_some txt k todo : forall s s' v,
  retry_loop todo txt k s = (Ok (Some v), s') ->
  embed_dlq (db s') = embed_dlq (db s).
Proof.
  induction todo as [|attempt rest IH]; intros s s' v Hrun; [discriminate|].
  rewrite retry_loop_step in Hrun.
  destruct (attempt_result (posts (io s)) txt) as [e|vec].
  - destruct (attempt <? attempts cfg - 1); [|discriminate].
    apply IH in Hrun. exact Hrun.
  - injection Hrun as _ <-. unfold succeeded. simpl. rewrite dlq_cache_written. reflexivity.
Qed.

Lemma generate_embedding_some fuel txt s s' v :
  generate_embedding fuel txt s = (Ok (Some v), s') ->
  embed_dlq (db s') = embed_dlq (db s).
Proof.
  intros Hrun.
  destruct (generate_embedding_inv fuel txt s (Some v) s' Hrun)
    as (s1 & Hens & _ & Hpaced & Hrest & _).
  assert (Hdb : embed_dlq (db s1) = embed_dlq (db s)).
  { rewrite (paced_db _ _ Hpaced). unfold ensured.
    destruct (cache_initialized (eng s)); reflexivity. }
  rewrite <- Hdb. clear Hdb Hens Hpaced Hrun. unfold embed_paced in Hrest.
  destruct (_norm_text txt default_max_chars) as [|c t].
  { injection Hrest as _ <-. reflexivity. }
  cbv zeta in Hrest. unfold bind at 1 in Hrest. rewrite cache_check_run in Hrest.
  destruct (storage_fault E (requests (io s1))).
  2: destruct (cache_select _ _); [injection Hrest as _ <-; reflexivity|].
  all: unfold bind in Hrest; rewrite cool_run in Hrest;
    apply retry_loop_some in Hrest; rewrite Hrest;
    destruct (cb_threshold cfg <=? cb_failures _); reflexivity.
Qed.

Lemma find_app_some {A} (p : A -> bool) l l' x :
  List.find p l = Some x -> List.find p (l ++ l') = Some x.
Proof.
  induction l as [|a l IH]; simpl; [discriminate|]. destruct (p a); auto.
Qed.

(** An entry of the dead letter queue survives later upserts, and its
    attempts do not go down. *)
Lemma dlq_upsert_keeps k k' txt err now rows r :
  dlq_find k rows = Some r ->
  exists r', dlq_find k (dlq_upsert k' txt err now rows) = Some r'
             /\ d_attempts r <= d_attempts r'.
Proof.
  intros Hfind. unfold dlq_upsert. destruct (existsb (dlq_has_key k') rows).
  - unfold dlq_find in *. induction rows as [|r0 rows IH]; simpl in *; [discriminate|].
    assert (Hk : dlq_has_key k (if dlq_has_key k' r0 then dlq_bump err now r0 else r0)
                 = dlq_has_key k r0) by (destruct (dlq_has_key k' r0); reflexivity).
    rewrite Hk. destruct (dlq_has_key k r0); [|apply IH, Hfind].
    injection Hfind as <-. eexists. split; [reflexivity|].
    destruct (dlq_has_key k' r0); simpl; lia.
  - exists r. split; [|lia]. unfold dlq_find in *.
    apply find_app_some, Hfind.
Qed.

Section Batch.
Hypothesis rate_positive : (0 < min_interval_ms cfg)%Q.
Hypothesis storage_works : storage_ok.
Variable fuel : nat.
Hypothesis enough_fuel : (token_fuel <= fuel)%nat.

Lemma generate_embedding_call txt s :
  wf s ->
  exists r s',
    generate_embedding fuel txt s = (Ok r, s') /\
    wf s' /\ chat_data (db s') = chat_data (db s).
Proof.
  intros Hwf.
  destruct (generate_embedding_steps fuel txt s rate_positive enough_fuel Hwf
              (or_intror (storage_works _)))
    as (s1 & r & s' & _ & Hpaced & _ & Hframe & Hrun).
  exists r, s'. split; [exact Hrun|].
  split; [apply (ef_wf _ _ Hframe), (paced_wf _ _ Hpaced)|].
  rewrite (ef_chat _ _ Hframe), (paced_db _ _ Hpaced).
  unfold ensured. destruct (cache_initialized (eng s)); reflexivity.
Qed.

(** Every call of a batch returns and the queue is not touched
    meanwhile. A row with empty text gets the empty list. With at least
    one attempt configured, entries of the dead letter queue stay, and
    each row whose call returned [None] has one when the calls are over. *)
Lemma embed_each_returns rows : forall s,
  wf s ->
  exists results s',
    embed_each fuel rows s = (Ok results, s') /\
    length results = length rows /\
    wf s' /\ chat_data (db s') = chat_data (db s) /\
    (forall i row, rows !! i = Some row ->
       _norm_text (text_of row) default_max_chars = [] ->
       results !! i = Some (Some [])) /\
    (1 <= attempts cfg ->
     (forall k r, dlq_find k (embed_dlq (db s)) = Some r ->
        exists r', dlq_find k (embed_dlq (db s')) = Some r'
                   /\ d_attempts r <= d_attempts r') /\
     (forall i row, rows !! i = Some row -> results !! i = Some None ->
        exists r, dlq_find (key_of row) (embed_dlq (db s')) = Some r)).
Proof.
  induction rows as [|row rest IH]; intros s Hwf.
  { exists [], s. split; [reflexivity|]. split; [reflexivity|].
    split; [exact Hwf|]. split; [reflexivity|]. split; [intros i row Hrow; discriminate|].
    intros _. split.
    - intros k r Hr. exists r. split; [exact Hr | lia].
    - intros i row Hrow. discriminate. }
  destruct (generate_embedding_call (text_of row) s Hwf) as (r & s1 & Hrun & Hwf1 & Hchat1).
  destruct (IH s1 Hwf1) as (results & s' & Heach & Hlen & Hwf' & Hchat' & Hempty & Hdlq).
  exists (r :: results), s'. cbn [embed_each]. unfold bind. rewrite Hrun, Heach.
  split; [reflexivity|]. split; [simpl; congruence|]. split; [exact Hwf'|].
  split; [congruence|]. split.
  { intros [|i] row' Hrow Hnorm; simpl in Hrow |- *; [|eapply Hempty; eassumption].
    injection Hrow as <-.
    destruct (generate_embedding_inv _ _ _ _ _ Hrun) as (s0 & _ & _ & _ & Hrest & _).
    rewrite (embed_paced_empty _ s0 Hnorm) in Hrest. injection Hrest as <- _.
    reflexivity. }
  intros Hatt. destruct (Hdlq Hatt) as [Hkeep Hnone].
  assert (Hstep : forall k r0, dlq_find k (embed_dlq (db s)) = Some r0 ->
            exists r', dlq_find k (embed_dlq (db s1)) = Some r'
                       /\ d_attempts r0 <= d_attempts r').
  { intros k r0 Hr0. destruct r as [v|].
    - rewrite (generate_embedding_some _ _ _ _ _ Hrun). exists r0. split; [exact Hr0 | lia].
    - destruct (generate_embedding_none _ _ _ _ storage_works Hatt Hrun)
        as (e & now & _ & ->).
      apply dlq_upsert_keeps, Hr0. }
  split.
  - intros k r0 Hr0. destruct (Hstep k r0 Hr0) as (r1 & Hr1 & Hle1).
    destruct (Hkeep k r1 Hr1) as (r2 & Hr2 & Hle2). exists r2. split; [exact Hr2 | lia].
  - intros [|i] row' Hrow Hres; simpl in Hrow, Hres; [|eapply Hnone; eassumption].
    injection Hrow as <-. injection Hres as ->.
    destruct (generate_embedding_none _ _ _ _ storage_works Hatt Hrun)
      as (e & now & _ & Hup).
    assert (Hnew : exists r1, dlq_find (key_of row) (embed_dlq (db s1)) = Some r1).
    { rewrite Hup. fold (key_of row).
      destruct (dlq_find (key_of row) (embed_dlq (db s))) as [r0|] eqn:Hold.
      - eexists. apply dlq_upsert_find_present, Hold.
      - eexists. apply dlq_upsert_find_absent, Hold. }
    destruct Hnew as (r1 & Hr1). destruct (Hkeep _ _ Hr1) as (r2 & Hr2 & _).
    exists r2. exact Hr2.
Qed.

Lemma chat_finished acc s :
  chat_data (db (finished acc s)) = queue_update (rowids_success acc) (chat_data (db s)).
Proof.
  unfold finished. rewrite chat_partial_logged.
  destruct (rowids_success acc) as [|i ids].
  - rewrite chat_sunk, queue_update_nil. reflexivity.
  - simpl. rewrite chat_sunk. reflexivity.
Qed.

Lemma dlq_sunk acc s : embed_dlq (db (sunk acc s)) = embed_dlq (db s).
Proof.
  assert (Hm : forall vs s0, embed_dlq (db (mvm_written vs s0)) = embed_dlq (db s0)).
  { intros vs s0. unfold mvm_written.
    destruct (storage_fault E (requests (io s0))); reflexivity. }
  assert (Hq : forall vs s0, embed_dlq (db (qdrant_written vs s0)) = embed_dlq (db s0)).
  { intros vs s0. unfold qdrant_written. destruct (qdrant_refuses vs s0); reflexivity. }
  unfold sunk. destruct (acc_vectors acc); [reflexivity|].
  destruct (to_mvm (target cfg)), (to_qdrant (target cfg));
    rewrite ?Hq, ?Hm; reflexivity.
Qed.

Lemma dlq_finished acc s : embed_dlq (db (finished acc s)) = embed_dlq (db s).
Proof.
  unfold finished, partial_logged.
  destruct (failed acc), (rowids_success acc); simpl; apply dlq_sunk.
Qed.

Lemma vectorize_batch_run batch_size s :
  wf s ->
  let rows := queue_select batch_size (chat_data (db s)) in
  exists results s1,
    embed_each fuel rows (batch_started rows s) = (Ok results, s1) /\
    length results = length rows /\
    chat_data (db s1) = chat_data (db s) /\
    (forall i row, rows !! i = Some row ->
       _norm_text (text_of row) default_max_chars = [] ->
       results !! i = Some (Some [])) /\
    (1 <= attempts cfg ->
     forall i row, rows !! i = Some row -> results !! i = Some None ->
       exists r, dlq_find (key_of row) (embed_dlq (db s1)) = Some r) /\
    vectorize_batch fuel batch_size s
    = (Ok (Z.of_nat (length (succeeded_rows rows results))),
       finished (collect rows results empty_acc) s1).
Proof.
  intros Hwf rows.
  assert (Hwf0 : wf (batch_started rows s)) by (destruct rows; exact Hwf).
  destruct (embed_each_returns rows (batch_started rows s) Hwf0)
    as (results & s1 & Heach & Hlen & _ & Hchat & Hempty & Hdlq).
  exists results, s1. split; [exact Heach|]. split; [exact Hlen|].
  split; [rewrite Hchat; destruct rows; reflexivity|]. split; [exact Hempty|].
  split; [intros Hatt; apply (Hdlq Hatt)|].
  unfold vectorize_batch, try_catch. unfold bind at 1.
  rewrite store_request_run, storage_works. cbn [fst snd]. fold rows.
  assert (Hs0 : with_db (fun _ => db s) (requested SqlQueueSelect true s)
                = requested SqlQueueSelect true s) by (destruct s; reflexivity).
  rewrite Hs0. destruct rows as [|row rest] eqn:Hrows.
  - simpl in Heach. injection Heach as <- <-. reflexivity.
  - unfold bind at 1. unfold log_event at 1, modify at 1.
    fold (logged INFO "batch_start" (requested SqlQueueSelect true s)).
    unfold bind at 1. rewrite embed_rows_each.
    change (logged INFO "batch_start" (requested SqlQueueSelect true s))
      with (batch_started (row :: rest) s).
    rewrite Heach, finish_batch_run. unfold finished.
    pose proof (collect_rowids (row :: rest) results empty_acc) as Hids.
    change (rowids_success empty_acc) with (@nil Z) in Hids.
    rewrite app_nil_l in Hids. rewrite Hids.
    remember (succeeded_rows (row :: rest) results) as ok eqn:Hok. clear Hok Hids.
    destruct ok as [|r0 ok]; [reflexivity|].
    cbn [map]. rewrite storage_works. simpl length. rewrite length_map. reflexivity.
Qed.

Lemma collect_keeps rows : forall results acc x,
  In x (acc_vectors acc) -> In x (acc_vectors (collect rows results acc)).
Proof.
  induction rows as [|row rest IH]; intros [|[v|] results] acc x Hx; simpl; auto.
  apply IH. simpl. apply in_or_app. left. exact Hx.
Qed.

Lemma collect_vectors_in rows : forall results acc i row v,
  rows !! i = Some row -> results !! i = Some (Some v) ->
  In (item_of row (text_of row) v) (acc_vectors (collect rows results acc)).
Proof.
  induction rows as [|r0 rest IH]; intros results acc i row v Hrow Hres; [discriminate|].
  destruct results as [|res0 results]; [discriminate|].
  destruct i as [|i]; simpl in Hrow, Hres.
  - injection Hrow as <-. injection Hres as ->. simpl.
    apply collect_keeps. simpl. apply in_or_app. right. left. reflexivity.
  - destruct res0; simpl; eapply IH; eassumption.
Qed.

End Batch.

(** ** The frame of the work queue *)

Lemma same_refl r : same_but_processed r r.
Proof. unfold same_but_processed. tauto. Qed.

Lemma same_trans r1 r2 r3 :
  same_but_processed r1 r2 -> same_but_processed r2 r3 -> same_but_processed r1 r3.
Proof.
  unfold same_but_processed.
  intros (? & ? & ? & ? & ? & ? & H12) (? & ? & ? & ? & ? & ? & H23).
  repeat split; try congruence.
  destruct H23 as [H23|H23]; [|right; exact H23].
  destruct H12 as [H12|H12]; [left|right]; congruence.
Qed.

Lemma qf_refl s : queue_frame s s.
Proof. unfold queue_frame. induction (chat_data (db s)); constructor; auto using same_refl. Qed.

Lemma qf_trans s1 s2 s3 : queue_frame s1 s2 -> queue_frame s2 s3 -> queue_frame s1 s3.
Proof.
  unfold queue_frame. generalize (chat_data (db s1)) (chat_data (db s2)) (chat_data (db s3)).
  intros l1 l2 l3 H12. revert l3.
  induction H12 as [|r1 r2 l1 l2 Hr H12 IH]; intros l3 H23; inversion H23; subst;
    constructor; eauto using same_trans.
Qed.

Lemma qf_same_queue s s' : chat_data (db s') = chat_data (db s) -> queue_frame s s'.
Proof. unfold queue_frame. intros ->. apply (qf_refl s). Qed.

Lemma queue_update_frame ids table :
  Forall2 same_but_processed table (queue_update ids table).
Proof.
  unfold queue_update. induction table as [|r table IH]; simpl; constructor; [|exact IH].
  destruct (existsb (Z.eqb (rowid r)) ids); [|apply same_refl].
  unfold same_but_processed. simpl. tauto.
Qed.

(** *** Preorders that every method respects *)

Section Keeps.
(** [R] is a preorder on states that holds at least between states with
    the same queue. *)
Variable R : state -> state -> Prop.
Hypothesis R_refl : forall s, R s s.
Hypothesis R_trans : forall s1 s2 s3, R s1 s2 -> R s2 s3 -> R s1 s3.
Hypothesis R_same : forall s s', chat_data (db s') = chat_data (db s) -> R s s'.

Lemma keeps_ret {A} (a : A) : steady R (ret a).
Proof. apply steady_ret, R_refl. Qed.

Lemma keeps_raise {A} e : steady R (@raise A e).
Proof. apply steady_raise, R_refl. Qed.

Lemma keeps_diverge {A} : steady R (@diverge A).
Proof. apply steady_diverge, R_refl. Qed.

Lemma keeps_gets {A} (f : state -> A) : steady R (gets f).
Proof. apply steady_gets, R_refl. Qed.

Lemma keeps_bind {A B} (m : M A) (k : A -> M B) :
  steady R m -> (forall a, steady R (k a)) -> steady R (bind m k).
Proof. apply steady_bind, R_trans. Qed.

Lemma keeps_try {A} (m : M A) (h : string -> M A) :
  steady R m -> (forall e, steady R (h e)) -> steady R (try_catch m h).
Proof. apply steady_try, R_trans. Qed.

Lemma keeps_modify_eng f : steady R (modify (with_eng f)).
Proof. intros s. apply R_same. reflexivity. Qed.

Lemma keeps_modify_io f : steady R (modify (with_io f)).
Proof. intros s. apply R_same. reflexivity. Qed.

Lemma keeps_time : steady R time_time.
Proof. intros s. apply R_same. reflexivity. Qed.

Lemma keeps_uniform x y : steady R (random_uniform x y).
Proof. intros s. apply R_same. reflexivity. Qed.

Lemma keeps_post txt : steady R (http_post txt).
Proof.
  intros s. apply R_same. unfold http_post.
  destruct (inference E (posts (io s)) txt); reflexivity.
Qed.

Lemma keeps_store_same {A} q (run : stores -> A * stores) :
  (forall d, chat_data (snd (run d)) = chat_data d) ->
  steady R (store_request q run).
Proof.
  intros Hrun s. apply R_same. rewrite store_request_run.
  destruct (storage_fault E (requests (io s))); simpl; [reflexivity | apply Hrun].
Qed.

Ltac keeps_step :=
  first
    [ assumption
    | match goal with H : context [steady] |- _ => solve [apply H] end
    | apply keeps_ret | apply keeps_raise | apply keeps_diverge | apply keeps_gets
    | apply keeps_modify_eng | apply keeps_modify_io
    | apply keeps_time | apply keeps_uniform | apply keeps_post
    | apply keeps_store_same; intros; reflexivity
    | apply keeps_try; intros
    | apply keeps_bind; intros
    | match goal with
      | |- steady _ (if ?b then _ else _) => destruct b
      | |- steady _ (match ?x with _ => _ end) => destruct x
      end ].

Ltac keeps_tac := repeat keeps_step.

Lemma keeps_await_token fuel : steady R (await_token fuel).
Proof.
  induction fuel as [|fuel IH]; cbn [await_token]; [apply keeps_diverge|].
  apply keeps_bind; [unfold _take_token, sleep; keeps_tac|].
  intros [|]; keeps_tac.
Qed.

Lemma keeps_retry_loop txt k todo : steady R (retry_loop todo txt k).
Proof.
  induction todo as [|attempt rest IH]; cbn [retry_loop]; [apply keeps_ret|].
  unfold attempt_once, cache_write, dlq_write, stat_add, log_event, sleep.
  keeps_tac.
Qed.

Lemma keeps_generate_embedding fuel txt : steady R (generate_embedding fuel txt).
Proof.
  rewrite generate_embedding_unfold.
  apply keeps_bind; [unfold _ensure_cache_tables; keeps_tac|]. intros _.
  apply keeps_bind; [apply keeps_await_token|]. intros _.
  unfold embed_paced, cache_check, _cool_if_cb_open, stat_add, log_event, sleep.
  pose proof keeps_retry_loop. keeps_tac.
Qed.

Lemma keeps_drain_rows fuel rows : forall recovered, steady R (drain_rows fuel rows recovered).
Proof.
  induction rows as [|[k txt] rest IH]; intros recovered; cbn [drain_rows];
    [apply keeps_ret|].
  apply keeps_bind; [apply keeps_generate_embedding|].
  intros [v|]; [|apply IH]. unfold log_event. keeps_tac.
Qed.

Lemma keeps_drain_dlq fuel max_items : steady R (drain_dlq fuel max_items).
Proof.
  unfold drain_dlq, log_event. pose proof (keeps_drain_rows fuel). keeps_tac.
Qed.

Lemma keeps_get_queue_size : steady R get_queue_size.
Proof. unfold get_queue_size, log_event. keeps_tac. Qed.

Lemma keeps_embed_rows fuel rows : forall acc, steady R (embed_rows fuel rows acc).
Proof.
  induction rows as [|row rest IH]; intros acc; cbn [embed_rows]; [apply keeps_ret|].
  cbv zeta. apply keeps_bind; [apply keeps_generate_embedding|].
  intros [v|]; apply IH.
Qed.

(** From here on [R] also admits the update of the queue. *)
Hypothesis R_update : forall ids,
  steady R (store_request (SqlQueueUpdate ids)
           (fun d => (tt, set_chat_data (queue_update ids (chat_data d)) d))).






End Keeps.

Lemma same_queue_refl s : same_queue s s.
Proof. reflexivity. Qed.

Lemma same_queue_trans s1 s2 s3 : same_queue s1 s2 -> same_queue s2 s3 -> same_queue s1 s3.
Proof. unfold same_queue. congruence. Qed.

Lemma queue_frame_update ids :
  steady queue_frame
    (store_request (SqlQueueUpdate ids)
       (fun d => (tt, set_chat_data (queue_update ids (chat_data d)) d))).
Proof.
  intros s. unfold queue_frame. rewrite store_request_run.
  destruct (storage_fault E (requests (io s))); simpl;
    [apply (qf_refl s) | apply queue_update_frame].
Qed.

Ltac frame_side :=
  solve [ apply same_queue_refl | apply same_queue_trans
        | intros ? ? HH; exact HH
        | apply qf_refl | apply qf_trans | apply qf_same_queue
        | apply queue_frame_update ].




(** ** Storage errors inside an embedding request *)

Lemma await_token_no_raise fuel : forall s e, fst (await_token fuel s) <> Raised e.
Proof.
  induction fuel as [|fuel IH]; intros s e; [discriminate|].
  cbn [await_token]. unfold bind at 1. rewrite take_token_run. cbv zeta.
  destruct (Qle_bool 1 (refill s)); [discriminate | apply IH].
Qed.

(** C7. Errors of the cache storage inside [generate_embedding]. A read
    that fails is logged and the request goes on as after a miss; a write
    that fails is logged and the vector is returned all the same; once the
    tables are known to exist no exception leaves the request. But the
    table check at the head of the request is not guarded: while the
    tables are not yet known to exist, a storage error there leaves
    [generate_embedding] as an exception, before anything else is done. *)
Theorem cache_storage_errors :
  (forall k s e,
     storage_fault E (requests (io s)) = Some e ->
     cache_check k s
     = (Ok None, logged WARN "cache_read_failed" (requested (SqlCacheSelect k) false s))) /\
  (forall k vec s e,
     storage_fault E (requests (io s)) = Some e ->
     cache_write k vec s
     = (Ok tt, logged WARN "cache_write_failed" (requested (SqlCacheInsert k) false s))) /\
  (forall attempt rest txt k s vec,
     attempt_result (posts (io s)) txt = inr vec ->
     fst (retry_loop (attempt :: rest) txt k s) = Ok (Some vec)) /\
  (forall fuel txt s e,
     cache_initialized (eng s) = true ->
     fst (generate_embedding fuel txt s) <> Raised e) /\
  (forall fuel txt s e,
     cache_initialized (eng s) = false ->
     storage_fault E (requests (io s)) = Some e ->
     generate_embedding fuel txt s = (Raised e, requested SqlEnsureTables false s)).
Proof.
  split. { intros k s e H. rewrite cache_check_run, H. reflexivity. }
  split. { intros k vec s e H. rewrite cache_write_run. unfold cache_written.
           rewrite H. reflexivity. }
  split. { intros attempt rest txt k s vec H. rewrite retry_loop_step, H. reflexivity. }
  split.
  - intros fuel txt s e Hinit. rewrite generate_embedding_unfold.
    unfold bind at 1. rewrite ensure_run, Hinit. unfold bind.
    destruct (await_token fuel s) as [[[]|e'|] s1] eqn:Hawait; simpl in *;
      [| exfalso; apply (await_token_no_raise fuel s e'); rewrite Hawait; reflexivity
       | discriminate].
    pose proof (proj2 (behaves_embed_paced false txt s1)) as Hrest.
    destruct (embed_paced txt s1) as [[r|e'|] s2]; simpl in *; discriminate.
  - intros fuel txt s e Hinit Hfault. rewrite generate_embedding_unfold.
    unfold bind at 1. rewrite ensure_run, Hinit, Hfault. reflexivity.
Qed.

(** ** Normalising twice *)

(** C10, as the code has it. Normalising a normalised text removes the
    one space that the cut at [max_chars] can leave at its end, and
    nothing else. So [_norm_text] is idempotent on every text whose
    collapsed form fits the cap, normalising three times is normalising
    twice, and the key computed inside [generate_embedding] is the hash
    of the normalised text without that trailing space. *)
Theorem norm_text_twice_strips (s : pystr) :
  _norm_text (_norm_text s default_max_chars) default_max_chars
  = rstrip (_norm_text s default_max_chars) /\
  ((length (join [SP] (split (strip s))) <= Z.to_nat default_max_chars)%nat ->
   _norm_text (_norm_text s default_max_chars) default_max_chars
   = _norm_text s default_max_chars) /\
  _norm_text (_norm_text (_norm_text s default_max_chars) default_max_chars)
    default_max_chars
  = _norm_text (_norm_text s default_max_chars) default_max_chars /\
  _hash_key (_norm_text s default_max_chars)
  = sha256_hex E (rstrip (_norm_text s default_max_chars)).
Proof.
  assert (H0 : 0 <= default_max_chars) by (unfold default_max_chars; lia).
  split; [apply norm_text_twice, H0|].
  split.
  - intros Hlen. apply norm_text_fits; [exact H0 | exact Hlen].
  - split.
    + rewrite (norm_text_twice (_norm_text s default_max_chars)) by exact H0.
      rewrite (norm_text_twice s) by exact H0. apply rstrip_idem.
    + unfold _hash_key. rewrite norm_text_twice by exact H0. reflexivity.
Qed.

(** * Further properties

    Properties of the parts of the engine that the pipeline's contract
    takes for granted: the shape of normalised texts, the pacing of the
    token bucket, the tables behind the cache, the dead letter queue and
    the sinks, and the run modes. *)

(** ** Normalised texts *)





(** ** The retry loop as a whole *)

(** What a permanent failure costs. With at least one attempt
    configured, a request that returns [None] has called the endpoint
    exactly [attempts] times and every call failed; the error statistic
    and the breaker's consecutive-failure counter each went up by
    [attempts], the counter starting again from 0 if the breaker was
    open at the gate. The breaker thus counts failed attempts, not
    failed requests. *)
Theorem permanent_failure_accounting (fuel : nat) (txt : pystr) (s s' : state) :
  1 <= attempts cfg ->
  generate_embedding fuel txt s = (Ok None, s') ->
  posts (io s') = (posts (io s) + Z.to_nat (attempts cfg))%nat /\
  stat "embedding_errors" (eng s')
  = stat "embedding_errors" (eng s) + attempts cfg /\
  cb_failures (eng s')
  = (if cb_threshold cfg <=? cb_failures (eng s) then 0 else cb_failures (eng s))
    + attempts cfg /\
  (forall i, (i < Z.to_nat (attempts cfg))%nat ->
     exists e, attempt_result (posts (io s) + i)
                 (_norm_text txt default_max_chars) = inl e).
Proof.
  intros Hatt Hrun.
  destruct (generate_embedding_inv fuel txt s None s' Hrun)
    as (s1 & _ & _ & Hpaced & Hrest & _).
  assert (He : posts (io (ensured s)) = posts (io s)
               /\ cb_failures (eng (ensured s)) = cb_failures (eng s)
               /\ stats (eng (ensured s)) = stats (eng s)).
  { unfold ensured. destruct (cache_initialized (eng s)); repeat split. }
  destruct He as (Hp0 & Hcb0 & Hst0).
  pose proof (paced_posts _ _ Hpaced) as Hp1. rewrite Hp0 in Hp1.
  pose proof (paced_cb _ _ Hpaced) as Hcb1. rewrite Hcb0 in Hcb1.
  pose proof (paced_stats _ _ Hpaced) as Hst1. rewrite Hst0 in Hst1.
  clear Hpaced Hrun Hp0 Hcb0 Hst0.
  unfold embed_paced in Hrest.
  destruct (_norm_text txt default_max_chars) as [|c t]; [discriminate|].
  cbv zeta in Hrest. unfold bind at 1 in Hrest. rewrite cache_check_run in Hrest.
  assert (Hloop : forall s2,
            posts (io s2) = posts (io s1) ->
            cb_failures (eng s2) = cb_failures (eng s1) ->
            stats (eng s2) = stats (eng s1) ->
            (_cool_if_cb_open ;; retry_loop (py_range (attempts cfg)) (c :: t)
                                   (_hash_key (c :: t))) s2 = (Ok None, s') ->
            posts (io s') = (posts (io s) + Z.to_nat (attempts cfg))%nat /\
            stat "embedding_errors" (eng s')
            = stat "embedding_errors" (eng s) + attempts cfg /\
            cb_failures (eng s')
            = (if cb_threshold cfg <=? cb_failures (eng s) then 0
               else cb_failures (eng s)) + attempts cfg /\
            (forall i, (i < Z.to_nat (attempts cfg))%nat ->
               exists e, attempt_result (posts (io s) + i) (c :: t) = inl e)).
  { intros s2 Hp2 Hcb2 Hst2 Hgo. unfold bind in Hgo. rewrite cool_run in Hgo.
    unfold py_range in Hgo.
    destruct (Z.to_nat (attempts cfg)) as [|m] eqn:Hm; [lia|].
    apply (retry_loop_exhausted _ _ m 0%nat) in Hgo; [|lia].
    destruct Hgo as (Hp & Hcb & Hst & _ & Hall).
    rewrite Hcb2, Hcb1 in Hcb, Hp, Hst, Hall.
    assert (Hposts : forall s3, posts (io (if cb_threshold cfg <=? cb_failures (eng s)
                                           then cooled s2 else s3))
                                = posts (io (if cb_threshold cfg <=? cb_failures (eng s)
                                             then s2 else s3)))
      by (intros s3; destruct (cb_threshold cfg <=? cb_failures (eng s)); reflexivity).
    rewrite Hposts in Hp, Hall.
    assert (Hsame : (if cb_threshold cfg <=? cb_failures (eng s) then s2 else s2) = s2)
      by (destruct (cb_threshold cfg <=? cb_failures (eng s)); reflexivity).
    rewrite Hsame, Hp2, Hp1 in Hp, Hall.
    split; [exact Hp|]. split.
    { rewrite Hst. replace (Z.of_nat (S m)) with (attempts cfg) by lia. f_equal.
      destruct (cb_threshold cfg <=? cb_failures (eng s)).
      - unfold cooled. cbn [eng with_eng]. rewrite stat_set_other by discriminate.
        unfold stat. simpl. rewrite Hst2, Hst1. reflexivity.
      - unfold stat. rewrite Hst2, Hst1. reflexivity. }
    split; [|exact Hall].
    rewrite Hcb. replace (Z.of_nat (S m)) with (attempts cfg) by lia. f_equal.
    destruct (cb_threshold cfg <=? cb_failures (eng s)); [reflexivity|].
    rewrite Hcb2, Hcb1. reflexivity. }
  destruct (storage_fault E (requests (io s1))).
  - apply Hloop in Hrest; [exact Hrest| reflexivity..].
  - destruct (cache_select _ _); [discriminate|].
    apply Hloop in Hrest; [exact Hrest| reflexivity..].
Qed.

(** No attempts configured. With [retry_policy.attempts] at 0 or below
    the loop over the attempts is empty: a request for a text that is
    not empty and not in the cache returns [None] at once, without
    calling the endpoint and without an entry in the dead letter queue;
    no request ever calls the endpoint or writes to the queue or the
    cache. *)
Theorem no_attempts_no_request (fuel : nat) (txt : pystr) (s s' : state)
    (r : option (list float)) :
  attempts cfg <= 0 ->
  generate_embedding fuel txt s = (Ok r, s') ->
  posts (io s') = posts (io s) /\
  embed_dlq (db s') = embed_dlq (db s) /\
  embed_cache (db s') = embed_cache (db s) /\
  (_norm_text txt default_max_chars <> [] ->
   cache_select (_hash_key (_norm_text txt default_max_chars)) (embed_cache (db s)) = None ->
   r = None).
Proof.
  intros Hatt Hrun.
  destruct (generate_embedding_inv fuel txt s r s' Hrun)
    as (s1 & _ & _ & Hpaced & Hrest & _).
  assert (He : posts (io (ensured s)) = posts (io s) /\ db (ensured s) = db s).
  { unfold ensured. destruct (cache_initialized (eng s)); split; reflexivity. }
  destruct He as (Hp0 & Hdb0).
  pose proof (paced_posts _ _ Hpaced) as Hp1. rewrite Hp0 in Hp1.
  pose proof (paced_db _ _ Hpaced) as Hdb1. rewrite Hdb0 in Hdb1.
  rewrite <- Hp1, <- Hdb1. clear Hpaced Hrun Hp0 Hdb0 Hp1 Hdb1.
  unfold embed_paced in Hrest.
  destruct (_norm_text txt default_max_chars) as [|c t].
  { injection Hrest as <- <-. repeat split. intros H. contradiction. }
  cbv zeta in Hrest. unfold bind at 1 in Hrest. rewrite cache_check_run in Hrest.
  assert (Hnil : py_range (attempts cfg) = []).
  { unfold py_range. replace (Z.to_nat (attempts cfg)) with 0%nat by lia. reflexivity. }
  rewrite Hnil in Hrest.
  destruct (storage_fault E (requests (io s1))).
  - unfold bind in Hrest. rewrite cool_run in Hrest. injection Hrest as <- <-.
    destruct (cb_threshold cfg <=? cb_failures _); repeat split.
  - destruct (cache_select _ _) as [row|] eqn:Hsel.
    + injection Hrest as <- <-. repeat split. intros _ H. discriminate.
    + unfold bind in Hrest. rewrite cool_run in Hrest. injection Hrest as <- <-.
      destruct (cb_threshold cfg <=? cb_failures _); repeat split.
Qed.

(** ** The tables, statement by statement *)

(** *** The cache: [INSERT OR IGNORE] and [SELECT] *)

Lemma find_app {A} (p : A -> bool) l l' :
  List.find p (l ++ l') = match List.find p l with
                          | Some x => Some x
                          | None => List.find p l'
                          end.
Proof. induction l as [|a l IH]; simpl; [reflexivity|]. destruct (p a); auto. Qed.

Lemma find_none_existsb {A} (p : A -> bool) l :
  List.find p l = None <-> existsb p l = false.
Proof.
  induction l as [|a l IH]; simpl; [tauto|].
  destruct (p a); simpl; [split; discriminate | exact IH].
Qed.

Lemma cache_insert_lookup r rows k :
  cache_select k (cache_insert_ignore r rows)
  = match cache_select k rows with
    | Some r0 => Some r0
    | None => if String.eqb (c_key r) k then Some r else None
    end.
Proof.
  unfold cache_select, cache_insert_ignore.
  destruct (existsb (has_key (c_key r)) rows) eqn:Hex.
  - destruct (List.find (has_key k) rows) eqn:Hfind; [reflexivity|].
    destruct (String.eqb_spec (c_key r) k) as [<-|]; [|reflexivity].
    apply find_none_existsb in Hfind. congruence.
  - rewrite find_app. destruct (List.find (has_key k) rows); [reflexivity|].
    simpl. unfold has_key. destruct (String.eqb (c_key r) k); reflexivity.
Qed.

Lemma cache_insert_nodup r rows :
  NoDup (map c_key rows) -> NoDup (map c_key (cache_insert_ignore r rows)).
Proof.
  intros Hnd. unfold cache_insert_ignore.
  destruct (existsb (has_key (c_key r)) rows) eqn:Hex; [exact Hnd|].
  rewrite map_app. simpl. apply NoDup_app. split; [exact Hnd|].
  split; [|apply NoDup_singleton].
  intros k Hk Hin. apply list_elem_of_In in Hk. apply list_elem_of_In in Hin.
  destruct Hin as [<-|[]]. apply in_map_iff in Hk as (r0 & Hkey & Hr0).
  assert (existsb (has_key (c_key r)) rows = true); [|congruence].
  apply existsb_exists. exists r0. split; [exact Hr0|].
  unfold has_key. rewrite Hkey. apply String.eqb_refl.
Qed.

(** The first write wins. After [INSERT OR IGNORE] a lookup finds what
    it found before and, for a key that had no row, the row just
    inserted: a cached vector is never replaced. Keys stay unique. *)
Theorem cache_first_write_wins (r : cache_row) (rows : list cache_row) :
  (forall k, cache_select k (cache_insert_ignore r rows)
             = match cache_select k rows with
               | Some r0 => Some r0
               | None => if String.eqb (c_key r) k then Some r else None
               end) /\
  (exists r0, cache_select (c_key r) (cache_insert_ignore r rows) = Some r0
              /\ c_key r0 = c_key r) /\
  (NoDup (map c_key rows) -> NoDup (map c_key (cache_insert_ignore r rows))).
Proof.
  split; [intros k; apply cache_insert_lookup|].
  split; [|apply cache_insert_nodup].
  rewrite cache_insert_lookup, String.eqb_refl.
  destruct (cache_select (c_key r) rows) as [r0|] eqn:Hsel; eexists; split;
    try reflexivity.
  unfold cache_select in Hsel. apply find_some in Hsel as [_ H].
  apply String.eqb_eq, H.
Qed.

(** *** The dead letter queue: whom a drain picks *)

Lemma insert_by_last_attempt_in r rows x :
  In x (insert_by_last_attempt r rows) <-> x = r \/ In x rows.
Proof.
  induction rows as [|r' rows IH]; simpl; [intuition|].
  destruct (Qle_bool _ _); simpl; [intuition|]. rewrite IH. intuition.
Qed.

Lemma insert_by_last_attempt_length r rows :
  length (insert_by_last_attempt r rows) = S (length rows).
Proof.
  induction rows as [|r' rows IH]; simpl; [reflexivity|].
  destruct (Qle_bool _ _); simpl; [reflexivity|]. rewrite IH. reflexivity.
Qed.

Lemma insert_by_last_attempt_sorted r rows :
  StronglySorted older rows -> StronglySorted older (insert_by_last_attempt r rows).
Proof.
  induction 1 as [|r' rows Hs IH Hall]; simpl.
  - constructor; constructor.
  - destruct (Qle_bool (d_last_attempt_at r) (d_last_attempt_at r')) eqn:Hle.
    + apply Qle_bool_iff in Hle. constructor; [constructor; assumption|].
      constructor; [exact Hle|].
      apply List.Forall_forall. intros x Hx. unfold older.
      eapply Qle_trans; [exact Hle|].
      apply (proj1 (List.Forall_forall _ _) Hall x Hx).
    + assert (Hlt : (d_last_attempt_at r' < d_last_attempt_at r)%Q).
      { apply Qnot_le_lt. intros H. apply Qle_bool_iff in H. congruence. }
      constructor; [exact IH|].
      apply List.Forall_forall. intros x Hx.
      apply insert_by_last_attempt_in in Hx as [->|Hx].
      * apply Qlt_le_weak, Hlt.
      * apply (proj1 (List.Forall_forall _ _) Hall x Hx).
Qed.

Lemma by_last_attempt_sorted rows :
  StronglySorted older (foldr insert_by_last_attempt [] rows).
Proof.
  induction rows as [|r rows IH]; simpl; [constructor|].
  apply insert_by_last_attempt_sorted, IH.
Qed.

Lemma by_last_attempt_in rows x :
  In x (foldr insert_by_last_attempt [] rows) <-> In x rows.
Proof.
  induction rows as [|r rows IH]; simpl; [tauto|].
  rewrite insert_by_last_attempt_in, IH. intuition.
Qed.

Lemma by_last_attempt_length rows :
  length (foldr insert_by_last_attempt [] rows) = length rows.
Proof.
  induction rows as [|r rows IH]; simpl; [reflexivity|].
  rewrite insert_by_last_attempt_length, IH. reflexivity.
Qed.

Lemma sorted_lookup {A} (R : A -> A -> Prop) l :
  StronglySorted R l -> forall i j a b,
  (i < j)%nat -> l !! i = Some a -> l !! j = Some b -> R a b.
Proof.
  induction 1 as [|x l Hs IH Hall]; intros i j a b Hij Ha Hb; [discriminate|].
  destruct j as [|j]; [lia|]. simpl in Hb. destruct i as [|i]; simpl in Ha.
  - injection Ha as <-. apply (proj1 (List.Forall_forall _ _) Hall).
    apply list_elem_of_In. eapply list_elem_of_lookup_2, Hb.
  - apply (IH i j); [lia | assumption | assumption].
Qed.

Lemma in_skipn_in {A} n : forall (l : list A) x, In x (skipn n l) -> In x l.
Proof.
  induction n as [|n IH]; intros [|a l] x; simpl; auto.
Qed.

Lemma sorted_firstn_skipn {A} (R : A -> A -> Prop) l :
  StronglySorted R l -> forall n x y,
  In x (firstn n l) -> In y (skipn n l) -> R x y.
Proof.
  induction 1 as [|a l Hs IH Hall]; intros n x y Hx Hy.
  - rewrite firstn_nil in Hx. destruct Hx.
  - destruct n as [|n]; [destruct Hx|]. simpl in Hx, Hy. destruct Hx as [<-|Hx].
    + apply (proj1 (List.Forall_forall _ _) Hall).
      apply (in_skipn_in n). exact Hy.
    + apply (IH n); assumption.
Qed.

Lemma lookup_firstn_some {A} n (l : list A) i a :
  firstn n l !! i = Some a -> l !! i = Some a.
Proof.
  revert l i. induction n as [|n IH]; intros [|x l] i; simpl; try discriminate.
  destruct i as [|i]; simpl; [tauto | apply IH].
Qed.

(** The rows that the [SELECT] of a drain returns: rows with fewer than
    10 attempts, limited, ordered by [last_attempt_at]. *)
Lemma dlq_select_order (max_items : Z) (rows : list dlq_row) :
  exists picked,
    dlq_select max_items rows = map (fun r => (d_key r, d_text r)) picked /\
    (forall r, In r picked -> In r rows /\ d_attempts r < 10) /\
    length picked
    = (if max_items <? 0
       then length (List.filter (fun r => d_attempts r <? 10) rows)
       else Nat.min (Z.to_nat max_items)
              (length (List.filter (fun r => d_attempts r <? 10) rows))) /\
    (forall i j r r', (i < j)%nat -> picked !! i = Some r -> picked !! j = Some r' ->
       older r r') /\
    (forall r r', In r picked -> In r' rows -> d_attempts r' < 10 ->
       ~ In r' picked -> older r r').
Proof.
  set (elig := List.filter (fun r => d_attempts r <? 10) rows).
  set (sorted := foldr insert_by_last_attempt [] elig).
  assert (Hin : forall r, In r sorted <-> In r rows /\ d_attempts r < 10).
  { intros r. unfold sorted. rewrite by_last_attempt_in. unfold elig.
    rewrite filter_In, Z.ltb_lt. reflexivity. }
  assert (Hs : StronglySorted older sorted) by apply by_last_attempt_sorted.
  exists (sql_limit max_items sorted). split; [reflexivity|].
  unfold sql_limit. destruct (max_items <? 0).
  - split; [intros r Hr; apply Hin, Hr|].
    split; [apply by_last_attempt_length|].
    split; [apply (sorted_lookup _ _ Hs)|].
    intros r r' _ Hr' Hlt Hout. exfalso. apply Hout, Hin. auto.
  - split; [intros r Hr; apply Hin; eapply in_firstn, Hr|].
    split; [rewrite length_firstn; unfold sorted; rewrite by_last_attempt_length;
            reflexivity|].
    split.
    + intros i j r r' Hij Hr Hr'.
      apply (sorted_lookup _ _ Hs i j); [exact Hij | |]; eapply lookup_firstn_some;
        eassumption.
    + intros r r' Hr Hr' Hlt Hout.
      apply (sorted_firstn_skipn _ _ Hs (Z.to_nat max_items)); [exact Hr|].
      assert (Hall : In r' sorted) by (apply Hin; auto).
      rewrite <- (firstn_skipn (Z.to_nat max_items) sorted) in Hall.
      apply in_app_or in Hall as [H|H]; [contradiction | exact H].
Qed.

(** Whom a drain retries. [drain_dlq] reads the table once; if the read
    raises it retries nothing. Otherwise its loop gets, in this order,
    the key and the text of the entries picked: entries of the table
    with fewer than 10 attempts, never more than [max_items] of them
    (all of them for a negative bound), in the order of the
    [last_attempt_at] they are stored with, oldest first; an entry with
    fewer than 10 attempts that is left out is stored with a
    [last_attempt_at] no earlier than that of any entry picked. An entry
    that has reached 10 attempts is never retried. The [last_attempt_at]
    that the engine stores is the whole second of its write. *)
Theorem drain_dlq_oldest_first (fuel : nat) (max_items : Z) (s : state) :
  (forall k txt e s0,
     storage_fault E (requests (io s0)) = None ->
     embed_dlq (db (snd (dlq_write k txt e s0)))
     = dlq_upsert k txt e (inject_Z (Qfloor (clock (io s0)))) (embed_dlq (db s0))) /\
  exists picked,
    drain_dlq fuel max_items s
    = match storage_fault E (requests (io s)) with
      | Some _ => (Ok tt, logged WARN "dlq_drain_failed" (requested SqlDlqSelect false s))
      | None =>
          match picked with
          | [] => (Ok tt, requested SqlDlqSelect true s)
          | _ =>
              try_catch
                (recovered <- drain_rows fuel
                                (map (fun r => (d_key r, d_text r)) picked) 0 ;;
                 log_event INFO "dlq_drain_complete")
                (fun e => log_event WARN "dlq_drain_failed")
                (logged INFO "dlq_drain_start" (requested SqlDlqSelect true s))
          end
      end /\
    (forall r, In r picked -> In r (embed_dlq (db s)) /\ d_attempts r < 10) /\
    length picked
    = (if max_items <? 0
       then length (List.filter (fun r => d_attempts r <? 10) (embed_dlq (db s)))
       else Nat.min (Z.to_nat max_items)
              (length (List.filter (fun r => d_attempts r <? 10) (embed_dlq (db s))))) /\
    (forall i j r r', (i < j)%nat -> picked !! i = Some r -> picked !! j = Some r' ->
       older r r') /\
    (forall r r', In r picked -> In r' (embed_dlq (db s)) -> d_attempts r' < 10 ->
       ~ In r' picked -> older r r').
Proof.
  split.
  { intros k txt e s0 Hok. rewrite dlq_write_run. unfold dlq_written. rewrite Hok.
    reflexivity. }
  destruct (dlq_select_order max_items (embed_dlq (db s)))
    as (picked & Hsel & Hin & Hlen & Hsorted & Hout).
  exists picked. split; [|repeat split; try assumption; apply Hin; assumption].
  unfold drain_dlq, try_catch. unfold bind at 1. rewrite store_request_run.
  destruct (storage_fault E (requests (io s))); [reflexivity|].
  cbn [fst snd]. rewrite Hsel.
  assert (Hs0 : with_db (fun _ => db s) (requested SqlDlqSelect true s)
                = requested SqlDlqSelect true s) by (destruct s; reflexivity).
  rewrite Hs0. destruct picked as [|r picked]; reflexivity.
Qed.

(** *** The sink in [MVM.db]: [INSERT OR IGNORE INTO vectors] *)

Lemma slice_to_length n (s : pystr) : 0 <= n -> (length (slice_to n s) <= Z.to_nat n)%nat.
Proof. intros Hn. rewrite slice_to_nonneg by exact Hn. apply firstn_le_length. Qed.

Lemma vectors_insert_app now vs : forall rows,
  exists added,
    vectors_insert_ignore now vs rows = rows ++ added /\
    Forall (fun r => exists v, In v vs /\ r = vector_row_of now v) added.
Proof.
  unfold vectors_insert_ignore.
  induction vs as [|v vs IH]; intros rows; simpl.
  - exists []. rewrite app_nil_r. split; [reflexivity | constructor].
  - destruct (existsb _ rows).
    + destruct (IH rows) as (added & -> & Hall). exists added. split; [reflexivity|].
      eapply Forall_impl; [exact Hall|]. intros r (v' & Hv' & ->). eauto.
    + destruct (IH (rows ++ [vector_row_of now v])) as (added & -> & Hall).
      exists (vector_row_of now v :: added). rewrite <- app_assoc. split; [reflexivity|].
      constructor; [eauto|].
      eapply Forall_impl; [exact Hall|]. intros r (v' & Hv' & ->). eauto.
Qed.

Lemma existsb_bubble_app id (rows more : list vector_row) :
  existsb (fun r => String.eqb (v_bubble_id r) id) rows = true ->
  existsb (fun r => String.eqb (v_bubble_id r) id) (rows ++ more) = true.
Proof. intros H. rewrite existsb_app, H. reflexivity. Qed.

Lemma vectors_insert_present now vs : forall rows v,
  In v vs ->
  existsb (fun r => String.eqb (v_bubble_id r) (i_bubble_id v))
    (vectors_insert_ignore now vs rows) = true.
Proof.
  unfold vectors_insert_ignore.
  induction vs as [|v0 vs IH]; intros rows v Hv; [destruct Hv|].
  simpl. destruct Hv as [->|Hv]; [|apply IH, Hv].
  match goal with |- context [fold_left ?f vs ?acc] =>
    destruct (vectors_insert_app now vs acc) as (added & Hadd & _) end.
  unfold vectors_insert_ignore in Hadd. rewrite Hadd. apply existsb_bubble_app.
  destruct (existsb _ rows) eqn:Hex; [exact Hex|].
  rewrite existsb_app. simpl. rewrite String.eqb_refl, orb_true_r. reflexivity.
Qed.

Lemma vectors_insert_known now vs : forall rows,
  (forall v, In v vs ->
     existsb (fun r => String.eqb (v_bubble_id r) (i_bubble_id v)) rows = true) ->
  vectors_insert_ignore now vs rows = rows.
Proof.
  unfold vectors_insert_ignore.
  induction vs as [|v vs IH]; intros rows Hall; [reflexivity|].
  simpl. rewrite (Hall v) by (left; reflexivity). apply IH.
  intros v' Hv'. apply Hall. right. exact Hv'.
Qed.

Lemma vectors_insert_nodup now vs : forall rows,
  NoDup (map v_bubble_id rows) ->
  NoDup (map v_bubble_id (vectors_insert_ignore now vs rows)).
Proof.
  unfold vectors_insert_ignore.
  induction vs as [|v vs IH]; intros rows Hnd; [exact Hnd|].
  simpl. destruct (existsb _ rows) eqn:Hex; [apply IH, Hnd|].
  apply IH. rewrite map_app. simpl. apply NoDup_app. split; [exact Hnd|].
  split; [|apply NoDup_singleton].
  intros k Hk Hin. apply list_elem_of_In in Hk. apply list_elem_of_In in Hin.
  destruct Hin as [<-|[]]. apply in_map_iff in Hk as (r0 & Hkey & Hr0).
  assert (existsb (fun r => String.eqb (v_bubble_id r) (i_bubble_id v)) rows = true);
    [|congruence].
  apply existsb_exists. exists r0. split; [exact Hr0|].
  rewrite Hkey. apply String.eqb_refl.
Qed.

(** Writing to [MVM.db] is an append that can be repeated. The rows of
    [vectors] stay as they are and in place; what is added comes from
    the items offered, with the text cut to 500 characters and the
    dimension equal to the length of the vector; afterwards every item
    offered has a row with its [bubble_id], which stays unique; and
    offering the same items again, at any later time, changes nothing. *)
Theorem mvm_insert_or_ignore (now : Q) (vs : list vec_item) (rows : list vector_row) :
  (exists added,
     vectors_insert_ignore now vs rows = rows ++ added /\
     Forall (fun r => exists v, In v vs /\ r = vector_row_of now v
                                /\ (length (message_text r) <= 500)%nat
                                /\ vector_dimensions r = Z.of_nat (length (vector r)))
       added) /\
  (forall v, In v vs ->
     exists r, In r (vectors_insert_ignore now vs rows)
               /\ v_bubble_id r = i_bubble_id v) /\
  (NoDup (map v_bubble_id rows) ->
   NoDup (map v_bubble_id (vectors_insert_ignore now vs rows))) /\
  (forall now', vectors_insert_ignore now' vs (vectors_insert_ignore now vs rows)
                = vectors_insert_ignore now vs rows).
Proof.
  split.
  { destruct (vectors_insert_app now vs rows) as (added & Heq & Hall).
    exists added. split; [exact Heq|].
    eapply Forall_impl; [exact Hall|]. intros r (v & Hv & ->).
    exists v. split; [exact Hv|]. split; [reflexivity|].
    split; [apply (slice_to_length 500); lia | reflexivity]. }
  split.
  { intros v Hv. pose proof (vectors_insert_present now vs rows v Hv) as H.
    apply existsb_exists in H as (r & Hr & Hid). exists r. split; [exact Hr|].
    apply String.eqb_eq, Hid. }
  split; [apply vectors_insert_nodup|].
  intros now'. apply vectors_insert_known. intros v Hv.
  apply vectors_insert_present, Hv.
Qed.

(** *** The sink in Qdrant: [upsert] *)

Lemma filter_filter {A} (p q : A -> bool) l :
  List.filter p (List.filter q l) = List.filter (fun x => q x && p x) l.
Proof.
  induction l as [|a l IH]; simpl; [reflexivity|].
  destruct (q a); simpl; [destruct (p a); rewrite IH; reflexivity | exact IH].
Qed.

Lemma filter_none {A} (p : A -> bool) l :
  (forall x, In x l -> p x = false) -> List.filter p l = [].
Proof.
  induction l as [|a l IH]; intros H; simpl; [reflexivity|].
  rewrite (H a) by (left; reflexivity). apply IH. intros x Hx. apply H. right. exact Hx.
Qed.

Lemma qdrant_upsert_cons p pts coll :
  qdrant_upsert (p :: pts) coll
  = qdrant_upsert pts
      (List.filter (fun p' => negb (String.eqb (p_id p') (p_id p))) coll ++ [p]).
Proof. reflexivity. Qed.

Lemma qdrant_upsert_lookup pts : forall coll id,
  List.filter (has_id id) (qdrant_upsert pts coll)
  = match List.find (has_id id) (rev pts) with
    | Some p => [p]
    | None => List.filter (has_id id) coll
    end.
Proof.
  induction pts as [|p pts IH]; intros coll id; [reflexivity|].
  rewrite qdrant_upsert_cons, IH. simpl rev. rewrite find_app.
  destruct (List.find (has_id id) (rev pts)); [reflexivity|].
  rewrite List.filter_app, filter_filter. cbn [List.filter List.find].
  destruct (has_id id p) eqn:Hp.
  - rewrite filter_none; [reflexivity|].
    intros x _. unfold has_id in *. apply String.eqb_eq in Hp. rewrite Hp.
    destruct (String.eqb (p_id x) id); reflexivity.
  - rewrite app_nil_r. apply filter_ext. intros x. unfold has_id in *.
    destruct (String.eqb_spec (p_id x) id) as [Hx|]; [|apply andb_false_r].
    destruct (String.eqb_spec (p_id x) (p_id p)) as [Hxp|]; [|reflexivity].
    rewrite <- Hxp, Hx, String.eqb_refl in Hp. discriminate.
Qed.

Lemma qdrant_upsert_split pts : forall coll,
  qdrant_upsert pts coll
  = List.filter (fun c => negb (existsb (has_id (p_id c)) pts)) coll
    ++ qdrant_upsert pts [].
Proof.
  induction pts as [|p pts IH]; intros coll.
  { simpl. rewrite app_nil_r. induction coll as [|c coll IHc]; simpl; congruence. }
  rewrite (qdrant_upsert_cons p pts coll), (qdrant_upsert_cons p pts []).
  cbn [List.filter app].
  rewrite (IH (_ ++ [p])), (IH [p]), List.filter_app, filter_filter, <- app_assoc.
  f_equal. apply filter_ext. intros c. cbn [existsb]. unfold has_id at 2.
  rewrite negb_orb, (String.eqb_sym (p_id p) (p_id c)). reflexivity.
Qed.

Lemma qdrant_upsert_in pts : forall coll p,
  In p (qdrant_upsert pts coll) -> In p pts \/ In p coll.
Proof.
  induction pts as [|p0 pts IH]; intros coll p Hp; [right; exact Hp|].
  rewrite qdrant_upsert_cons in Hp. apply IH in Hp as [Hp|Hp]; [left; right; exact Hp|].
  apply in_app_or in Hp as [Hp|[<-|[]]].
  - right. apply filter_In in Hp. apply Hp.
  - left. left. reflexivity.
Qed.

Lemma qdrant_upsert_nodup pts : forall coll,
  NoDup (map p_id coll) -> NoDup (map p_id (qdrant_upsert pts coll)).
Proof.
  induction pts as [|p pts IH]; intros coll Hnd; [exact Hnd|].
  rewrite qdrant_upsert_cons. apply IH. rewrite map_app. simpl.
  apply NoDup_app. split.
  - clear IH. induction coll as [|c coll IHc]; simpl; [constructor|].
    apply NoDup_cons in Hnd as [Hc Hnd].
    destruct (String.eqb (p_id c) (p_id p)); simpl; [apply IHc, Hnd|].
    apply NoDup_cons. split; [|apply IHc, Hnd].
    intros Hin. apply Hc. apply list_elem_of_In in Hin. apply list_elem_of_In.
    apply in_map_iff in Hin as (x & Hx & Hxin). apply filter_In in Hxin as [Hxin _].
    apply in_map_iff. eauto.
  - split; [|apply NoDup_singleton].
    intros k Hk Hin. apply list_elem_of_In in Hk. apply list_elem_of_In in Hin.
    destruct Hin as [<-|[]]. apply in_map_iff in Hk as (x & Hx & Hxin).
    apply filter_In in Hxin as [_ Hne]. rewrite Hx, String.eqb_refl in Hne. discriminate.
Qed.

(** The last point wins. After an upsert, the points with a given id
    are: the last point of the batch with that id, alone, if the batch
    has one; else whatever the collection held. Ids that were unique
    stay unique, every point comes from the batch or was there before,
    and repeating the upsert changes nothing. *)
Theorem qdrant_upsert_last_wins (pts coll : list point) :
  (forall id,
     List.filter (has_id id) (qdrant_upsert pts coll)
     = match List.find (has_id id) (rev pts) with
       | Some p => [p]
       | None => List.filter (has_id id) coll
       end) /\
  (forall p, In p (qdrant_upsert pts coll) -> In p pts \/ In p coll) /\
  (NoDup (map p_id coll) -> NoDup (map p_id (qdrant_upsert pts coll))) /\
  qdrant_upsert pts (qdrant_upsert pts coll) = qdrant_upsert pts coll.
Proof.
  split; [intros id; apply qdrant_upsert_lookup|].
  split; [apply qdrant_upsert_in|].
  split; [apply qdrant_upsert_nodup|].
  rewrite (qdrant_upsert_split pts (qdrant_upsert pts coll)).
  rewrite (qdrant_upsert_split pts coll).
  rewrite List.filter_app, filter_filter, (filter_none _ (qdrant_upsert pts [])).
  - rewrite app_nil_r. f_equal. apply filter_ext. intros c. apply andb_diag.
  - intros x Hx. apply qdrant_upsert_in in Hx as [Hx|[]].
    apply negb_false_iff, existsb_exists. exists x. split; [exact Hx|].
    unfold has_id. apply String.eqb_refl.
Qed.

(** ** Invariants of the stores *)

Section Stores.
(** [R] is a preorder on the stores that every statement of the engine
    respects. *)
Variable R : stores -> stores -> Prop.
Hypothesis R_refl : forall d, R d d.
Hypothesis R_trans : forall d1 d2 d3, R d1 d2 -> R d2 d3 -> R d1 d3.
Hypothesis R_cache : forall r d,
  R d (set_embed_cache (cache_insert_ignore r (embed_cache d)) d).
Hypothesis R_dlq_upsert : forall k txt e now d,
  R d (set_embed_dlq (dlq_upsert k txt e now (embed_dlq d)) d).
Hypothesis R_dlq_delete : forall k d,
  R d (set_embed_dlq (dlq_delete k (embed_dlq d)) d).
Hypothesis R_vectors : forall now vs d,
  R d (set_vectors (vectors_insert_ignore now vs (vectors d)) d).
Hypothesis R_qdrant : forall pts d,
  R d (set_qdrant (qdrant_upsert pts (qdrant d)) d).
Hypothesis R_queue : forall ids d,
  R d (set_chat_data (queue_update ids (chat_data d)) d).

Lemma on_stores_refl s : on_stores R s s.
Proof. apply R_refl. Qed.

Lemma on_stores_trans s1 s2 s3 :
  on_stores R s1 s2 -> on_stores R s2 s3 -> on_stores R s1 s3.
Proof. apply R_trans. Qed.

Lemma stores_ret {A} (a : A) : steady (on_stores R) (ret a).
Proof. apply steady_ret, on_stores_refl. Qed.

Lemma stores_raise {A} e : steady (on_stores R) (@raise A e).
Proof. apply steady_raise, on_stores_refl. Qed.

Lemma stores_diverge {A} : steady (on_stores R) (@diverge A).
Proof. apply steady_diverge, on_stores_refl. Qed.

Lemma stores_gets {A} (f : state -> A) : steady (on_stores R) (gets f).
Proof. apply steady_gets, on_stores_refl. Qed.

Lemma stores_bind {A B} (m : M A) (k : A -> M B) :
  steady (on_stores R) m -> (forall a, steady (on_stores R) (k a)) ->
  steady (on_stores R) (bind m k).
Proof. apply steady_bind, on_stores_trans. Qed.

Lemma stores_try {A} (m : M A) (h : string -> M A) :
  steady (on_stores R) m -> (forall e, steady (on_stores R) (h e)) ->
  steady (on_stores R) (try_catch m h).
Proof. apply steady_try, on_stores_trans. Qed.

Lemma stores_modify_eng f : steady (on_stores R) (modify (with_eng f)).
Proof. intros s. apply R_refl. Qed.

Lemma stores_modify_io f : steady (on_stores R) (modify (with_io f)).
Proof. intros s. apply R_refl. Qed.

Lemma stores_time : steady (on_stores R) time_time.
Proof. intros s. apply R_refl. Qed.

Lemma stores_uniform x y : steady (on_stores R) (random_uniform x y).
Proof. intros s. apply R_refl. Qed.

Lemma stores_post txt : steady (on_stores R) (http_post txt).
Proof.
  intros s. unfold on_stores, http_post.
  destruct (inference E (posts (io s)) txt); apply R_refl.
Qed.

Lemma stores_request {A} q (run : stores -> A * stores) :
  (forall d, R d (snd (run d))) -> steady (on_stores R) (store_request q run).
Proof.
  intros Hrun s. unfold on_stores. rewrite store_request_run.
  destruct (storage_fault E (requests (io s))); simpl; [apply R_refl | apply Hrun].
Qed.

Ltac stores_step :=
  first
    [ assumption
    | match goal with H : context [steady] |- _ => solve [apply H] end
    | apply stores_ret | apply stores_raise | apply stores_diverge | apply stores_gets
    | apply stores_modify_eng | apply stores_modify_io
    | apply stores_time | apply stores_uniform | apply stores_post
    | apply stores_request; intros; cbn [snd];
      first [ apply R_refl | apply R_cache | apply R_dlq_upsert | apply R_dlq_delete
            | apply R_vectors | apply R_qdrant | apply R_queue ]
    | apply stores_try; intros
    | apply stores_bind; intros
    | match goal with
      | |- steady _ (if ?b then _ else _) => destruct b
      | |- steady _ (match ?x with _ => _ end) => destruct x
      end ].

Ltac stores_tac := repeat stores_step.

Lemma stores_await_token fuel : steady (on_stores R) (await_token fuel).
Proof.
  induction fuel as [|fuel IH]; cbn [await_token]; [apply stores_diverge|].
  apply stores_bind; [unfold _take_token, sleep; stores_tac|].
  intros [|]; stores_tac.
Qed.

Lemma stores_retry_loop txt k todo : steady (on_stores R) (retry_loop todo txt k).
Proof.
  induction todo as [|attempt rest IH]; cbn [retry_loop]; [apply stores_ret|].
  unfold attempt_once, cache_write, dlq_write, stat_add, log_event, sleep.
  stores_tac.
Qed.

Lemma stores_generate_embedding fuel txt :
  steady (on_stores R) (generate_embedding fuel txt).
Proof.
  rewrite generate_embedding_unfold.
  apply stores_bind; [unfold _ensure_cache_tables; stores_tac|]. intros _.
  apply stores_bind; [apply stores_await_token|]. intros _.
  unfold embed_paced, cache_check, _cool_if_cb_open, stat_add, log_event, sleep.
  pose proof stores_retry_loop. stores_tac.
Qed.

Lemma stores_drain_rows fuel rows : forall recovered,
  steady (on_stores R) (drain_rows fuel rows recovered).
Proof.
  induction rows as [|[k txt] rest IH]; intros recovered; cbn [drain_rows];
    [apply stores_ret|].
  apply stores_bind; [apply stores_generate_embedding|].
  intros [v|]; [|apply IH]. unfold log_event. stores_tac.
Qed.

Lemma stores_drain_dlq fuel max_items : steady (on_stores R) (drain_dlq fuel max_items).
Proof.
  unfold drain_dlq, log_event. pose proof (stores_drain_rows fuel). stores_tac.
Qed.

Lemma stores_get_queue_size : steady (on_stores R) get_queue_size.
Proof. unfold get_queue_size, log_event. stores_tac. Qed.

Lemma stores_embed_rows fuel rows : forall acc,
  steady (on_stores R) (embed_rows fuel rows acc).
Proof.
  induction rows as [|row rest IH]; intros acc; cbn [embed_rows]; [apply stores_ret|].
  cbv zeta. apply stores_bind; [apply stores_generate_embedding|].
  intros [v|]; apply IH.
Qed.

Lemma stores_vectorize_batch fuel batch_size :
  steady (on_stores R) (vectorize_batch fuel batch_size).
Proof.
  unfold vectorize_batch, finish_batch, _write_to_mvm, _write_to_qdrant, qdrant_client_upsert,
    stat_add, log_event.
  pose proof (stores_embed_rows fuel). stores_tac.
Qed.

Lemma stores_instant_loop fuel rounds : forall total,
  steady (on_stores R) (instant_loop rounds fuel total).
Proof.
  induction rounds as [|rounds IH]; intros total; cbn [instant_loop];
    [apply stores_diverge|].
  apply stores_bind; [apply stores_get_queue_size|]. intros size.
  destruct (0 <? size); [|apply stores_ret].
  apply stores_bind; [apply stores_vectorize_batch|]. intros count.
  destruct (count =? 0); [apply stores_ret | apply IH].
Qed.

Lemma stores_bulk_loop fuel todo : forall total,
  steady (on_stores R) (bulk_loop fuel todo total).
Proof.
  induction todo as [|b rest IH]; intros total; cbn [bulk_loop]; [apply stores_ret|].
  apply stores_bind; [apply stores_vectorize_batch|]. intros count.
  destruct (count =? 0); [apply stores_ret|].
  apply stores_bind; [apply stores_get_queue_size|]. intros remaining.
  unfold log_event, sleep. stores_tac.
Qed.

Lemma stores_run_instant_mode rounds fuel :
  steady (on_stores R) (run_instant_mode rounds fuel).
Proof.
  unfold run_instant_mode, log_event.
  pose proof (stores_drain_dlq fuel 25). pose proof stores_get_queue_size.
  pose proof (stores_instant_loop fuel rounds). stores_tac.
Qed.

Lemma stores_run_bulk_mode fuel max_batches :
  steady (on_stores R) (run_bulk_mode fuel max_batches).
Proof.
  unfold run_bulk_mode, log_event.
  pose proof (stores_drain_dlq fuel 25). pose proof stores_get_queue_size.
  pose proof (stores_bulk_loop fuel). stores_tac.
Qed.

(** Every operation of the engine respects [R]. *)
Lemma stores_all :
  (forall fuel txt, steady (on_stores R) (generate_embedding fuel txt)) /\
  (forall fuel max_items, steady (on_stores R) (drain_dlq fuel max_items)) /\
  steady (on_stores R) get_queue_size /\
  (forall fuel batch_size, steady (on_stores R) (vectorize_batch fuel batch_size)) /\
  (forall rounds fuel, steady (on_stores R) (run_instant_mode rounds fuel)) /\
  (forall fuel max_batches, steady (on_stores R) (run_bulk_mode fuel max_batches)).
Proof.
  split; [apply stores_generate_embedding|].
  split; [apply stores_drain_dlq|].
  split; [apply stores_get_queue_size|].
  split; [apply stores_vectorize_batch|].
  split; [apply stores_run_instant_mode | apply stores_run_bulk_mode].
Qed.

End Stores.

Lemma nodup_map_filter {A B} (f : A -> B) (p : A -> bool) (l : list A) :
  NoDup (map f l) -> NoDup (map f (List.filter p l)).
Proof.
  induction l as [|a l IH]; simpl; [auto|].
  intros Hnd. apply NoDup_cons in Hnd as [Hnotin Hnd].
  destruct (p a); [|apply IH, Hnd]. simpl. apply NoDup_cons. split; [|apply IH, Hnd].
  intros Hin. apply Hnotin. apply list_elem_of_In in Hin. apply list_elem_of_In.
  apply in_map_iff in Hin as (a' & Ha' & Hin). apply filter_In in Hin as [Hin _].
  apply in_map_iff. exists a'. auto.
Qed.

Lemma queue_update_rowids ids table :
  map rowid (queue_update ids table) = map rowid table.
Proof.
  unfold queue_update. rewrite map_map. apply map_ext. intros r.
  destruct (existsb (Z.eqb (rowid r)) ids); reflexivity.
Qed.

(** A cached vector is final. No operation of the engine replaces or
    removes a row of the embedding cache: whatever a lookup finds
    before [generate_embedding], [drain_dlq], [vectorize_batch] or a run
    mode, it finds afterwards, however the operation ends. *)
Theorem cached_vectors_are_final :
  (forall fuel txt s,
     cache_kept (db s) (db (snd (generate_embedding fuel txt s)))) /\
  (forall fuel max_items s,
     cache_kept (db s) (db (snd (drain_dlq fuel max_items s)))) /\
  (forall fuel batch_size s,
     cache_kept (db s) (db (snd (vectorize_batch fuel batch_size s)))) /\
  (forall rounds fuel s,
     cache_kept (db s) (db (snd (run_instant_mode rounds fuel s)))) /\
  (forall fuel max_batches s,
     cache_kept (db s) (db (snd (run_bulk_mode fuel max_batches s)))).
Proof.
  assert (H : forall R : stores -> stores -> Prop, R = cache_kept ->
            (forall d, R d d) /\ (forall d1 d2 d3, R d1 d2 -> R d2 d3 -> R d1 d3) /\
            (forall r d, R d (set_embed_cache (cache_insert_ignore r (embed_cache d)) d)) /\
            (forall d d', embed_cache d' = embed_cache d -> R d d')).
  { intros R ->. unfold cache_kept. split; [auto|]. split; [auto|]. split.
    - intros r d k r0 Hsel. simpl. rewrite cache_insert_lookup, Hsel. reflexivity.
    - intros d d' Heq k r0. rewrite Heq. auto. }
  destruct (H cache_kept eq_refl) as (Hrefl & Htrans & Hins & Hsame).
  destruct (stores_all cache_kept Hrefl Htrans Hins) as (H1 & H2 & _ & H3 & H4 & H5);
    try (intros; apply Hsame; reflexivity).
  repeat split; intros; first [apply H1 | apply H2 | apply H3 | apply H4 | apply H5].
Qed.

(** The table of vectors only grows. Every operation of the engine
    leaves the rows of [vectors] in [MVM.db] as they are and in place;
    it can only append rows. *)
Theorem vectors_table_append_only :
  (forall fuel txt s,
     vectors_kept (db s) (db (snd (generate_embedding fuel txt s)))) /\
  (forall fuel max_items s,
     vectors_kept (db s) (db (snd (drain_dlq fuel max_items s)))) /\
  (forall fuel batch_size s,
     vectors_kept (db s) (db (snd (vectorize_batch fuel batch_size s)))) /\
  (forall rounds fuel s,
     vectors_kept (db s) (db (snd (run_instant_mode rounds fuel s)))) /\
  (forall fuel max_batches s,
     vectors_kept (db s) (db (snd (run_bulk_mode fuel max_batches s)))).
Proof.
  assert (Hrefl : forall d, vectors_kept d d).
  { intros d. exists []. rewrite app_nil_r. reflexivity. }
  assert (Htrans : forall d1 d2 d3,
            vectors_kept d1 d2 -> vectors_kept d2 d3 -> vectors_kept d1 d3).
  { intros d1 d2 d3 (a1 & H1) (a2 & H2). exists (a1 ++ a2).
    rewrite H2, H1, app_assoc. reflexivity. }
  assert (Hsame : forall d d', vectors d' = vectors d -> vectors_kept d d').
  { intros d d' Heq. exists []. rewrite app_nil_r. exact Heq. }
  destruct (stores_all vectors_kept Hrefl Htrans) as (H1 & H2 & _ & H3 & H4 & H5);
    try (intros; apply Hsame; reflexivity).
  { intros now vs d. destruct (vectors_insert_app now vs (vectors d)) as (added & Heq & _).
    exists added. exact Heq. }
  repeat split; intros; first [apply H1 | apply H2 | apply H3 | apply H4 | apply H5].
Qed.

(** Keys stay unique. If no row identifier of the queue, no key of the
    cache or of the dead letter queue, no [bubble_id] of [vectors] and
    no point id of the collection occurs twice, the same holds after any
    operation of the engine, however it ends. *)
Theorem unique_keys_preserved :
  (forall fuel txt s,
     unique_keys (db s) -> unique_keys (db (snd (generate_embedding fuel txt s)))) /\
  (forall fuel max_items s,
     unique_keys (db s) -> unique_keys (db (snd (drain_dlq fuel max_items s)))) /\
  (forall fuel batch_size s,
     unique_keys (db s) -> unique_keys (db (snd (vectorize_batch fuel batch_size s)))) /\
  (forall rounds fuel s,
     unique_keys (db s) -> unique_keys (db (snd (run_instant_mode rounds fuel s)))) /\
  (forall fuel max_batches s,
     unique_keys (db s) -> unique_keys (db (snd (run_bulk_mode fuel max_batches s)))).
Proof.
  set (R := fun d d' : stores => unique_keys d -> unique_keys d').
  destruct (stores_all R) as (H1 & H2 & _ & H3 & H4 & H5);
    try (unfold R, unique_keys; cbn [chat_data embed_cache embed_dlq vectors qdrant
                                       set_chat_data set_embed_cache set_embed_dlq
                                       set_vectors set_qdrant]).
  - auto.
  - auto.
  - intros r d (Hq & Hc & Hd & Hv & Hp). repeat split; try assumption.
    apply cache_insert_nodup, Hc.
  - intros k txt e now d (Hq & Hc & Hd & Hv & Hp). repeat split; try assumption.
    apply dlq_upsert_keys_nodup, Hd.
  - intros k d (Hq & Hc & Hd & Hv & Hp). repeat split; try assumption.
    apply nodup_map_filter, Hd.
  - intros now vs d (Hq & Hc & Hd & Hv & Hp). repeat split; try assumption.
    apply vectors_insert_nodup, Hv.
  - intros pts d (Hq & Hc & Hd & Hv & Hp). repeat split; try assumption.
    apply qdrant_upsert_nodup, Hp.
  - intros ids d (Hq & Hc & Hd & Hv & Hp). repeat split; try assumption.
    rewrite queue_update_rowids. exact Hq.
  - repeat split; intros; first [apply H1 | apply H2 | apply H3 | apply H4 | apply H5];
      assumption.
Qed.

(** ** Exceptions stay inside *)

Lemma no_raise_ret {A} (a : A) : no_raise (ret a).
Proof. intros s e. discriminate. Qed.

Lemma no_raise_modify f : no_raise (modify f).
Proof. intros s e. discriminate. Qed.

Lemma no_raise_bind {A B} (m : M A) (k : A -> M B) :
  no_raise m -> (forall a, no_raise (k a)) -> no_raise (bind m k).
Proof.
  intros Hm Hk s e. unfold bind. specialize (Hm s).
  destruct (m s) as [[a|e'|] s1]; simpl in *;
    [apply Hk | exfalso; apply (Hm e'); reflexivity | discriminate].
Qed.

Lemma no_raise_try {A} (m : M A) (h : string -> M A) :
  (forall e, no_raise (h e)) -> no_raise (try_catch m h).
Proof.
  intros Hh s e. unfold try_catch.
  destruct (m s) as [[a|e'|] s1]; simpl; [discriminate | apply Hh | discriminate].
Qed.

Lemma no_raise_drain_dlq fuel max_items : no_raise (drain_dlq fuel max_items).
Proof. apply no_raise_try. intros e. apply no_raise_modify. Qed.

Lemma no_raise_get_queue_size : no_raise get_queue_size.
Proof.
  apply no_raise_try. intros e.
  apply no_raise_bind; [apply no_raise_modify | intros; apply no_raise_ret].
Qed.

Lemma no_raise_vectorize_batch fuel batch_size : no_raise (vectorize_batch fuel batch_size).
Proof.
  apply no_raise_try. intros e.
  apply no_raise_bind; [apply no_raise_modify | intros; apply no_raise_ret].
Qed.

Lemma no_raise_instant_loop fuel rounds : forall total,
  no_raise (instant_loop rounds fuel total).
Proof.
  induction rounds as [|rounds IH]; intros total; cbn [instant_loop];
    [intros s e; discriminate|].
  apply no_raise_bind; [apply no_raise_get_queue_size|]. intros size.
  destruct (0 <? size); [|apply no_raise_ret].
  apply no_raise_bind; [apply no_raise_vectorize_batch|]. intros count.
  destruct (count =? 0); [apply no_raise_ret | apply IH].
Qed.

Lemma no_raise_bulk_loop fuel todo : forall total, no_raise (bulk_loop fuel todo total).
Proof.
  induction todo as [|b rest IH]; intros total; cbn [bulk_loop]; [apply no_raise_ret|].
  apply no_raise_bind; [apply no_raise_vectorize_batch|]. intros count.
  destruct (count =? 0); [apply no_raise_ret|].
  apply no_raise_bind; [apply no_raise_get_queue_size|]. intros remaining.
  apply no_raise_bind; [apply no_raise_modify|]. intros _.
  apply no_raise_bind; [apply no_raise_modify|]. intros _. apply IH.
Qed.

Lemma no_raise_run_instant_mode rounds fuel : no_raise (run_instant_mode rounds fuel).
Proof.
  apply no_raise_bind; [apply no_raise_drain_dlq|]. intros _.
  apply no_raise_bind; [apply no_raise_get_queue_size|]. intros size.
  destruct (size =? 0); [apply no_raise_ret|].
  apply no_raise_bind; [apply no_raise_modify|]. intros _. apply no_raise_instant_loop.
Qed.

Lemma no_raise_run_bulk_mode fuel max_batches : no_raise (run_bulk_mode fuel max_batches).
Proof.
  apply no_raise_bind; [apply no_raise_drain_dlq|]. intros _.
  apply no_raise_bind; [apply no_raise_get_queue_size|]. intros size.
  destruct (size =? 0); [apply no_raise_ret|].
  apply no_raise_bind; [apply no_raise_modify|]. intros _.
  apply no_raise_bind; [apply no_raise_bulk_loop|]. intros total.
  apply no_raise_bind; [apply no_raise_get_queue_size|]. intros; apply no_raise_ret.
Qed.

(** No exception leaves the orchestrator. Whatever the endpoint and the
    storage do, [drain_dlq], [get_queue_size], [vectorize_batch], the two
    sink writers and the two run modes never end in an exception: each
    catches what is raised inside it, logs it and returns normally
    ([get_queue_size] and [vectorize_batch] then return 0). *)
Theorem orchestrator_never_raises :
  (forall fuel max_items s e, fst (drain_dlq fuel max_items s) <> Raised e) /\
  (forall s e, fst (get_queue_size s) <> Raised e) /\
  (forall s e,
     storage_fault E (requests (io s)) = Some e ->
     get_queue_size s
     = (Ok 0, logged ERROR "queue_read_failed" (requested SqlQueueCount false s))) /\
  (forall fuel batch_size s e, fst (vectorize_batch fuel batch_size s) <> Raised e) /\
  (forall fuel batch_size s e,
     storage_fault E (requests (io s)) = Some e ->
     vectorize_batch fuel batch_size s
     = (Ok 0, logged ERROR "batch_failed" (requested SqlQueueSelect false s))) /\
  (forall vs s, fst (_write_to_mvm vs s) = Ok tt) /\
  (forall vs s, fst (_write_to_qdrant vs s) = Ok tt) /\
  (forall rounds fuel s e, fst (run_instant_mode rounds fuel s) <> Raised e) /\
  (forall fuel max_batches s e, fst (run_bulk_mode fuel max_batches s) <> Raised e).
Proof.
  split; [intros; apply no_raise_drain_dlq|].
  split; [intros; apply no_raise_get_queue_size|].
  split.
  { intros s e H. unfold get_queue_size, try_catch. rewrite store_request_run, H.
    reflexivity. }
  split; [intros; apply no_raise_vectorize_batch|].
  split.
  { intros fuel batch_size s e H. unfold vectorize_batch, try_catch. unfold bind at 1.
    rewrite store_request_run, H. reflexivity. }
  split; [intros; rewrite write_to_mvm_run; reflexivity|].
  split; [intros; rewrite write_to_qdrant_run; reflexivity|].
  split; [intros; apply no_raise_run_instant_mode | intros; apply no_raise_run_bulk_mode].
Qed.

(** ** What a batch returns *)

Lemma embed_each_length fuel rows : forall s results s',
  embed_each fuel rows s = (Ok results, s') -> length results = length rows.
Proof.
  induction rows as [|row rest IH]; intros s results s'.
  - intros [= <- _]. reflexivity.
  - cbn [embed_each]. unfold bind.
    destruct (generate_embedding fuel (text_of row) s) as [[r| |] s1]; try discriminate.
    destruct (embed_each fuel rest s1) as [[rs| |] s2] eqn:Hrest; try discriminate.
    intros [= <- _]. simpl. f_equal. eapply IH, Hrest.
Qed.

(** A batch that returns has marked nothing and returns 0, or its calls
    all returned, the update of the queue went through, and it returns
    the number of rows marked. *)
Lemma vectorize_batch_cases fuel batch_size s n s' :
  vectorize_batch fuel batch_size s = (Ok n, s') ->
  (n = 0 /\ chat_data (db s') = chat_data (db s)) \/
  (exists results s1,
     embed_each fuel (queue_select batch_size (chat_data (db s)))
       (batch_started (queue_select batch_size (chat_data (db s))) s)
     = (Ok results, s1) /\
     n = Z.of_nat (length (succeeded_rows (queue_select batch_size (chat_data (db s)))
                             results)) /\
     chat_data (db s')
     = queue_update
         (map rowid (succeeded_rows (queue_select batch_size (chat_data (db s))) results))
         (chat_data (db s))).
Proof.
  intros Hrun.
  unfold vectorize_batch, try_catch in Hrun. unfold bind at 1 in Hrun.
  rewrite store_request_run in Hrun.
  destruct (storage_fault E (requests (io s))).
  { injection Hrun as <- <-. left. split; reflexivity. }
  cbn [fst snd] in Hrun.
  assert (Hs0 : with_db (fun _ => db s) (requested SqlQueueSelect true s)
                = requested SqlQueueSelect true s) by (destruct s; reflexivity).
  rewrite Hs0 in Hrun.
  destruct (queue_select batch_size (chat_data (db s))) as [|row rest] eqn:Hrows.
  { injection Hrun as <- <-. left. split; reflexivity. }
  unfold bind at 1 in Hrun. unfold log_event at 1, modify at 1 in Hrun.
  fold (logged INFO "batch_start" (requested SqlQueueSelect true s)) in Hrun.
  assert (Hq : same_queue
                 (logged INFO "batch_start" (requested SqlQueueSelect true s))
                 (snd (embed_rows fuel (row :: rest) empty_acc
                         (logged INFO "batch_start" (requested SqlQueueSelect true s)))))
    by (apply (keeps_embed_rows same_queue); frame_side).
  unfold same_queue in Hq. simpl chat_data at 2 in Hq.
  unfold bind at 1 in Hrun. rewrite embed_rows_each in Hrun, Hq.
  change (logged INFO "batch_start" (requested SqlQueueSelect true s))
    with (batch_started (row :: rest) s) in Hrun, Hq |- *.
  destruct (embed_each fuel (row :: rest) (batch_started (row :: rest) s))
    as [[results|e|] s1]; cbn [fst snd] in Hq.
  - rewrite finish_batch_run in Hrun.
    pose proof (collect_rowids (row :: rest) results empty_acc) as Hids.
    change (rowids_success empty_acc) with (@nil Z) in Hids.
    rewrite app_nil_l in Hids. rewrite Hids in Hrun.
    destruct (map rowid (succeeded_rows (row :: rest) results)) as [|i ids] eqn:Hok.
    + injection Hrun as <- <-. left. split; [reflexivity|].
      rewrite chat_partial_logged, chat_sunk. exact Hq.
    + destruct (storage_fault E (requests (io (sunk _ s1)))).
      * injection Hrun as <- <-. left. split; [reflexivity|].
        change (chat_data (db (sunk (collect (row :: rest) results empty_acc) s1))
                = chat_data (db s)).
        rewrite chat_sunk. exact Hq.
      * injection Hrun as <- <-. right. exists results, s1. split; [reflexivity|].
        split.
        { rewrite <- (length_map rowid), Hok. reflexivity. }
        rewrite chat_partial_logged.
        cbn [chat_data db logged with_io with_db set_chat_data].
        rewrite chat_sunk, Hq, Hok. reflexivity.
  - injection Hrun as <- <-. left. split; [reflexivity | exact Hq].
  - discriminate.
Qed.

Lemma queue_count_update ids table :
  queue_count (queue_update ids table)
  = queue_count table
    - Z.of_nat (length (List.filter
                          (fun r => unprocessed r && existsb (Z.eqb (rowid r)) ids) table)).
Proof.
  unfold queue_count, queue_update.
  induction table as [|r table IH]; [reflexivity|].
  cbn [map List.filter].
  destruct (existsb (Z.eqb (rowid r)) ids) eqn:Hin.
  - change (unprocessed (mark r)) with false. cbv iota.
    destruct (unprocessed r); cbn [andb length]; lia.
  - rewrite andb_false_r. destruct (unprocessed r); cbn [length]; lia.
Qed.

Lemma succeeded_rows_nodup rows : forall results,
  NoDup (map rowid rows) -> NoDup (map rowid (succeeded_rows rows results)).
Proof.
  induction rows as [|row rest IH]; intros [|[v|] results] Hnd; simpl;
    try apply NoDup_nil_2; apply NoDup_cons in Hnd as [Hnotin Hnd].
  - apply NoDup_cons. split; [|apply IH, Hnd].
    intros Hin. apply Hnotin. apply list_elem_of_In in Hin. apply list_elem_of_In.
    apply in_map_iff in Hin as (r & Hr & Hin). apply succeeded_rows_in in Hin.
    apply in_map_iff. eauto.
  - apply IH, Hnd.
Qed.

(** Marking distinct unprocessed rows of a queue with unique identifiers
    takes exactly that many rows out of the count. *)
Lemma queue_count_marked ids table :
  NoDup (map rowid table) -> NoDup ids ->
  (forall id, In id ids -> exists r, In r table /\ rowid r = id /\ processed r = 0) ->
  queue_count (queue_update ids table) = queue_count table - Z.of_nat (length ids).
Proof.
  intros Hnd Hids Hall. rewrite queue_count_update. f_equal. f_equal.
  rewrite <- (length_map rowid).
  apply Permutation_length, NoDup_Permutation.
  - apply nodup_map_filter, Hnd.
  - exact Hids.
  - intros id. rewrite !list_elem_of_In, in_map_iff. split.
    + intros (r & <- & Hr). apply filter_In in Hr as [_ Hr].
      apply andb_true_iff in Hr as [_ Hr]. apply existsb_exists in Hr as (x & Hx & Heq).
      apply Z.eqb_eq in Heq. rewrite Heq. exact Hx.
    + intros Hid. destruct (Hall id Hid) as (r & Hr & Hrid & Hun). exists r.
      split; [exact Hrid|]. apply filter_In. split; [exact Hr|].
      apply andb_true_iff. split; [unfold unprocessed; lia|].
      apply existsb_exists. exists id. split; [exact Hid | lia].
Qed.

Lemma succeeded_rows_length rows : forall results,
  (length (succeeded_rows rows results) <= length rows)%nat.
Proof.
  induction rows as [|row rest IH]; intros [|[v|] results]; simpl; try lia;
    specialize (IH results); lia.
Qed.

Lemma queue_select_length n table :
  0 <= n -> (length (queue_select n table) <= Z.to_nat n)%nat.
Proof.
  intros Hn. unfold queue_select, sql_limit.
  destruct (Z.ltb_spec n 0); [lia|]. apply firstn_le_length.
Qed.

Lemma queue_select_count n table :
  Z.of_nat (length (queue_select n table)) <= queue_count table.
Proof.
  unfold queue_select, sql_limit, queue_count.
  destruct (n <? 0); [lia|]. rewrite length_firstn. lia.
Qed.

Lemma vectorize_batch_count fuel batch_size s n s' :
  NoDup (map rowid (chat_data (db s))) ->
  vectorize_batch fuel batch_size s = (Ok n, s') ->
  queue_count (chat_data (db s')) = queue_count (chat_data (db s)) - n /\
  map rowid (chat_data (db s')) = map rowid (chat_data (db s)) /\
  0 <= n <= queue_count (chat_data (db s)) /\
  (0 <= batch_size -> n <= batch_size).
Proof.
  intros Hnd Hrun.
  assert (Hq0 : 0 <= queue_count (chat_data (db s))) by (unfold queue_count; lia).
  destruct (vectorize_batch_cases _ _ _ _ _ Hrun)
    as [[-> Hchat]|(results & s1 & Heach & -> & Hchat)]; rewrite Hchat.
  - repeat split; lia.
  - set (rows := queue_select batch_size (chat_data (db s))) in *.
    pose proof (succeeded_rows_length rows results) as Hlen.
    pose proof (queue_select_count batch_size (chat_data (db s))) as Hcnt.
    fold rows in Hcnt.
    split.
    { rewrite queue_count_marked, length_map; [reflexivity | exact Hnd | |].
      - apply succeeded_rows_nodup, nodup_rowid_select, Hnd.
      - intros id Hid. apply in_map_iff in Hid as (r & Hr & Hin).
        apply succeeded_rows_in, queue_select_in in Hin. exists r. tauto. }
    split; [apply queue_update_rowids|].
    split; [lia|]. intros Hb.
    pose proof (queue_select_length batch_size (chat_data (db s)) Hb). fold rows in H. lia.
Qed.

(** The return value of a batch. With unique row identifiers, and
    whatever happens during the batch, [vectorize_batch] returns the
    number of rows it has marked as processed: the count of unprocessed
    rows goes down by exactly the value returned, which is never
    negative and never more than [batch_size] (when that is not
    negative) or than the rows waiting. A batch that fails returns 0 and
    marks nothing. *)
Theorem batch_returns_rows_marked (fuel : nat) (batch_size : Z) (s s' : state) (n : Z) :
  NoDup (map rowid (chat_data (db s))) ->
  vectorize_batch fuel batch_size s = (Ok n, s') ->
  queue_count (chat_data (db s')) = queue_count (chat_data (db s)) - n /\
  0 <= n <= queue_count (chat_data (db s)) /\
  (0 <= batch_size -> n <= batch_size) /\
  (n = 0 -> chat_data (db s') = chat_data (db s)).
Proof.
  intros Hnd Hrun.
  destruct (vectorize_batch_count _ _ _ _ _ Hnd Hrun) as (Hcount & _ & Hn & Hb).
  split; [exact Hcount|]. split; [exact Hn|]. split; [exact Hb|].
  intros ->. destruct (vectorize_batch_cases _ _ _ _ _ Hrun)
    as [[_ Hchat]|(results & s1 & _ & Hlen & Hchat)]; [exact Hchat|].
  rewrite Hchat. destruct (succeeded_rows _ results); [apply queue_update_nil|].
  simpl in Hlen. lia.
Qed.

(** ** What a run returns *)

Lemma get_queue_size_chat s :
  chat_data (db (snd (get_queue_size s))) = chat_data (db s).
Proof. apply (keeps_get_queue_size same_queue); frame_side. Qed.

Lemma drain_dlq_chat fuel max_items s :
  chat_data (db (snd (drain_dlq fuel max_items s))) = chat_data (db s).
Proof. apply (keeps_drain_dlq same_queue); frame_side. Qed.

Lemma bulk_loop_count fuel todo : forall total s n s',
  NoDup (map rowid (chat_data (db s))) ->
  bulk_loop fuel todo total s = (Ok n, s') ->
  queue_count (chat_data (db s')) = queue_count (chat_data (db s)) - (n - total) /\
  total <= n <= total + 10 * Z.of_nat (length todo).
Proof.
  induction todo as [|b rest IH]; intros total s n s' Hnd Hrun.
  { injection Hrun as <- <-. simpl. lia. }
  cbn [bulk_loop] in Hrun. unfold bind at 1 in Hrun.
  destruct (vectorize_batch fuel 10 s) as [[count| |] s1] eqn:Hb; try discriminate.
  destruct (vectorize_batch_count _ _ _ _ _ Hnd Hb) as (Hcount & Hids & Hn & Hmax).
  specialize (Hmax ltac:(lia)).
  destruct (Z.eqb_spec count 0) as [->|Hne].
  { injection Hrun as <- <-. simpl length. lia. }
  unfold bind at 1 in Hrun.
  pose proof (get_queue_size_chat s1) as Hq.
  destruct (get_queue_size s1) as [[remaining| |] s2]; try discriminate.
  cbn [snd] in Hq. unfold bind, log_event, sleep, modify in Hrun.
  apply IH in Hrun; [|cbn [db chat_data with_io]; rewrite Hq, Hids; exact Hnd].
  cbn [db chat_data with_io] in Hrun. rewrite Hq in Hrun. simpl length. lia.
Qed.

Lemma instant_loop_count fuel rounds : forall total s n s',
  NoDup (map rowid (chat_data (db s))) ->
  instant_loop rounds fuel total s = (Ok n, s') ->
  queue_count (chat_data (db s')) = queue_count (chat_data (db s)) - (n - total) /\
  total <= n.
Proof.
  induction rounds as [|rounds IH]; intros total s n s' Hnd Hrun; [discriminate|].
  cbn [instant_loop] in Hrun. unfold bind at 1 in Hrun.
  pose proof (get_queue_size_chat s) as Hq.
  destruct (get_queue_size s) as [[size| |] s1]; try discriminate.
  cbn [snd] in Hq. destruct (0 <? size).
  2: { injection Hrun as <- <-. rewrite Hq. lia. }
  unfold bind at 1 in Hrun.
  destruct (vectorize_batch fuel 10 s1) as [[count| |] s2] eqn:Hb; try discriminate.
  rewrite <- Hq in Hnd.
  destruct (vectorize_batch_count _ _ _ _ _ Hnd Hb) as (Hcount & Hids & Hn & _).
  rewrite Hq in Hcount.
  destruct (Z.eqb_spec count 0) as [->|Hne].
  { injection Hrun as <- <-. lia. }
  apply IH in Hrun; [lia | rewrite Hids; exact Hnd].
Qed.

(** The return value of a run. With unique row identifiers, a run mode
    that returns has lowered the count of unprocessed rows by exactly
    the number it returns; [run_bulk_mode] marks at most ten rows for
    each of its [max_batches] batches, and none at all when
    [max_batches] is zero or negative. *)
Theorem run_returns_rows_marked (rounds fuel : nat) (max_batches : Z) (s : state) :
  NoDup (map rowid (chat_data (db s))) ->
  (forall n s',
     run_instant_mode rounds fuel s = (Ok n, s') ->
     queue_count (chat_data (db s')) = queue_count (chat_data (db s)) - n /\ 0 <= n) /\
  (forall n s',
     run_bulk_mode fuel max_batches s = (Ok n, s') ->
     queue_count (chat_data (db s')) = queue_count (chat_data (db s)) - n /\
     0 <= n <= 10 * Z.max 0 max_batches).
Proof.
  intros Hnd.
  assert (Hstart : forall (k : Z -> M Z) n s',
            (drain_dlq fuel 25 ;; queue_size <- get_queue_size ;; k queue_size) s
            = (Ok n, s') ->
            exists size s2, chat_data (db s2) = chat_data (db s) /\ k size s2 = (Ok n, s')).
  { intros k n s' Hrun. unfold bind at 1 in Hrun.
    pose proof (drain_dlq_chat fuel 25 s) as Hd.
    destruct (drain_dlq fuel 25 s) as [[[]| |] s1]; try discriminate.
    unfold bind at 1 in Hrun. pose proof (get_queue_size_chat s1) as Hq.
    destruct (get_queue_size s1) as [[size| |] s2]; try discriminate.
    cbn [snd] in Hd, Hq. exists size, s2. split; [congruence | exact Hrun]. }
  split; intros n s' Hrun; apply Hstart in Hrun as (size & s2 & Hchat & Hrun);
    rewrite <- Hchat in *; destruct (size =? 0);
    try (injection Hrun as <- <-; lia).
  - unfold bind, log_event, modify in Hrun.
    apply instant_loop_count in Hrun; [|exact Hnd]. cbn [db chat_data with_io] in Hrun. lia.
  - unfold bind at 1 in Hrun. unfold log_event, modify in Hrun.
    unfold bind at 1 in Hrun.
    destruct (bulk_loop fuel (py_range max_batches) 0 _) as [[total| |] s3] eqn:Hloop;
      try discriminate.
    apply bulk_loop_count in Hloop; [|exact Hnd].
    rewrite py_range_length in Hloop. cbn [db chat_data with_io] in Hloop.
    unfold bind in Hrun. pose proof (get_queue_size_chat s3) as Hq.
    destruct (get_queue_size s3) as [[remaining| |] s4]; try discriminate.
    injection Hrun as <- <-. cbn [snd] in Hq. rewrite Hq. lia.
Qed.

(** ** Every operation ends *)

Lemma lively_ret {A} (a : A) : lively (ret a).
Proof. intros s Hwf. split; [exact Hwf | discriminate]. Qed.

Lemma lively_raise {A} e : lively (@raise A e).
Proof. intros s Hwf. split; [exact Hwf | discriminate]. Qed.

Lemma lively_gets {A} (f : state -> A) : lively (gets f).
Proof. intros s Hwf. split; [exact Hwf | discriminate]. Qed.

Lemma lively_bind {A B} (m : M A) (k : A -> M B) :
  lively m -> (forall a, lively (k a)) -> lively (bind m k).
Proof.
  intros Hm Hk s Hwf. unfold bind. destruct (Hm s Hwf) as [Hwf1 Hnd].
  destruct (m s) as [[a|e|] s1]; simpl in *;
    [apply Hk, Hwf1 | split; [exact Hwf1 | discriminate] | contradiction].
Qed.

Lemma lively_try {A} (m : M A) (h : string -> M A) :
  lively m -> (forall e, lively (h e)) -> lively (try_catch m h).
Proof.
  intros Hm Hh s Hwf. unfold try_catch. destruct (Hm s Hwf) as [Hwf1 Hnd].
  destruct (m s) as [[a|e|] s1]; simpl in *;
    [split; [exact Hwf1 | discriminate] | apply Hh, Hwf1 | contradiction].
Qed.

Lemma lively_log lvl name : lively (log_event lvl name).
Proof. intros s Hwf. split; [exact Hwf | discriminate]. Qed.

Lemma lively_sleep d : lively (sleep d).
Proof.
  intros s [Htok Hlast]. split; [|discriminate]. split; [exact Htok|].
  simpl. eapply Qle_trans; [exact Hlast | apply clock_advance_le].
Qed.

Lemma lively_stat_add name n : lively (stat_add name n).
Proof. intros s Hwf. split; [exact Hwf | discriminate]. Qed.

Lemma lively_store {A} q (run : stores -> A * stores) : lively (store_request q run).
Proof.
  intros s Hwf. rewrite store_request_run.
  destruct (storage_fault E (requests (io s))); split; try discriminate; exact Hwf.
Qed.

Ltac lively_step :=
  first
    [ assumption
    | match goal with H : context [lively] |- _ => solve [apply H] end
    | apply lively_ret | apply lively_raise | apply lively_gets
    | apply lively_log | apply lively_sleep | apply lively_stat_add
    | apply lively_store
    | apply lively_try; intros
    | apply lively_bind; intros
    | match goal with
      | |- lively (if ?b then _ else _) => destruct b
      | |- lively (match ?x with _ => _ end) => destruct x
      end ].

Ltac lively_tac := repeat lively_step.

Section Ends.
Hypothesis rate_positive : (0 < min_interval_ms cfg)%Q.
Variable fuel : nat.
Hypothesis enough_fuel : (token_fuel <= fuel)%nat.

Lemma lively_generate_embedding txt : lively (generate_embedding fuel txt).
Proof.
  assert (Hrest : forall s0, wf s0 ->
            wf (snd ((await_token fuel ;; embed_paced txt) s0))
            /\ fst ((await_token fuel ;; embed_paced txt) s0) <> Diverged).
  { intros s0 Hwf0. unfold bind.
    destruct (await_token_returns rate_positive s0 fuel Hwf0 enough_fuel)
      as (s1 & -> & Hpaced).
    destruct (behaves_embed_paced false txt s1) as [Hframe Hout].
    split; [apply (ef_wf _ _ Hframe), (paced_wf _ _ Hpaced)|].
    intros H. rewrite H in Hout. exact Hout. }
  intros s Hwf. rewrite generate_embedding_unfold.
  assert (Heq : (_ensure_cache_tables ;; await_token fuel ;; embed_paced txt) s
                = match _ensure_cache_tables s with
                  | (Ok _, s') => (await_token fuel ;; embed_paced txt) s'
                  | (Raised e, s') => (Raised e, s')
                  | (Diverged, s') => (Diverged, s')
                  end) by reflexivity.
  rewrite Heq, ensure_run. clear Heq.
  destruct (cache_initialized (eng s)) eqn:Hinit.
  - apply Hrest, Hwf.
  - destruct (storage_fault E (requests (io s))).
    + split; [exact Hwf | discriminate].
    + apply Hrest. unfold ensured. rewrite Hinit. exact Hwf.
Qed.

Lemma lively_drain_rows rows : forall recovered, lively (drain_rows fuel rows recovered).
Proof.
  induction rows as [|[k txt] rest IH]; intros recovered; cbn [drain_rows];
    [apply lively_ret|].
  apply lively_bind; [apply lively_generate_embedding|].
  intros [v|]; [|apply IH]. lively_tac.
Qed.

Lemma lively_drain_dlq max_items : lively (drain_dlq fuel max_items).
Proof. unfold drain_dlq. pose proof lively_drain_rows. lively_tac. Qed.

Lemma lively_get_queue_size : lively get_queue_size.
Proof. unfold get_queue_size. lively_tac. Qed.

Lemma lively_embed_rows rows : forall acc, lively (embed_rows fuel rows acc).
Proof.
  induction rows as [|row rest IH]; intros acc; cbn [embed_rows]; [apply lively_ret|].
  cbv zeta. apply lively_bind; [apply lively_generate_embedding|].
  intros [v|]; apply IH.
Qed.

Lemma lively_vectorize_batch batch_size : lively (vectorize_batch fuel batch_size).
Proof.
  unfold vectorize_batch, finish_batch, _write_to_mvm, _write_to_qdrant, qdrant_client_upsert.
  pose proof lively_embed_rows. lively_tac.
Qed.

Lemma lively_bulk_loop todo : forall total, lively (bulk_loop fuel todo total).
Proof.
  induction todo as [|b rest IH]; intros total; cbn [bulk_loop]; [apply lively_ret|].
  apply lively_bind; [apply lively_vectorize_batch|]. intros count.
  destruct (count =? 0); [apply lively_ret|].
  apply lively_bind; [apply lively_get_queue_size|]. intros remaining. lively_tac.
Qed.

Lemma lively_run_bulk_mode max_batches : lively (run_bulk_mode fuel max_batches).
Proof.
  unfold run_bulk_mode.
  pose proof (lively_drain_dlq 25). pose proof lively_get_queue_size.
  pose proof lively_bulk_loop. lively_tac.
Qed.

(** An operation that neither raises nor runs out of fuel returns. *)
Lemma returns {A} (m : M A) s :
  no_raise m -> lively m -> wf s -> exists a s', m s = (Ok a, s') /\ wf s'.
Proof.
  intros Hnr Hl Hwf. destruct (Hl s Hwf) as [Hwf' Hnd]. specialize (Hnr s).
  destruct (m s) as [[a|e|] s'] eqn:Hrun; simpl in *.
  - exists a, s'. split; [reflexivity | exact Hwf'].
  - exfalso. apply (Hnr e). reflexivity.
  - contradiction.
Qed.

Lemma instant_loop_returns rounds : forall total s,
  wf s -> NoDup (map rowid (chat_data (db s))) ->
  (Z.to_nat (queue_count (chat_data (db s))) < rounds)%nat ->
  exists n s', instant_loop rounds fuel total s = (Ok n, s') /\ wf s'.
Proof.
  induction rounds as [|rounds IH]; intros total s Hwf Hnd Hlt; [lia|].
  cbn [instant_loop]. unfold bind at 1.
  pose proof (get_queue_size_chat s) as Hq.
  destruct (returns get_queue_size s no_raise_get_queue_size lively_get_queue_size Hwf)
    as (size & s1 & Hsize & Hwf1).
  rewrite Hsize in Hq |- *. cbn [snd] in Hq.
  destruct (0 <? size); [|exists total, s1; split; [reflexivity | exact Hwf1]].
  unfold bind at 1.
  destruct (returns (vectorize_batch fuel 10) s1 (no_raise_vectorize_batch fuel 10)
              (lively_vectorize_batch 10) Hwf1) as (count & s2 & Hb & Hwf2).
  rewrite Hb. rewrite <- Hq in Hnd, Hlt.
  destruct (vectorize_batch_count _ _ _ _ _ Hnd Hb) as (Hcount & Hids & Hn & _).
  destruct (Z.eqb_spec count 0) as [->|Hne];
    [exists total, s2; split; [reflexivity | exact Hwf2]|].
  apply IH; [exact Hwf2 | rewrite Hids; exact Hnd | lia].
Qed.

(** Every operation returns. With a positive rate-limit interval, fuel
    for the pacing loop and a bucket without debt, and whatever the
    endpoint and the storage do, [drain_dlq], [vectorize_batch] and
    [run_bulk_mode] return normally; so does [run_instant_mode], whose
    loop ends after at most one batch per unprocessed row (row
    identifiers being unique), since a batch that marks nothing ends
    it. *)
Theorem operations_return (rounds : nat) (max_items batch_size max_batches : Z)
    (s : state) :
  wf s ->
  (exists s', drain_dlq fuel max_items s = (Ok tt, s') /\ wf s') /\
  (exists n s', vectorize_batch fuel batch_size s = (Ok n, s') /\ wf s') /\
  (exists n s', run_bulk_mode fuel max_batches s = (Ok n, s') /\ wf s') /\
  (NoDup (map rowid (chat_data (db s))) ->
   (Z.to_nat (queue_count (chat_data (db s))) < rounds)%nat ->
   exists n s', run_instant_mode rounds fuel s = (Ok n, s') /\ wf s').
Proof.
  intros Hwf. split.
  { destruct (returns _ s (no_raise_drain_dlq fuel max_items) (lively_drain_dlq max_items)
                Hwf) as ([] & s' & H). eauto. }
  split; [apply returns; [apply no_raise_vectorize_batch | apply lively_vectorize_batch
                         | exact Hwf]|].
  split; [apply returns; [apply no_raise_run_bulk_mode | apply lively_run_bulk_mode
                         | exact Hwf]|].
  intros Hnd Hlt. unfold run_instant_mode. unfold bind at 1.
  pose proof (drain_dlq_chat fuel 25 s) as Hd.
  destruct (returns _ s (no_raise_drain_dlq fuel 25) (lively_drain_dlq 25) Hwf)
    as ([] & s1 & Hdrain & Hwf1).
  rewrite Hdrain in Hd |- *. cbn [snd] in Hd. unfold bind at 1.
  pose proof (get_queue_size_chat s1) as Hq.
  destruct (returns get_queue_size s1 no_raise_get_queue_size lively_get_queue_size Hwf1)
    as (size & s2 & Hsize & Hwf2).
  rewrite Hsize in Hq |- *. cbn [snd] in Hq.
  destruct (size =? 0); [exists 0, s2; split; [reflexivity | exact Hwf2]|].
  unfold bind, log_event, modify.
  apply instant_loop_returns; [exact Hwf2 | |]; cbn [db chat_data with_io];
    rewrite Hq, Hd; assumption.
Qed.

End Ends.

(** ** The events of a run *)

Lemma extends_by s s' evs :
  trace (io s') = trace (io s) ++ evs -> extends s s' /\ events_since s s' = evs.
Proof.
  intros H. unfold extends, events_since. rewrite H, drop_app_length. split; reflexivity.
Qed.

Lemma extends_refl s : extends s s.
Proof. apply (extends_by s s []). rewrite app_nil_r. reflexivity. Qed.

Lemma extends_trans s1 s2 s3 : extends s1 s2 -> extends s2 s3 -> extends s1 s3.
Proof.
  intros H1 H2. eapply (extends_by s1 s3). rewrite H2, H1, <- app_assoc. reflexivity.
Qed.

Lemma events_since_app s1 s2 s3 :
  extends s1 s2 -> extends s2 s3 ->
  events_since s1 s3 = events_since s1 s2 ++ events_since s2 s3.
Proof.
  intros H1 H2. eapply (extends_by s1 s3). rewrite H2, H1, <- app_assoc. reflexivity.
Qed.

Lemma none_failed_split p s1 s2 s3 :
  extends s1 s2 -> extends s2 s3 ->
  none_failed p s1 s3 -> none_failed p s1 s2 /\ none_failed p s2 s3.
Proof.
  intros H1 H2. unfold none_failed. rewrite (events_since_app _ _ _ H1 H2), existsb_app.
  apply orb_false_elim.
Qed.

Lemma extends_same s s' : trace (io s') = trace (io s) -> extends s s'.
Proof. intros H. apply (extends_by s s' []). rewrite app_nil_r. exact H. Qed.

Lemma grows_modify_eng f : steady extends (modify (with_eng f)).
Proof. intros s. apply extends_same. reflexivity. Qed.

Lemma grows_emit ev : steady extends (modify (with_io (emit ev))).
Proof. intros s. apply (extends_by _ _ [ev]). reflexivity. Qed.

Lemma grows_count_request ev :
  steady extends (modify (with_io (fun w => count_request (emit ev w)))).
Proof. intros s. apply (extends_by _ _ [ev]). reflexivity. Qed.

Lemma grows_time : steady extends time_time.
Proof. intros s. apply (extends_by _ _ [EvNow]). reflexivity. Qed.

Lemma grows_sleep d : steady extends (sleep d).
Proof. intros s. apply (extends_by _ _ [EvSleep d]). reflexivity. Qed.

Lemma grows_uniform x y : steady extends (random_uniform x y).
Proof. intros s. apply (extends_by _ _ [EvRandom]). reflexivity. Qed.

Lemma grows_post txt : steady extends (http_post txt).
Proof.
  intros s. apply (extends_by _ _ [EvPost txt]). unfold http_post.
  destruct (inference E (posts (io s)) txt); reflexivity.
Qed.

Lemma grows_store {A} q (run : stores -> A * stores) : steady extends (store_request q run).
Proof.
  intros s. rewrite store_request_run.
  destruct (storage_fault E (requests (io s)));
    [apply (extends_by _ _ [EvStore q false]) | apply (extends_by _ _ [EvStore q true])];
    reflexivity.
Qed.

Ltac grows_step :=
  first
    [ assumption
    | match goal with H : context [steady] |- _ => solve [apply H] end
    | apply steady_ret, extends_refl | apply steady_raise, extends_refl
    | apply steady_diverge, extends_refl | apply steady_gets, extends_refl
    | apply grows_modify_eng | apply grows_emit | apply grows_count_request
    | apply grows_time | apply grows_sleep | apply grows_uniform | apply grows_post
    | apply grows_store
    | apply (steady_try extends extends_trans); intros
    | apply (steady_bind extends extends_trans); intros
    | match goal with
      | |- steady _ (if ?b then _ else _) => destruct b
      | |- steady _ (match ?x with _ => _ end) => destruct x
      end ].

Ltac grows_tac := repeat grows_step.

Lemma grows_await_token fuel : steady extends (await_token fuel).
Proof.
  induction fuel as [|fuel IH]; cbn [await_token]; [grows_tac|].
  apply (steady_bind extends extends_trans); [unfold _take_token; grows_tac|].
  intros [|]; grows_tac.
Qed.

Lemma grows_retry_loop txt k todo : steady extends (retry_loop todo txt k).
Proof.
  induction todo as [|attempt rest IH]; cbn [retry_loop]; [grows_tac|].
  unfold attempt_once, cache_write, dlq_write, stat_add, log_event.
  grows_tac.
Qed.

Lemma grows_generate_embedding fuel txt : steady extends (generate_embedding fuel txt).
Proof.
  rewrite generate_embedding_unfold.
  apply (steady_bind extends extends_trans); [unfold _ensure_cache_tables; grows_tac|].
  intros _.
  apply (steady_bind extends extends_trans); [apply grows_await_token|]. intros _.
  unfold embed_paced, cache_check, _cool_if_cb_open, stat_add, log_event.
  pose proof grows_retry_loop. grows_tac.
Qed.

Lemma grows_embed_each fuel rows : steady extends (embed_each fuel rows).
Proof.
  induction rows as [|row rest IH]; cbn [embed_each]; [grows_tac|].
  pose proof grows_generate_embedding. grows_tac.
Qed.

Lemma grows_write_to_mvm vs : steady extends (_write_to_mvm vs).
Proof. unfold _write_to_mvm, stat_add, log_event. grows_tac. Qed.

Lemma grows_write_to_qdrant vs : steady extends (_write_to_qdrant vs).
Proof.
  unfold _write_to_qdrant, qdrant_client_upsert, stat_add, log_event. grows_tac.
Qed.

Lemma extends_logged lvl name s : extends s (logged lvl name s).
Proof. apply (grows_emit (EvLog lvl name) s). Qed.

Lemma extends_requested q ok s : extends s (requested q ok s).
Proof. apply (grows_count_request (EvStore q ok) s). Qed.

Lemma extends_sunk acc s : extends s (sunk acc s).
Proof.
  unfold sunk. destruct (acc_vectors acc) as [|v vs]; [apply extends_refl|].
  pose proof (grows_write_to_mvm (v :: vs) s) as Hm. rewrite write_to_mvm_run in Hm.
  destruct (to_mvm (target cfg)), (to_qdrant (target cfg)).
  - eapply extends_trans; [exact Hm|].
    pose proof (grows_write_to_qdrant (v :: vs) (mvm_written (v :: vs) s)) as Hq.
    rewrite write_to_qdrant_run in Hq. exact Hq.
  - exact Hm.
  - pose proof (grows_write_to_qdrant (v :: vs) s) as Hq.
    rewrite write_to_qdrant_run in Hq. exact Hq.
  - apply extends_refl.
Qed.

(** ** C1 and C2: what a batch marks *)

(** *** An embedding request that raises, and one that fails for good *)

Lemma generate_embedding_raised fuel txt s e s' :
  generate_embedding fuel txt s = (Raised e, s') ->
  s' = requested SqlEnsureTables false s.
Proof.
  assert (Hrest : forall s0, fst ((await_token fuel ;; embed_paced txt) s0) <> Raised e).
  { intros s0. unfold bind.
    destruct (await_token fuel s0) as [[[]|e'|] s1] eqn:Hawait; simpl;
      [| intros [= <-]; apply (await_token_no_raise fuel s0 e'); rewrite Hawait; reflexivity
       | discriminate].
    pose proof (proj2 (behaves_embed_paced false txt s1)) as H.
    destruct (embed_paced txt s1) as [[r|e'|] s2]; simpl in *; discriminate. }
  rewrite generate_embedding_unfold. unfold bind at 1. rewrite ensure_run.
  destruct (cache_initialized (eng s)).
  - intros H. exfalso. apply (Hrest s). rewrite H. reflexivity.
  - destruct (storage_fault E (requests (io s))); [intros [= _ <-]; reflexivity|].
    intros H. exfalso. apply (Hrest (ensured s)). rewrite H. reflexivity.
Qed.

Lemma grows_ensure : steady extends _ensure_cache_tables.
Proof. unfold _ensure_cache_tables. grows_tac. Qed.

Lemma grows_cache_check k : steady extends (cache_check k).
Proof. unfold cache_check, stat_add, log_event. grows_tac. Qed.

Lemma grows_cool : steady extends _cool_if_cb_open.
Proof. unfold _cool_if_cb_open, stat_add, log_event. grows_tac. Qed.

(** A retry loop that returns [None] after reaching the last attempt
    ends in [gave_up], with the error of its last call. *)
Lemma retry_loop_gave_up txt k todo : forall s s',
  retry_loop todo txt k s = (Ok None, s') ->
  Exists (fun a => attempts cfg - 1 <= a) todo ->
  exists s0 e,
    s' = gave_up k txt e s0 /\ extends s s0 /\
    embed_dlq (db s0) = embed_dlq (db s) /\
    attempt_result (Nat.pred (posts (io s0))) txt = inl e.
Proof.
  induction todo as [|attempt rest IH]; intros s s' Hrun Hex.
  { inversion Hex. }
  rewrite retry_loop_step in Hrun.
  destruct (attempt_result (posts (io s)) txt) as [e|vec] eqn:Hres; [|discriminate].
  destruct (Z.ltb_spec attempt (attempts cfg - 1)) as [Hlt|Hge].
  - apply IH in Hrun.
    + destruct Hrun as (s0 & e0 & Hs' & Hext & Hdlq & Hlast).
      exists s0, e0. split; [exact Hs'|]. split; [|split; [exact Hdlq | exact Hlast]].
      eapply extends_trans; [|exact Hext].
      eapply (extends_by s). simpl. rewrite <- !app_assoc. reflexivity.
    + inversion Hex as [? ? Hhd|? ? Htl]; subst; [lia | exact Htl].
  - injection Hrun as <-. exists (failed_attempt txt s), e.
    split; [reflexivity|]. split; [|split; [reflexivity | exact Hres]].
    eapply (extends_by s). reflexivity.
Qed.

Lemma gave_up_cases k txt e s :
  extends s (gave_up k txt e s) /\
  posts (io (gave_up k txt e s)) = posts (io s) /\
  (none_failed queue_or_dlq s (gave_up k txt e s) ->
   embed_dlq (db (gave_up k txt e s))
   = dlq_upsert k txt e (second_of (clock (io s))) (embed_dlq (db s))).
Proof.
  unfold gave_up, dlq_written, none_failed.
  destruct (storage_fault E (requests (io s))).
  - destruct (extends_by s
                (logged ERROR "embedding_failed_final"
                   (logged ERROR "dlq_write_failed" (requested (SqlDlqUpsert k) false s)))
                [EvStore (SqlDlqUpsert k) false; EvLog ERROR "dlq_write_failed";
                 EvLog ERROR "embedding_failed_final"]) as [Hext Hev].
    { simpl. rewrite <- !app_assoc. reflexivity. }
    split; [exact Hext|]. split; [reflexivity|]. rewrite Hev. discriminate.
  - split; [|split; [reflexivity | reflexivity]].
    eapply (extends_by s). simpl. rewrite <- !app_assoc. reflexivity.
Qed.

Lemma embed_paced_failed txt s s' :
  1 <= attempts cfg ->
  embed_paced txt s = (Ok None, s') ->
  let t := _norm_text txt default_max_chars in
  exists s0 e,
    t <> [] /\ s' = gave_up (_hash_key t) t e s0 /\ extends s s0 /\
    embed_dlq (db s0) = embed_dlq (db s) /\
    attempt_result (Nat.pred (posts (io s0))) t = inl e.
Proof.
  intros Hatt Hrun t. unfold embed_paced in Hrun. fold t in Hrun.
  destruct t as [|c t'] eqn:Ht; [discriminate|]. cbv zeta in Hrun.
  pose proof (grows_cache_check (_hash_key (c :: t')) s) as Hcheck.
  unfold bind at 1 in Hrun.
  destruct (cache_check (_hash_key (c :: t')) s) as [[[vec|]| |] s1] eqn:Hc;
    try discriminate.
  assert (Hdlq1 : embed_dlq (db s1) = embed_dlq (db s)).
  { rewrite cache_check_run in Hc. destruct (storage_fault E (requests (io s)));
      [injection Hc as <-; reflexivity|].
    destruct (cache_select _ _); [discriminate|]. injection Hc as <-. reflexivity. }
  pose proof (grows_cool s1) as Hcool. unfold bind in Hrun. rewrite cool_run in Hrun, Hcool.
  cbn [snd] in Hcheck, Hcool.
  apply retry_loop_gave_up in Hrun.
  - destruct Hrun as (s0 & e & Hs' & Hext & Hdlq & Hlast).
    exists s0, e. split; [discriminate|]. split; [exact Hs'|].
    split; [eauto using extends_trans|]. split; [|exact Hlast].
    rewrite Hdlq, <- Hdlq1.
    destruct (cb_threshold cfg <=? cb_failures (eng s1)); reflexivity.
  - apply Exists_exists. exists (attempts cfg - 1).
    split; [apply list_elem_of_In, py_range_last, Hatt | lia].
Qed.

(** A permanent failure of [generate_embedding], with at least one
    attempt configured and its write to the dead letter queue not
    failing, is one upsert of the normalised text under its content hash,
    with the error of the last call. *)
Lemma generate_embedding_failed fuel txt s s' :
  1 <= attempts cfg ->
  generate_embedding fuel txt s = (Ok None, s') ->
  none_failed queue_or_dlq s s' ->
  let t := _norm_text txt default_max_chars in
  exists e now,
    t <> [] /\
    attempt_result (Nat.pred (posts (io s'))) t = inl e /\
    embed_dlq (db s') = dlq_upsert (_hash_key t) t e now (embed_dlq (db s)).
Proof.
  intros Hatt Hrun Hnone t.
  destruct (generate_embedding_inv fuel txt s None s' Hrun)
    as (s1 & Hens & Hawait & Hpaced & Hrest & _).
  pose proof (grows_ensure s) as He. rewrite Hens in He.
  pose proof (grows_await_token fuel (ensured s)) as Ha. rewrite Hawait in Ha.
  cbn [snd] in He, Ha.
  destruct (embed_paced_failed txt s1 s' Hatt Hrest) as (s0 & e & Hne & Hs' & Hext & Hdlq & Hlast).
  destruct (gave_up_cases (_hash_key t) t e s0) as (Hg & Hposts & Hup). fold t in Hs'.
  rewrite <- Hs' in Hg, Hup, Hposts.
  assert (Hs0 : extends s s0) by eauto using extends_trans.
  destruct (none_failed_split _ _ _ _ Hs0 Hg Hnone) as [_ Hnone0].
  exists e, (second_of (clock (io s0))). split; [exact Hne|].
  split; [rewrite Hposts; exact Hlast|].
  rewrite (Hup Hnone0), Hdlq, (paced_db _ _ Hpaced).
  unfold ensured. destruct (cache_initialized (eng s)); reflexivity.
Qed.

Lemma dlq_kept_refl d : dlq_kept d d.
Proof. intros k r Hr. exists r. split; [exact Hr | lia]. Qed.

Lemma dlq_kept_trans d1 d2 d3 : dlq_kept d1 d2 -> dlq_kept d2 d3 -> dlq_kept d1 d3.
Proof.
  intros H1 H2 k r Hr. destruct (H1 k r Hr) as (r1 & Hr1 & Hle1).
  destruct (H2 k r1 Hr1) as (r2 & Hr2 & Hle2). exists r2. split; [exact Hr2 | lia].
Qed.

Lemma generate_embedding_dlq_kept fuel txt s :
  dlq_kept (db s) (db (snd (generate_embedding fuel txt s))).
Proof.
  apply (stores_generate_embedding dlq_kept).
  - apply dlq_kept_refl.
  - apply dlq_kept_trans.
  - intros r d k0 r0 Hr. exists r0. split; [exact Hr | lia].
  - intros k txt' e now d k0 r Hr. simpl. apply dlq_upsert_keeps, Hr.
Qed.

(** *** The calls of a batch, whatever fails *)

Lemma extends_finished acc s : extends s (finished acc s).
Proof.
  unfold finished, partial_logged.
  assert (H : extends s
                match rowids_success acc with
                | [] => sunk acc s
                | ids =>
                    logged INFO "batch_complete"
                      (with_db (set_chat_data (queue_update ids (chat_data (db (sunk acc s)))))
                         (requested (SqlQueueUpdate ids) true (sunk acc s)))
                end).
  { destruct (rowids_success acc) as [|i ids]; [apply extends_sunk|].
    eapply extends_trans; [apply extends_sunk|].
    eapply (extends_by (sunk acc s)). simpl. rewrite <- !app_assoc. reflexivity. }
  destruct (failed acc); [exact H|].
  eapply extends_trans; [exact H | apply extends_logged].
Qed.

(** [vectorize_batch], step by step: the read of the queue, the calls,
    the sinks and the update, with the exception that each can end in. *)
Lemma vectorize_batch_unfold fuel batch_size s :
  let rows := queue_select batch_size (chat_data (db s)) in
  vectorize_batch fuel batch_size s =
  match storage_fault E (requests (io s)) with
  | Some _ => (Ok 0, logged ERROR "batch_failed" (requested SqlQueueSelect false s))
  | None =>
      match embed_each fuel rows (batch_started rows s) with
      | (Ok results, s1) =>
          let acc := collect rows results empty_acc in
          match rowids_success acc, storage_fault E (requests (io (sunk acc s1))) with
          | _ :: _, Some _ =>
              (Ok 0, logged ERROR "batch_failed"
                       (requested (SqlQueueUpdate (rowids_success acc)) false (sunk acc s1)))
          | _, _ => (Ok (Z.of_nat (length (rowids_success acc))), finished acc s1)
          end
      | (Raised e, s1) => (Ok 0, logged ERROR "batch_failed" s1)
      | (Diverged, s1) => (Diverged, s1)
      end
  end.
Proof.
  intros rows. unfold vectorize_batch, try_catch. unfold bind at 1.
  rewrite store_request_run.
  destruct (storage_fault E (requests (io s))); [reflexivity|].
  cbn [fst snd]. fold rows.
  assert (Hs0 : with_db (fun _ => db s) (requested SqlQueueSelect true s)
                = requested SqlQueueSelect true s) by (destruct s; reflexivity).
  rewrite Hs0. destruct rows as [|row rest] eqn:Hrows; [reflexivity|].
  unfold bind at 1. unfold log_event at 1, modify at 1.
  fold (logged INFO "batch_start" (requested SqlQueueSelect true s)).
  unfold bind at 1. rewrite embed_rows_each.
  change (logged INFO "batch_start" (requested SqlQueueSelect true s))
    with (batch_started (row :: rest) s).
  destruct (embed_each fuel (row :: rest) (batch_started (row :: rest) s))
    as [[results|e|] s1]; try reflexivity.
  rewrite finish_batch_run. cbv zeta. unfold finished.
  destruct (rowids_success (collect (row :: rest) results empty_acc)) as [|i ids];
    [reflexivity|].
  destruct (storage_fault E (requests (io (sunk _ s1)))); reflexivity.
Qed.

Section Contract.
Hypothesis rate_positive : (0 < min_interval_ms cfg)%Q.
Variable fuel : nat.
Hypothesis enough_fuel : (token_fuel <= fuel)%nat.

(** The calls of a batch either all return, or the table check of one of
    them raises. The queue is not touched meanwhile and entries of the
    dead letter queue stay. A row with empty text gets the empty list;
    if no request to the dead letter store failed and at least one
    attempt is configured, each row whose call returned [None] has an
    entry when the calls are over. *)
Lemma embed_each_outcome rows : forall s,
  wf s ->
  match embed_each fuel rows s with
  | (Ok results, s1) =>
      length results = length rows /\ wf s1 /\ extends s s1 /\
      chat_data (db s1) = chat_data (db s) /\
      dlq_kept (db s) (db s1) /\
      (forall i row, rows !! i = Some row ->
         _norm_text (text_of row) default_max_chars = [] ->
         results !! i = Some (Some [])) /\
      (none_failed queue_or_dlq s s1 -> 1 <= attempts cfg ->
       forall i row, rows !! i = Some row -> results !! i = Some None ->
         exists r, dlq_find (key_of row) (embed_dlq (db s1)) = Some r)
  | (Raised e, s1) =>
      extends s s1 /\ existsb (failure_of queue_or_dlq) (events_since s s1) = true
  | (Diverged, _) => False
  end.
Proof.
  induction rows as [|row rest IH]; intros s Hwf.
  { simpl. split; [reflexivity|]. split; [exact Hwf|]. split; [apply extends_refl|].
    split; [reflexivity|]. split; [apply dlq_kept_refl|].
    split; intros; discriminate. }
  cbn [embed_each]. unfold bind.
  destruct (lively_generate_embedding rate_positive fuel enough_fuel (text_of row) s Hwf)
    as [Hwf1 Hnd].
  pose proof (grows_generate_embedding fuel (text_of row) s) as Hext1.
  pose proof (generate_embedding_dlq_kept fuel (text_of row) s) as Hkept1.
  assert (Hchat1 : same_queue s (snd (generate_embedding fuel (text_of row) s)))
    by (apply (keeps_generate_embedding same_queue); frame_side).
  destruct (generate_embedding fuel (text_of row) s) as [[r|e|] s1] eqn:Hrun;
    cbn [fst snd] in *; [| |contradiction].
  2:{ split; [exact Hext1|].
      apply generate_embedding_raised in Hrun. subst s1.
      destruct (extends_by s (requested SqlEnsureTables false s)
                  [EvStore SqlEnsureTables false] eq_refl) as [_ ->]. reflexivity. }
  specialize (IH s1 Hwf1).
  destruct (embed_each fuel rest s1) as [[results|e|] s2] eqn:Heach; [| |contradiction].
  2:{ destruct IH as [Hext2 Hfail]. split; [eauto using extends_trans|].
      rewrite (events_since_app _ _ _ Hext1 Hext2), existsb_app, Hfail.
      apply orb_true_r. }
  destruct IH as (Hlen & Hwf2 & Hext2 & Hchat2 & Hkept2 & Hempty & Hdlq).
  split; [simpl; congruence|]. split; [exact Hwf2|].
  split; [eauto using extends_trans|].
  split; [unfold same_queue in Hchat1; congruence|].
  split; [eauto using dlq_kept_trans|].
  split.
  { intros [|i] row' Hrow Hnorm; simpl in Hrow |- *; [|eapply Hempty; eassumption].
    injection Hrow as <-.
    destruct (generate_embedding_inv _ _ _ _ _ Hrun) as (s0 & _ & _ & _ & Hrest & _).
    rewrite (embed_paced_empty _ s0 Hnorm) in Hrest. injection Hrest as <- _.
    reflexivity. }
  intros Hnone Hatt.
  destruct (none_failed_split _ _ _ _ Hext1 Hext2 Hnone) as [Hnone1 Hnone2].
  intros [|i] row' Hrow Hres; simpl in Hrow, Hres; [|eapply Hdlq; eassumption].
  injection Hrow as <-. injection Hres as ->.
  destruct (generate_embedding_failed _ _ _ _ Hatt Hrun Hnone1) as (e & now & _ & _ & Hup).
  assert (Hnew : exists r1, dlq_find (key_of row) (embed_dlq (db s1)) = Some r1).
  { rewrite Hup. fold (key_of row).
    destruct (dlq_find (key_of row) (embed_dlq (db s))) as [r0|] eqn:Hold.
    - eexists. apply dlq_upsert_find_present, Hold.
    - eexists. apply dlq_upsert_find_absent, Hold. }
  destruct Hnew as (r1 & Hr1). destruct (Hkept2 _ _ Hr1) as (r2 & Hr2 & _).
  exists r2. exact Hr2.
Qed.

(** What a batch has marked when it returns: if no request to the work
    queue or to the dead letter store raised meanwhile, exactly the rows
    whose call returned something other than [None]. *)
Lemma vectorize_batch_marks (batch_size : Z) (s : state) :
  wf s -> NoDup (map rowid (chat_data (db s))) ->
  let rows := queue_select batch_size (chat_data (db s)) in
  exists n s',
     vectorize_batch fuel batch_size s = (Ok n, s') /\
     (none_failed queue_or_dlq s s' ->
      exists results s1,
        embed_each fuel rows (batch_started rows s) = (Ok results, s1) /\
        length results = length rows /\
        n = Z.of_nat (length (succeeded_rows rows results)) /\
        chat_data (db s')
        = queue_update (map rowid (succeeded_rows rows results)) (chat_data (db s)) /\
        (forall i row res,
           rows !! i = Some row -> results !! i = Some res ->
           processed_of (rowid row) (chat_data (db s)) = Some 0 /\
           processed_of (rowid row) (chat_data (db s'))
           = Some (match res with Some _ => 1 | None => 0 end) /\
           (res = None -> 1 <= attempts cfg ->
            exists r, dlq_find (key_of row) (embed_dlq (db s')) = Some r)) /\
        (forall id, ~ In id (map rowid rows) ->
           processed_of id (chat_data (db s')) = processed_of id (chat_data (db s)))).
Proof.
  intros Hwf Hnd rows.
  pose proof (vectorize_batch_unfold fuel batch_size s) as Hrun. cbv zeta in Hrun.
  fold rows in Hrun.
  destruct (storage_fault E (requests (io s))) eqn:Hselect.
  { eexists _, _. split; [exact Hrun|]. intros Hnone. exfalso.
    unfold none_failed in Hnone.
    destruct (extends_by s (logged ERROR "batch_failed" (requested SqlQueueSelect false s))
                [EvStore SqlQueueSelect false; EvLog ERROR "batch_failed"]) as [_ Hev].
    { simpl. rewrite <- !app_assoc. reflexivity. }
    rewrite Hev in Hnone. discriminate. }
  assert (Hext0 : extends s (batch_started rows s)).
  { unfold batch_started. destruct rows; [apply extends_requested|].
    eapply extends_trans; [apply extends_requested | apply extends_logged]. }
  assert (Hwf0 : wf (batch_started rows s)) by (destruct rows; exact Hwf).
  assert (Hchat0 : chat_data (db (batch_started rows s)) = chat_data (db s))
    by (destruct rows; reflexivity).
  assert (Hdlq0 : embed_dlq (db (batch_started rows s)) = embed_dlq (db s))
    by (destruct rows; reflexivity).
  pose proof (embed_each_outcome rows (batch_started rows s) Hwf0) as Hout.
  destruct (embed_each fuel rows (batch_started rows s)) as [[results|e|] s1] eqn:Heach;
    [| |contradiction].
  2:{ destruct Hout as [Hext1 Hfail].
      eexists _, _. split; [exact Hrun|]. intros Hnone. exfalso.
      assert (Hext : extends s s1) by eauto using extends_trans.
      destruct (none_failed_split _ _ _ _ Hext (extends_logged ERROR "batch_failed" s1) Hnone)
        as [Hnone1 _].
      destruct (none_failed_split _ _ _ _ Hext0 Hext1 Hnone1) as [_ Hnone2].
      unfold none_failed in Hnone2. congruence. }
  destruct Hout as (Hlen & _ & Hext1 & Hchat & _ & _ & Hdlq).
  cbv zeta in Hrun. set (acc := collect rows results empty_acc) in *.
  assert (Hids : rowids_success acc = map rowid (succeeded_rows rows results)).
  { unfold acc. rewrite collect_rowids. reflexivity. }
  assert (Hfailed_update :
    forall ids, none_failed queue_or_dlq s
                  (logged ERROR "batch_failed"
                     (requested (SqlQueueUpdate ids) false (sunk acc s1))) -> False).
  { intros ids Hnone.
    assert (Hext : extends s (sunk acc s1))
      by (eauto using extends_trans, extends_sunk).
    destruct (extends_by (sunk acc s1)
                (logged ERROR "batch_failed"
                   (requested (SqlQueueUpdate ids) false (sunk acc s1)))
                [EvStore (SqlQueueUpdate ids) false; EvLog ERROR "batch_failed"])
      as [Hext' Hev].
    { simpl. rewrite <- !app_assoc. reflexivity. }
    destruct (none_failed_split _ _ _ _ Hext Hext' Hnone) as [_ Hnone'].
    unfold none_failed in Hnone'. rewrite Hev in Hnone'. discriminate. }
  assert (Hcase :
    vectorize_batch fuel batch_size s
    = (Ok 0, logged ERROR "batch_failed"
               (requested (SqlQueueUpdate (rowids_success acc)) false (sunk acc s1))) \/
    vectorize_batch fuel batch_size s
    = (Ok (Z.of_nat (length (rowids_success acc))), finished acc s1)).
  { destruct (rowids_success acc) as [|i ids]; [right; exact Hrun|].
    destruct (storage_fault E (requests (io (sunk acc s1)))); [left | right]; exact Hrun. }
  clear Hrun. destruct Hcase as [Hrun | Hrun].
  { eexists _, _. split; [exact Hrun|]. intros Hnone. exfalso.
    eapply Hfailed_update, Hnone. }
  eexists _, _. split; [exact Hrun|]. intros Hnone.
  destruct (none_failed_split _ _ _ _ (extends_trans _ _ _ Hext0 Hext1)
              (extends_finished acc s1) Hnone) as [Hnone1 _].
  destruct (none_failed_split _ _ _ _ Hext0 Hext1 Hnone1) as [_ Hnone2].
  exists results, s1.
  assert (Hfinal : chat_data (db (finished acc s1))
                   = queue_update (map rowid (succeeded_rows rows results))
                       (chat_data (db s))).
  { rewrite chat_finished, Hids, Hchat, Hchat0. reflexivity. }
  split; [reflexivity|]. split; [exact Hlen|].
  split; [rewrite Hids, length_map; reflexivity|].
  split; [exact Hfinal|]. split.
  - intros i row res Hrow Hres.
    assert (Hin : In row rows).
    { apply list_elem_of_In. eapply list_elem_of_lookup_2, Hrow. }
    apply queue_select_in in Hin as [Hin Hflag].
    pose proof (processed_of_unique _ _ Hnd Hin) as Hbefore. rewrite Hflag in Hbefore.
    split; [exact Hbefore|]. split.
    + rewrite Hfinal, processed_of_update, Hbefore.
      rewrite (success_ids rows results i row res
                 (nodup_rowid_select batch_size _ Hnd) Hrow Hres).
      destruct res; reflexivity.
    + intros -> Hatt. rewrite dlq_finished. eapply (Hdlq Hnone2 Hatt); eassumption.
  - intros id Hout. rewrite Hfinal, processed_of_update.
    rewrite (outside_ids rows results id Hout).
    destruct (processed_of id (chat_data (db s))); reflexivity.
Qed.


(** C1, as the code has it. A batch returns, whatever the endpoint and
    the stores do. If during the batch no request to the work queue or
    to the dead letter store raised (requests to the cache and to the
    sinks may have), the calls to [generate_embedding] all returned and
    the batch has marked as processed exactly the rows whose call
    returned something other than [None], a vector or the empty list of
    an empty text; it returns their number. A row whose call returned
    [None] keeps [processed = 0] and, with at least one attempt
    configured, has an entry in the dead letter queue at the end of the
    batch; rows outside the batch keep their flag. Right after a call
    that returned [None] for a text whose key had no entry, and whose
    write to the dead letter store did not fail, the queue holds exactly
    one entry for it, with [attempts = 1], the normalised text and the
    error of the last attempt. *)
Theorem partial_failure_contract (batch_size : Z) (s : state) :
  wf s -> NoDup (map rowid (chat_data (db s))) ->
  let rows := queue_select batch_size (chat_data (db s)) in
  (exists n s',
     vectorize_batch fuel batch_size s = (Ok n, s') /\
     (none_failed queue_or_dlq s s' ->
      exists results s1,
        embed_each fuel rows (batch_started rows s) = (Ok results, s1) /\
        length results = length rows /\
        n = Z.of_nat (length (succeeded_rows rows results)) /\
        chat_data (db s')
        = queue_update (map rowid (succeeded_rows rows results)) (chat_data (db s)) /\
        (forall i row res,
           rows !! i = Some row -> results !! i = Some res ->
           processed_of (rowid row) (chat_data (db s)) = Some 0 /\
           processed_of (rowid row) (chat_data (db s'))
           = Some (match res with Some _ => 1 | None => 0 end) /\
           (res = None -> 1 <= attempts cfg ->
            exists r, dlq_find (key_of row) (embed_dlq (db s')) = Some r)) /\
        (forall id, ~ In id (map rowid rows) ->
           processed_of id (chat_data (db s')) = processed_of id (chat_data (db s))))) /\
  (forall txt s0 s0',
     1 <= attempts cfg ->
     NoDup (map d_key (embed_dlq (db s0))) ->
     let t := _norm_text txt default_max_chars in
     dlq_find (_hash_key t) (embed_dlq (db s0)) = None ->
     generate_embedding fuel txt s0 = (Ok None, s0') ->
     none_failed queue_or_dlq s0 s0' ->
     exists e now,
       attempt_result (Nat.pred (posts (io s0'))) t = inl e /\
       dlq_entries (_hash_key t) (embed_dlq (db s0'))
       = [{| d_key := _hash_key t; d_text := t;
             d_last_error := e; d_attempts := 1; d_last_attempt_at := now |}]).
Proof.
  intros Hwf Hnd rows. split; [exact (vectorize_batch_marks batch_size s Hwf Hnd)|].
  intros txt s0 s0' Hatt Hkeys t Habs Hrun Hnone.
      destruct (generate_embedding_failed fuel txt s0 s0' Hatt Hrun Hnone)
        as (e & now & _ & Hlast & Hup).
      exists e, now. split; [exact Hlast|]. rewrite Hup. fold t.
      rewrite dlq_upsert_entries by exact Hkeys. rewrite Habs. reflexivity.
Qed.


End Contract.

(** ** A run with a healthy endpoint and storage *)

Section Healthy.
Hypothesis rate_positive : (0 < min_interval_ms cfg)%Q.
Hypothesis storage_works : storage_ok.
Hypothesis endpoint_works : endpoint_ok.
Hypothesis one_attempt : 1 <= attempts cfg.
Variable fuel : nat.
Hypothesis enough_fuel : (token_fuel <= fuel)%nat.

Lemma embed_paced_answers txt s :
  exists v s', embed_paced txt s = (Ok (Some v), s').
Proof.
  unfold embed_paced. destruct (_norm_text txt default_max_chars) as [|c t];
    [eexists _, _; reflexivity|].
  cbv zeta. unfold bind at 1. rewrite cache_check_run, storage_works.
  destruct (cache_select _ _); [eexists _, _; reflexivity|].
  unfold bind. rewrite cool_run. unfold py_range.
  destruct (Z.to_nat (attempts cfg)) as [|m] eqn:Hm; [lia|].
  cbn [seq map]. rewrite retry_loop_step.
  match goal with |- context [attempt_result ?n ?t] =>
    destruct (endpoint_works n t) as (vec & ->) end.
  eexists _, _; reflexivity.
Qed.

Lemma generate_embedding_answers txt s :
  wf s ->
  exists v s', generate_embedding fuel txt s = (Ok (Some v), s') /\ wf s'.
Proof.
  intros Hwf.
  destruct (generate_embedding_steps fuel txt s rate_positive enough_fuel Hwf
              (or_intror (storage_works _)))
    as (s1 & r & s' & _ & Hpaced & Hrest & Hframe & Hrun).
  destruct (embed_paced_answers txt s1) as (v & s2 & Hans).
  rewrite Hans in Hrest. injection Hrest as <- <-.
  exists v, s2. split; [exact Hrun|].
  apply (ef_wf _ _ Hframe), (paced_wf _ _ Hpaced).
Qed.

Lemma embed_each_answers rows : forall s,
  wf s ->
  exists results s',
    embed_each fuel rows s = (Ok results, s') /\ succeeded_rows rows results = rows.
Proof.
  induction rows as [|row rest IH]; intros s Hwf.
  - exists [], s. split; reflexivity.
  - destruct (generate_embedding_answers (text_of row) s Hwf) as (v & s1 & Hrun & Hwf1).
    destruct (IH s1 Hwf1) as (results & s' & Heach & Hall).
    exists (Some v :: results), s'. cbn [embed_each]. unfold bind.
    rewrite Hrun, Heach. split; [reflexivity|]. simpl. rewrite Hall. reflexivity.
Qed.

Lemma batch_healthy batch_size s :
  wf s -> NoDup (map rowid (chat_data (db s))) ->
  exists s',
    vectorize_batch fuel batch_size s
    = (Ok (Z.of_nat (length (queue_select batch_size (chat_data (db s))))), s') /\
    wf s' /\
    queue_count (chat_data (db s'))
    = queue_count (chat_data (db s))
      - Z.of_nat (length (queue_select batch_size (chat_data (db s)))) /\
    map rowid (chat_data (db s')) = map rowid (chat_data (db s)).
Proof.
  intros Hwf Hnd.
  destruct (vectorize_batch_run rate_positive storage_works fuel enough_fuel batch_size s Hwf)
    as (results & s1 & Heach & _ & _ & _ & _ & Hrun).
  set (rows := queue_select batch_size (chat_data (db s))) in *.
  assert (Hwf0 : wf (batch_started rows s)) by (destruct rows; exact Hwf).
  destruct (embed_each_answers rows _ Hwf0) as (results' & s1' & Heach' & Hall).
  rewrite Heach in Heach'. injection Heach' as <- <-. rewrite Hall in Hrun.
  eexists. split; [exact Hrun|].
  split.
  { pose proof (proj1 (lively_vectorize_batch rate_positive fuel enough_fuel batch_size
                         s Hwf)) as H.
    rewrite Hrun in H. exact H. }
  destruct (vectorize_batch_count _ _ _ _ _ Hnd Hrun) as (Hcount & Hids & _).
  split; assumption.
Qed.

Lemma get_queue_size_ok s :
  get_queue_size s = (Ok (queue_count (chat_data (db s))), requested SqlQueueCount true s).
Proof.
  unfold get_queue_size, try_catch. rewrite store_request_run, storage_works.
  destruct s as [e d w]. reflexivity.
Qed.

Lemma queue_select_some n table :
  1 <= n -> 1 <= queue_count table -> 1 <= Z.of_nat (length (queue_select n table)).
Proof.
  unfold queue_select, sql_limit, queue_count. intros Hn Hq.
  destruct (Z.ltb_spec n 0); [lia|]. rewrite length_firstn. lia.
Qed.

Lemma instant_loop_healthy rounds : forall total s,
  wf s -> NoDup (map rowid (chat_data (db s))) ->
  (Z.to_nat (queue_count (chat_data (db s))) < rounds)%nat ->
  exists s',
    instant_loop rounds fuel total s
    = (Ok (total + queue_count (chat_data (db s))), s') /\
    queue_count (chat_data (db s')) = 0.
Proof.
  induction rounds as [|rounds IH]; intros total s Hwf Hnd Hlt; [lia|].
  assert (Hq0 : 0 <= queue_count (chat_data (db s))) by (unfold queue_count; lia).
  cbn [instant_loop]. unfold bind at 1. rewrite get_queue_size_ok. cbv beta iota.
  destruct (Z.ltb_spec 0 (queue_count (chat_data (db s)))) as [Hpos|Hzero].
  2: { exists (requested SqlQueueCount true s).
       split; [unfold ret; do 2 f_equal; lia|].
       cbn [db chat_data requested with_io]. lia. }
  unfold bind at 1.
  destruct (batch_healthy 10 (requested SqlQueueCount true s) Hwf Hnd)
    as (s2 & Hb & Hwf2 & Hcount & Hids).
  cbn [db chat_data requested with_io] in Hb, Hcount, Hids. rewrite Hb.
  pose proof (queue_select_some 10 (chat_data (db s)) ltac:(lia) ltac:(lia)) as Hsome.
  destruct (Z.eqb_spec (Z.of_nat (length (queue_select 10 (chat_data (db s))))) 0);
    [lia|].
  destruct (IH (total + Z.of_nat (length (queue_select 10 (chat_data (db s))))) s2 Hwf2)
    as (s' & Hloop & Hdone); [rewrite Hids; exact Hnd | lia |].
  exists s'. split; [|exact Hdone]. rewrite Hloop, Hcount. f_equal. f_equal. lia.
Qed.

(** Instant mode empties the queue. With storage that works, an
    endpoint that answers every request with an embedding, at least one
    attempt configured and enough rounds for the loop, [run_instant_mode]
    returns the number of rows that were waiting and leaves no row
    unprocessed. *)
Theorem instant_mode_empties_queue (rounds : nat) (s : state) :
  wf s -> NoDup (map rowid (chat_data (db s))) ->
  (Z.to_nat (queue_count (chat_data (db s))) < rounds)%nat ->
  exists s',
    run_instant_mode rounds fuel s = (Ok (queue_count (chat_data (db s))), s') /\
    queue_count (chat_data (db s')) = 0 /\
    Forall (fun r => processed r <> 0) (chat_data (db s')).
Proof.
  intros Hwf Hnd Hlt.
  assert (Hrun : exists s',
            run_instant_mode rounds fuel s = (Ok (queue_count (chat_data (db s))), s') /\
            queue_count (chat_data (db s')) = 0).
  { unfold run_instant_mode. unfold bind at 1.
    pose proof (drain_dlq_chat fuel 25 s) as Hd.
    destruct (returns _ s (no_raise_drain_dlq fuel 25)
                (lively_drain_dlq rate_positive fuel enough_fuel 25) Hwf)
      as ([] & s1 & Hdrain & Hwf1).
    rewrite Hdrain in Hd |- *. cbn [snd] in Hd.
    unfold bind at 1. rewrite get_queue_size_ok, Hd. cbv beta iota.
    destruct (Z.eqb_spec (queue_count (chat_data (db s))) 0) as [Hz|Hnz].
    - eexists. split; [rewrite Hz; reflexivity|].
      cbn [db chat_data requested with_io]. rewrite Hd. exact Hz.
    - unfold bind, log_event, modify.
      match goal with |- context [instant_loop rounds fuel 0 ?s2] =>
        destruct (instant_loop_healthy rounds 0 s2) as (s' & Hloop & Hdone);
          [exact Hwf1 | simpl; rewrite Hd; exact Hnd | simpl; rewrite Hd; exact Hlt |]
      end.
      cbn [db chat_data with_io requested logged] in Hloop. rewrite Hd in Hloop.
      exists s'. split; [exact Hloop | exact Hdone]. }
  destruct Hrun as (s' & Hrun & Hdone). exists s'. split; [exact Hrun|].
  split; [exact Hdone|].
  unfold queue_count in Hdone.
  apply List.Forall_forall. intros r Hr Hflag.
  assert (Hin : In r (List.filter unprocessed (chat_data (db s')))).
  { apply filter_In. split; [exact Hr|]. unfold unprocessed. lia. }
  destruct (List.filter unprocessed (chat_data (db s'))); [destruct Hin | simpl in Hdone; lia].
Qed.

End Healthy.

(** ** Draining the dead letter queue *)

(** The key of a text that is already normalised is the key of its
    normalised form: a retry of a stored text looks up and fails under
    the key the text was stored under. *)
Lemma hash_key_normal txt :
  _hash_key (_norm_text (_norm_text txt default_max_chars) default_max_chars)
  = _hash_key (_norm_text txt default_max_chars).
Proof.
  assert (H0 : 0 <= default_max_chars) by (unfold default_max_chars; lia).
  unfold _hash_key. f_equal.
  rewrite (norm_text_twice (_norm_text txt default_max_chars)) by exact H0.
  rewrite (norm_text_twice txt) by exact H0. apply rstrip_idem.
Qed.

Lemma engine_written_key r :
  engine_written r -> d_key r = _hash_key (_norm_text (d_text r) default_max_chars).
Proof. intros (txt & Htxt & ->). rewrite Htxt. symmetry. apply hash_key_normal. Qed.

Lemma dlq_find_entries k rows : dlq_find k rows = head (dlq_entries k rows).
Proof.
  unfold dlq_find, dlq_entries. induction rows as [|r rows IH]; simpl; [reflexivity|].
  destruct (dlq_has_key k r); [reflexivity | exact IH].
Qed.

Lemma dlq_delete_self k rows : dlq_entries k (dlq_delete k rows) = [].
Proof.
  unfold dlq_entries, dlq_delete. rewrite filter_filter. apply filter_none.
  intros r _. destruct (dlq_has_key k r); reflexivity.
Qed.

Lemma dlq_delete_others k k' rows :
  k' <> k -> dlq_entries k' (dlq_delete k rows) = dlq_entries k' rows.
Proof.
  intros Hne. unfold dlq_entries, dlq_delete. rewrite filter_filter.
  apply filter_ext. intros r. unfold dlq_has_key.
  destruct (String.eqb_spec (d_key r) k'); [|apply andb_false_r].
  destruct (String.eqb_spec (d_key r) k); [congruence | reflexivity].
Qed.

Lemma insert_by_last_attempt_perm r rows :
  Permutation (insert_by_last_attempt r rows) (r :: rows).
Proof.
  induction rows as [|r' rows IH]; simpl; [reflexivity|].
  destruct (Qle_bool _ _); [reflexivity|].
  etransitivity; [apply perm_skip, IH | apply perm_swap].
Qed.

Lemma by_last_attempt_perm rows :
  Permutation (foldr insert_by_last_attempt [] rows) rows.
Proof.
  induction rows as [|r rows IH]; simpl; [reflexivity|].
  etransitivity; [apply insert_by_last_attempt_perm | apply perm_skip, IH].
Qed.

Lemma nodup_map_firstn {A B} (f : A -> B) n : forall l : list A,
  NoDup (map f l) -> NoDup (map f (firstn n l)).
Proof.
  induction n as [|n IH]; intros [|a l] Hnd; simpl; try apply NoDup_nil_2.
  simpl in Hnd. apply NoDup_cons in Hnd as [Hnotin Hnd].
  apply NoDup_cons. split; [|apply IH, Hnd].
  intros Hin. apply Hnotin. apply list_elem_of_In in Hin. apply list_elem_of_In.
  apply in_map_iff in Hin as (x & Hx & Hin). apply in_firstn in Hin.
  apply in_map_iff. eauto.
Qed.

Lemma dlq_select_picks max_items rows :
  NoDup (map d_key rows) ->
  exists picked,
    dlq_select max_items rows = map (fun r => (d_key r, d_text r)) picked /\
    NoDup (map d_key picked) /\
    (forall r, In r picked -> In r rows /\ d_attempts r < 10).
Proof.
  intros Hnd. unfold dlq_select.
  set (elig := List.filter (fun r => d_attempts r <? 10) rows).
  set (sorted := foldr insert_by_last_attempt [] elig).
  assert (Hs : NoDup (map d_key sorted)).
  { apply (NoDup_Permutation_proper _ _
             (Permutation_map d_key (by_last_attempt_perm elig))).
    apply nodup_map_filter, Hnd. }
  assert (Hin : forall r, In r sorted -> In r rows /\ d_attempts r < 10).
  { intros r Hr. unfold sorted, elig in Hr.
    apply (proj1 (by_last_attempt_in _ _)) in Hr.
    apply (proj1 (filter_In _ _ _)) in Hr. rewrite Z.ltb_lt in Hr. exact Hr. }
  exists (sql_limit max_items sorted). split; [reflexivity|].
  unfold sql_limit. destruct (max_items <? 0); [split; assumption|].
  split; [apply nodup_map_firstn, Hs|]. intros r Hr. eapply Hin, in_firstn, Hr.
Qed.

Lemma dlq_find_in k rows r :
  NoDup (map d_key rows) -> In r rows -> d_key r = k -> dlq_find k rows = Some r.
Proof.
  unfold dlq_find. induction rows as [|r0 rows IH]; intros Hnd Hin Hk; [destruct Hin|].
  simpl in Hnd. apply NoDup_cons in Hnd as [Hnotin Hnd]. simpl.
  destruct Hin as [->|Hin].
  - rewrite (proj2 (dlq_has_key_true k r) Hk). reflexivity.
  - destruct (dlq_has_key k r0) eqn:H0; [|apply IH; assumption].
    apply dlq_has_key_true in H0. exfalso. apply Hnotin. rewrite H0, <- Hk.
    apply list_elem_of_In, in_map, Hin.
Qed.

Section Drain.
Hypothesis rate_positive : (0 < min_interval_ms cfg)%Q.
Hypothesis storage_works : storage_ok.
Hypothesis one_attempt : 1 <= attempts cfg.
Variable fuel : nat.
Hypothesis enough_fuel : (token_fuel <= fuel)%nat.

Lemma drain_rows_outcome rows : forall recovered s,
  wf s -> NoDup (map d_key (embed_dlq (db s))) -> NoDup (map fst rows) ->
  (forall k t, In (k, t) rows -> k = _hash_key (_norm_text t default_max_chars)) ->
  exists n s',
    drain_rows fuel rows recovered s = (Ok n, s') /\
    (forall k, ~ In k (map fst rows) ->
       dlq_entries k (embed_dlq (db s')) = dlq_entries k (embed_dlq (db s))) /\
    (forall k t r, In (k, t) rows -> dlq_find k (embed_dlq (db s)) = Some r ->
       dlq_find k (embed_dlq (db s')) = None \/
       exists e now, dlq_find k (embed_dlq (db s')) = Some (dlq_bump e now r)).
Proof.
  induction rows as [|[k t] rest IH]; intros recovered s Hwf Hnd Hkeys Hcons.
  { exists recovered, s. split; [reflexivity|]. split; [reflexivity|].
    intros k t r []. }
  cbn [drain_rows]. unfold bind at 1.
  destruct (generate_embedding_call rate_positive storage_works fuel enough_fuel t s Hwf)
    as (res & s1 & Hrun & Hwf1 & _).
  rewrite Hrun. cbn [map fst] in Hkeys. apply NoDup_cons in Hkeys as [Hk Hkeys].
  assert (Hkk : k = _hash_key (_norm_text t default_max_chars))
    by (apply Hcons; left; reflexivity).
  assert (Hrest : forall k' t', In (k', t') rest ->
            k' = _hash_key (_norm_text t' default_max_chars))
    by (intros k' t' H; apply Hcons; right; exact H).
  assert (Hne : forall k' t', In (k', t') rest -> k' <> k).
  { intros k' t' Hin ->. apply Hk, list_elem_of_In.
    apply (in_map fst) in Hin. exact Hin. }
  destruct res as [v|].
  - pose proof (generate_embedding_some _ _ _ _ _ Hrun) as Hdlq.
    unfold bind at 1. rewrite store_request_run, storage_works. cbn [fst snd].
    unfold bind at 1. unfold log_event at 1, modify at 1.
    match goal with |- exists n s', drain_rows fuel rest ?n0 ?s3 = _ /\ _ =>
      assert (Hd3 : embed_dlq (db s3) = dlq_delete k (embed_dlq (db s))) by
        (cbn [db embed_dlq with_io with_db set_embed_dlq]; rewrite Hdlq; reflexivity);
      destruct (IH n0 s3) as (n & s' & Hloop & Hothers & Hpicked);
        [exact Hwf1 | rewrite Hd3; apply nodup_map_filter, Hnd | exact Hkeys
        | exact Hrest |]
    end.
    exists n, s'. split; [exact Hloop|]. rewrite Hd3 in Hothers, Hpicked. split.
    + intros k' Hk'. rewrite Hothers by (intros H; apply Hk'; right; exact H).
      apply dlq_delete_others. intros ->. apply Hk'. left. reflexivity.
    + intros k' t' r [[= <- <-]|Hin] Hfind.
      * left. rewrite dlq_find_entries, Hothers, dlq_delete_self; [reflexivity|].
        intros H. apply Hk, list_elem_of_In, H.
      * apply (Hpicked k' t' r Hin).
        rewrite dlq_find_entries, dlq_delete_others, <- dlq_find_entries;
          [exact Hfind | eapply Hne, Hin].
  - destruct (generate_embedding_none _ _ _ _ storage_works one_attempt Hrun)
      as (e & now & _ & Hdlq).
    rewrite <- Hkk in Hdlq.
    destruct (IH recovered s1) as (n & s' & Hloop & Hothers & Hpicked);
      [exact Hwf1 | rewrite Hdlq; apply dlq_upsert_keys_nodup, Hnd | exact Hkeys
      | exact Hrest |].
    exists n, s'. split; [exact Hloop|]. rewrite Hdlq in Hothers, Hpicked. split.
    + intros k' Hk'. rewrite Hothers by (intros H; apply Hk'; right; exact H).
      apply dlq_upsert_others. intros ->. apply Hk'. left. reflexivity.
    + intros k' t' r [[= <- <-]|Hin] Hfind.
      * right. exists e, now.
        rewrite dlq_find_entries, Hothers, <- dlq_find_entries;
          [apply dlq_upsert_find_present, Hfind|].
        intros H. apply Hk, list_elem_of_In, H.
      * apply (Hpicked k' t' r Hin).
        rewrite dlq_find_entries, dlq_upsert_others, <- dlq_find_entries;
          [exact Hfind | eapply Hne, Hin].
Qed.

(** What a drain does to the dead letter queue. Storage working and at
    least one attempt configured, [drain_dlq] returns; on a queue with
    unique keys whose entries were written by the engine, every entry it
    picked is afterwards gone, because its retry returned something, or
    still there with one attempt more and the error and time of the
    retry, because the retry failed again under the same key; every
    other entry is as it was, and no entry has been added. *)
Theorem drain_dlq_outcome (max_items : Z) (s : state) :
  wf s -> NoDup (map d_key (embed_dlq (db s))) ->
  Forall engine_written (embed_dlq (db s)) ->
  exists s',
    drain_dlq fuel max_items s = (Ok tt, s') /\
    (forall k, ~ In k (map fst (dlq_select max_items (embed_dlq (db s)))) ->
       dlq_entries k (embed_dlq (db s')) = dlq_entries k (embed_dlq (db s))) /\
    (forall k t, In (k, t) (dlq_select max_items (embed_dlq (db s))) ->
       exists r, dlq_find k (embed_dlq (db s)) = Some r /\ d_text r = t /\
         d_attempts r < 10 /\
         (dlq_find k (embed_dlq (db s')) = None \/
          exists e now, dlq_find k (embed_dlq (db s')) = Some (dlq_bump e now r))).
Proof.
  intros Hwf Hnd Hall.
  destruct (dlq_select_picks max_items _ Hnd) as (picked & Hsel & Hpnd & Hattempts).
  assert (Hrow : forall k t, In (k, t) (dlq_select max_items (embed_dlq (db s))) ->
            exists r, dlq_find k (embed_dlq (db s)) = Some r /\ d_text r = t
                      /\ d_attempts r < 10 /\ engine_written r).
  { intros k t Hin. rewrite Hsel in Hin. apply in_map_iff in Hin as (r & [= <- <-] & Hr).
    destruct (Hattempts r Hr) as [Hrin Hlt]. exists r.
    split; [apply dlq_find_in; [exact Hnd | exact Hrin | reflexivity]|].
    split; [reflexivity|]. split; [exact Hlt|].
    apply (proj1 (List.Forall_forall _ _) Hall r Hrin). }
  assert (Hstart : wf (requested SqlDlqSelect true s)) by exact Hwf.
  destruct (drain_rows_outcome (dlq_select max_items (embed_dlq (db s))) 0
              (logged INFO "dlq_drain_start" (requested SqlDlqSelect true s)))
    as (n & s1 & Hloop & Hothers & Hpicked).
  { exact Hwf. }
  { exact Hnd. }
  { rewrite Hsel, map_map. exact Hpnd. }
  { intros k t Hin. destruct (Hrow k t Hin) as (r & Hfind & <- & _ & Hw).
    apply dlq_find_key in Hfind. rewrite <- Hfind. apply engine_written_key, Hw. }
  cbn [db embed_dlq logged requested with_io] in Hothers, Hpicked.
  unfold drain_dlq, try_catch. unfold bind at 1.
  rewrite store_request_run, storage_works. cbn [fst snd].
  assert (Hs0 : with_db (fun _ => db s) (requested SqlDlqSelect true s)
                = requested SqlDlqSelect true s) by (destruct s; reflexivity).
  rewrite Hs0.
  destruct (dlq_select max_items (embed_dlq (db s))) as [|row rows] eqn:Hrows.
  - exists (requested SqlDlqSelect true s). split; [reflexivity|].
    split; [reflexivity|]. intros k t [].
  - unfold bind at 1. unfold log_event at 1, modify at 1.
    fold (logged INFO "dlq_drain_start" (requested SqlDlqSelect true s)).
    unfold bind at 1. rewrite Hloop.
    eexists. split; [reflexivity|].
    cbn [db embed_dlq logged with_io]. split; [exact Hothers|].
    intros k t Hin. destruct (Hrow k t Hin) as (r & Hfind & Htxt & Hlt & _).
    exists r. split; [exact Hfind|]. split; [exact Htxt|]. split; [exact Hlt|].
    apply (Hpicked k t r Hin Hfind).
Qed.

End Drain.

(** ** The configuration file *)

Lemma dict_get_set k v fields k' :
  dict_get k' (dict_set k v fields)
  = if String.eqb k k' then v else dict_get k' fields.
Proof.
  induction fields as [|[k0 x] rest IH]; simpl.
  - destruct (String.eqb k k'); reflexivity.
  - destruct (String.eqb_spec k0 k) as [->|Hne]; simpl.
    + destruct (String.eqb k k'); reflexivity.
    + rewrite IH. destruct (String.eqb_spec k0 k') as [->|]; [|reflexivity].
      destruct (String.eqb_spec k k'); [congruence | reflexivity].
Qed.

Lemma dict_has_false k fields : dict_has k fields = false -> dict_get k fields = JNull.
Proof.
  unfold dict_has. induction fields as [|[k0 x] rest IH]; simpl; [reflexivity|].
  destruct (String.eqb k0 k); [discriminate | exact IH].
Qed.

Lemma dict_has_in k fields : dict_has k fields = true <-> In k (map fst fields).
Proof.
  unfold dict_has. rewrite existsb_exists, in_map_iff. split.
  - intros (kv & Hin & Heq). apply String.eqb_eq in Heq. eauto.
  - intros (kv & Heq & Hin). exists kv. split; [exact Hin|]. apply String.eqb_eq, Heq.
Qed.

Lemma dict_merge_get new : forall old k,
  NoDup (map fst new) ->
  dict_get k (dict_merge old new)
  = if dict_has k new then dict_get k new else dict_get k old.
Proof.
  unfold dict_merge. induction new as [|[k0 v0] new IH]; intros old k Hnd; [reflexivity|].
  simpl in Hnd. apply NoDup_cons in Hnd as [Hnotin Hnd].
  cbn [fold_left fst snd]. rewrite IH by exact Hnd. rewrite dict_get_set.
  unfold dict_has at 2. cbn [existsb fst dict_get]. fold (dict_has k new).
  destruct (String.eqb_spec k0 k) as [->|Hne]; [|reflexivity].
  destruct (dict_has k new) eqn:Hhas; [|reflexivity].
  exfalso. apply Hnotin, list_elem_of_In, dict_has_in, Hhas.
Qed.

Lemma merge_entry_get config key value k :
  dict_get k (merge_entry config (key, value))
  = if String.eqb key k
    then match dict_get key config, value with
         | JObj old, JObj new => JObj (dict_merge old new)
         | _, _ => value
         end
    else dict_get k config.
Proof.
  unfold merge_entry. destruct (dict_has key config) eqn:Hhas.
  - destruct (dict_get key config); try apply dict_get_set.
    destruct value; apply dict_get_set.
  - rewrite (dict_has_false _ _ Hhas). apply dict_get_set.
Qed.

Lemma merge_config_get user : forall config k,
  NoDup (map fst user) ->
  dict_get k (fold_left merge_entry user config)
  = if dict_has k user
    then match dict_get k config, dict_get k user with
         | JObj old, JObj new => JObj (dict_merge old new)
         | _, v => v
         end
    else dict_get k config.
Proof.
  induction user as [|[k0 v0] user IH]; intros config k Hnd; [reflexivity|].
  simpl in Hnd. apply NoDup_cons in Hnd as [Hnotin Hnd].
  cbn [fold_left]. rewrite IH by exact Hnd. rewrite merge_entry_get.
  unfold dict_has at 2. cbn [existsb fst dict_get]. fold (dict_has k user).
  destruct (String.eqb_spec k0 k) as [->|Hne]; [|reflexivity].
  destruct (dict_has k user) eqn:Hhas.
  - exfalso. apply Hnotin, list_elem_of_In, dict_has_in, Hhas.
  - simpl. destruct (dict_get k config); try reflexivity. destruct v0; reflexivity.
Qed.

(** The merge of the configuration file, one level deep. For a file
    that parses to an object (whose keys, as those of every object, are
    distinct): a key the file does not give keeps its default; a key
    whose default and whose given value are both objects gets their
    union, in which each inner key given by the file replaces the
    default whole, without merging any deeper, and the other inner keys
    keep their defaults; for any other key the given value replaces the
    default. *)
Theorem config_merge_one_level (user : list (string * jval)) (key : string) :
  NoDup (map fst user) ->
  dict_get key (load_config (Some (inr (JObj user))))
  = (if dict_has key user
     then match dict_get key CONFIG_DEFAULTS_dict, dict_get key user with
          | JObj old, JObj new => JObj (dict_merge old new)
          | _, v => v
          end
     else dict_get key CONFIG_DEFAULTS_dict) /\
  (forall old new inner,
     dict_get key CONFIG_DEFAULTS_dict = JObj old ->
     dict_get key user = JObj new ->
     NoDup (map fst new) ->
     dict_get inner (dict_merge old new)
     = if dict_has inner new then dict_get inner new else dict_get inner old).
Proof.
  intros Hnd. split.
  - unfold load_config. apply merge_config_get, Hnd.
  - intros old new inner _ _ Hnew. apply dict_merge_get, Hnew.
Qed.

(** ** Start-up *)

Lemma warm_up_once_run attempt s :
  warm_up_once attempt s =
  if no_embedding (inference E (posts (io s)) warmup_prompt)
  then (Ok Again, posted warmup_prompt s)
  else if raises (inference E (posts (io s)) warmup_prompt)
  then (if attempt <? 2
        then (Ok Again, slept (inject_Z (2 ^ attempt)) (posted warmup_prompt s))
        else (Ok GaveUp, logged ERROR "ollama_init_failed" (posted warmup_prompt s)))
  else match inference E (posts (io s)) warmup_prompt with
       | ReplyJson (JObj fields) =>
           match dict_get "embedding" fields with
           | JList emb =>
               (Ok (Healthy (Z.of_nat (length emb))),
                logged INFO "ollama_initialized" (posted warmup_prompt s))
           | _ => (Ok Again, posted warmup_prompt s)
           end
       | _ => (Ok Again, posted warmup_prompt s)
       end.
Proof.
  unfold warm_up_once, try_catch, no_embedding, raises. unfold bind at 1. unfold http_post.
  fold (posted warmup_prompt s).
  destruct (inference E (posts (io s)) warmup_prompt) as [e|data].
  - destruct (attempt <? 2); reflexivity.
  - destruct data as [| | | | |fields]; try (destruct (attempt <? 2); reflexivity).
    destruct (dict_get "embedding" fields) as [| | | |[|x rest]|]; reflexivity.
Qed.

(** The health check passes without an embedding. If the endpoint
    answers each of the three warm-up requests with an object that
    holds no non-empty list under [embedding] (an error message with
    status 200, say), nothing is raised, nothing is slept and nothing is
    logged: the loop runs out and [initialize] goes on with
    [embedding_dim] still [None]. With the target [mvm], [MVM.db] in
    place and its tables there or creatable, it returns [True]. *)
Theorem health_check_passes_without_embedding (s : state)
    (init_qdrant : option Z -> M bool) :
  (forall i, (i < 3)%nat ->
     no_embedding (inference E (posts (io s) + i) warmup_prompt) = true) ->
  let s3 := posted warmup_prompt (posted warmup_prompt (posted warmup_prompt s)) in
  warm_up (py_range 3) s = (Ok (Some None), s3) /\
  (target cfg = TargetMvm -> ready s ->
   initialize None init_qdrant true s
   = (Ok (Some {| effective_target := TargetMvm; embedding_dim := None |}),
      ensured s3)).
Proof.
  intros Hsilent s3.
  pose proof (Hsilent 0%nat ltac:(lia)) as H0. rewrite Nat.add_0_r in H0.
  pose proof (Hsilent 1%nat ltac:(lia)) as H1. rewrite Nat.add_1_r in H1.
  pose proof (Hsilent 2%nat ltac:(lia)) as H2.
  replace (posts (io s) + 2)%nat with (S (S (posts (io s)))) in H2 by lia.
  assert (Hwarm : warm_up (py_range 3) s = (Ok (Some None), s3)).
  { change (py_range 3) with [0; 1; 2]. cbn [warm_up]. unfold bind.
    rewrite warm_up_once_run, H0. rewrite warm_up_once_run.
    cbn [posts io posted with_io count_post emit]. rewrite H1.
    rewrite warm_up_once_run. cbn [posts io posted with_io count_post emit].
    rewrite H2. reflexivity. }
  split; [exact Hwarm|]. intros Htarget Hready.
  unfold initialize, try_catch. unfold bind at 1. unfold ret at 1.
  unfold bind at 1. rewrite Hwarm. rewrite Htarget. cbn [to_qdrant to_mvm].
  unfold bind at 1. unfold ret at 1. unfold bind.
  assert (Hready3 : ready s3) by exact Hready.
  cbn [to_mvm]. cbv beta.
  destruct (ensure_ready s3 Hready3) as (-> & _). reflexivity.
Qed.

(** The health check gives up. If each of the three warm-up requests
    raises (a transport error, an error status, a body that is not an
    object), [initialize] sleeps one second after the first and two
    after the second, logs [ollama_init_failed] after the third and
    returns [False], without touching Qdrant or [MVM.db]. *)
Theorem health_check_gives_up (s : state) (init_qdrant : option Z -> M bool)
    (mvm_db_exists : bool) :
  (forall i, (i < 3)%nat ->
     raises (inference E (posts (io s) + i) warmup_prompt) = true) ->
  initialize None init_qdrant mvm_db_exists s
  = (Ok None,
     logged ERROR "ollama_init_failed"
       (posted warmup_prompt
          (slept 2 (posted warmup_prompt (slept 1 (posted warmup_prompt s)))))).
Proof.
  intros Hraises.
  assert (Hne : forall r, raises r = true -> no_embedding r = false).
  { intros [e|[| | | | |fields]]; simpl; congruence. }
  pose proof (Hraises 0%nat ltac:(lia)) as H0. rewrite Nat.add_0_r in H0.
  pose proof (Hraises 1%nat ltac:(lia)) as H1. rewrite Nat.add_1_r in H1.
  pose proof (Hraises 2%nat ltac:(lia)) as H2.
  replace (posts (io s) + 2)%nat with (S (S (posts (io s)))) in H2 by lia.
  unfold initialize, try_catch. unfold bind at 1. unfold ret at 1.
  unfold bind at 1.
  assert (Hwarm : warm_up (py_range 3) s
                  = (Ok None,
                     logged ERROR "ollama_init_failed"
                       (posted warmup_prompt
                          (slept 2 (posted warmup_prompt
                                      (slept 1 (posted warmup_prompt s))))))).
  { change (py_range 3) with [0; 1; 2]. cbn [warm_up]. unfold bind.
    rewrite warm_up_once_run, (Hne _ H0), H0. change (0 <? 2) with true. cbv beta iota.
    rewrite warm_up_once_run.
    cbn [posts io posted slept with_io count_post emit advance].
    rewrite (Hne _ H1), H1. change (1 <? 2) with true. cbv beta iota.
    rewrite warm_up_once_run.
    cbn [posts io posted slept with_io count_post emit advance].
    rewrite (Hne _ H2), H2. reflexivity. }
  rewrite Hwarm. reflexivity.
Qed.

Lemma generate_embedding_no_raise fuel txt s e :
  cache_initialized (eng s) = true -> fst (generate_embedding fuel txt s) <> Raised e.
Proof.
  intros Hinit. rewrite generate_embedding_unfold.
  unfold bind at 1. rewrite ensure_run, Hinit. unfold bind.
  destruct (await_token fuel s) as [[[]|e'|] s1] eqn:Hawait; simpl in *;
    [| exfalso; apply (await_token_no_raise fuel s e'); rewrite Hawait; reflexivity
     | discriminate].
  pose proof (proj2 (behaves_embed_paced false txt s1)) as Hrest.
  destruct (embed_paced txt s1) as [[r|e'|] s2]; simpl in *; discriminate.
Qed.

(** After a successful start-up for [MVM.db]. [initialize] never ends in
    an exception. When it returns [True] with the target [mvm] or
    [both] in effect, the cache tables have been created, so no later
    embedding request can end in an exception. *)
Theorem initialized_engine_cannot_raise (client : option string)
    (init_qdrant : option Z -> M bool) (mvm_db_exists : bool) (s : state) :
  (forall e, fst (initialize client init_qdrant mvm_db_exists s) <> Raised e) /\
  (forall st s',
     initialize client init_qdrant mvm_db_exists s = (Ok (Some st), s') ->
     to_mvm (effective_target st) = true ->
     mvm_db_exists = true /\
     cache_initialized (eng s') = true /\
     forall fuel txt e, fst (generate_embedding fuel txt s') <> Raised e).
Proof.
  split.
  { intros e. apply no_raise_try. intros e'.
    apply no_raise_bind; [apply no_raise_modify | intros; apply no_raise_ret]. }
  intros st s' Hrun Hmvm.
  assert (Hinit : mvm_db_exists = true /\ cache_initialized (eng s') = true).
  { unfold initialize, try_catch in Hrun.
    assert (Htail : forall t dim s0,
              match
                (if to_mvm t
                 then if mvm_db_exists
                      then _ensure_cache_tables ;;
                           ret (Some {| effective_target := t; embedding_dim := dim |})
                      else ret None
                 else ret (Some {| effective_target := t; embedding_dim := dim |})) s0
              with
              | (Ok (Some st0), s0') =>
                  to_mvm (effective_target st0) = true ->
                  mvm_db_exists = true /\ cache_initialized (eng s0') = true
              | _ => True
              end).
    { intros t dim s0. destruct (to_mvm t) eqn:Ht.
      - destruct mvm_db_exists; [|exact I]. unfold bind. rewrite ensure_run.
        destruct (cache_initialized (eng s0)) eqn:Hc; [simpl; auto|].
        destruct (storage_fault E (requests (io s0))); [exact I|].
        simpl. intros _. split; [reflexivity|]. unfold ensured. rewrite Hc. reflexivity.
      - simpl. congruence. }
    destruct client as [e|]; [discriminate|].
    unfold bind at 1 in Hrun. unfold ret at 1 in Hrun. unfold bind at 1 in Hrun.
    destruct (warm_up (py_range 3) s) as [[[dim|]| |] s1]; try discriminate.
    unfold bind at 1 in Hrun.
    assert (Hend : forall t s2,
              match
                (if to_mvm t
                 then if mvm_db_exists
                      then _ensure_cache_tables ;;
                           ret (Some {| effective_target := t; embedding_dim := dim |})
                      else ret None
                 else ret (Some {| effective_target := t; embedding_dim := dim |})) s2
              with
              | (Ok a, s0') => (Ok a, s0')
              | (Raised _, s0') => (log_event ERROR "init_failed" ;; ret None) s0'
              | (Diverged, s0') => (Diverged, s0')
              end = (Ok (Some st), s') ->
              mvm_db_exists = true /\ cache_initialized (eng s') = true).
    { intros t s2 H. specialize (Htail t dim s2).
      match type of Htail with match ?m with _ => _ end =>
        revert H Htail; destruct m as [[[st0|]| |] s3]; intros H Htail
      end; try discriminate.
      injection H as <- <-. apply Htail, Hmvm. }
    destruct (to_qdrant (target cfg)).
    - unfold bind at 1 in Hrun.
      destruct (init_qdrant dim s1) as [[[|]| |] s2]; try discriminate.
      + apply (Hend (target cfg) s2). exact Hrun.
      + destruct (target cfg); try discriminate; apply (Hend TargetMvm s2); exact Hrun.
    - apply (Hend (target cfg) s1). exact Hrun. }
  destruct Hinit as [Hex Hinit]. split; [exact Hex|]. split; [exact Hinit|].
  intros fuel txt e. apply generate_embedding_no_raise, Hinit.
Qed.

(** ** When marking the batch fails *)

(** A batch whose rows cannot be marked is embedded and stored all the
    same. If the calls of a batch return, at least one with a result,
    and the [UPDATE] of the queue then raises, [vectorize_batch] logs
    [batch_failed] and returns 0 with every row still unprocessed,
    although the sinks have been written: what the batch stored stays
    stored, and the rows will be offered again by a later batch. *)
Theorem failed_update_keeps_what_was_stored (fuel : nat) (batch_size : Z) (s s1 : state)
    (results : list (option (list float))) (e : string) :
  let rows := queue_select batch_size (chat_data (db s)) in
  let acc := collect rows results empty_acc in
  storage_fault E (requests (io s)) = None ->
  embed_each fuel rows (batch_started rows s) = (Ok results, s1) ->
  succeeded_rows rows results <> [] ->
  storage_fault E (requests (io (sunk acc s1))) = Some e ->
  exists s',
    vectorize_batch fuel batch_size s = (Ok 0, s') /\
    chat_data (db s') = chat_data (db s) /\
    vectors (db s') = vectors (db (sunk acc s1)) /\
    qdrant (db s') = qdrant (db (sunk acc s1)) /\
    trace (io s')
    = trace (io (sunk acc s1))
      ++ [EvStore (SqlQueueUpdate (map rowid (succeeded_rows rows results))) false;
          EvLog ERROR "batch_failed"].
Proof.
  intros rows acc Hsel Heach Hsome Hfault.
  assert (Hq : chat_data (db s1) = chat_data (db s)).
  { pose proof (keeps_embed_rows same_queue same_queue_refl same_queue_trans
                  (fun _ _ H => H) fuel rows empty_acc (batch_started rows s)) as H.
    unfold same_queue in H. rewrite embed_rows_each, Heach in H. cbn [snd] in H.
    rewrite H. destruct rows; reflexivity. }
  pose proof (collect_rowids rows results empty_acc) as Hids.
  change (rowids_success empty_acc) with (@nil Z) in Hids. rewrite app_nil_l in Hids.
  fold acc in Hids.
  unfold vectorize_batch, try_catch. unfold bind at 1.
  rewrite store_request_run, Hsel. cbn [fst snd].
  assert (Hs0 : with_db (fun _ => db s) (requested SqlQueueSelect true s)
                = requested SqlQueueSelect true s) by (destruct s; reflexivity).
  rewrite Hs0. fold rows.
  destruct rows as [|row rest] eqn:Hrows; [contradiction Hsome; reflexivity|].
  unfold bind at 1. unfold log_event at 1, modify at 1.
  fold (logged INFO "batch_start" (requested SqlQueueSelect true s)).
  change (logged INFO "batch_start" (requested SqlQueueSelect true s))
    with (batch_started (row :: rest) s).
  unfold bind at 1. rewrite embed_rows_each, Heach. fold acc.
  rewrite finish_batch_run, Hids.
  destruct (map rowid (succeeded_rows (row :: rest) results)) as [|i ids] eqn:Hok.
  { exfalso. apply Hsome. destruct (succeeded_rows (row :: rest) results);
      [reflexivity | discriminate]. }
  rewrite Hfault. eexists. split; [reflexivity|].
  cbn [db io chat_data vectors qdrant trace logged requested with_io with_db
         count_request emit].
  rewrite chat_sunk, Hq, <- app_assoc. repeat split.
Qed.

(** A batch that marks nothing ends instant mode. If the queue is not
    empty and the batch returns 0 (each of its rows failed, or the batch
    itself did), the loop of [run_instant_mode] stops there; the queue
    is as it was, so the next batch, in this run or a later one, selects
    the same rows again, and rows behind them are not reached. *)
Theorem empty_batch_ends_instant_mode (rounds fuel : nat) (total size : Z)
    (s s1 s2 : state) :
  get_queue_size s = (Ok size, s1) -> 0 < size ->
  vectorize_batch fuel 10 s1 = (Ok 0, s2) ->
  instant_loop (S rounds) fuel total s = (Ok total, s2) /\
  chat_data (db s2) = chat_data (db s) /\
  queue_select 10 (chat_data (db s2)) = queue_select 10 (chat_data (db s)).
Proof.
  intros Hsize Hpos Hb.
  assert (Hchat : chat_data (db s2) = chat_data (db s)).
  { pose proof (get_queue_size_chat s) as Hq. rewrite Hsize in Hq. cbn [snd] in Hq.
    rewrite <- Hq.
    destruct (vectorize_batch_cases _ _ _ _ _ Hb)
      as [[_ H]|(results & s0 & _ & Hlen & H)]; [exact H|].
    rewrite H. destruct (succeeded_rows _ results); [apply queue_update_nil|].
    simpl in Hlen. lia. }
  split; [|split; [exact Hchat | rewrite Hchat; reflexivity]].
  cbn [instant_loop]. unfold bind at 1. rewrite Hsize.
  destruct (Z.ltb_spec 0 size); [|lia]. unfold bind. rewrite Hb. reflexivity.
Qed.

End Vectorizer.

Arguments eng {float} s.
Arguments db {float} s.
Arguments io {float} s.
Arguments chat_data {float} s.
Arguments vectors {float} s.
Arguments embed_cache {float} s.
Arguments embed_dlq {float} s.
Arguments qdrant {float} s.
Arguments wf {float} s.
Arguments ready {float} E s.
Arguments storage_ok {float} E.
Arguments _hash_key {float} E s.
Arguments key_of {float} E row.
Arguments generate_embedding {float} E cfg fuel txt _.
Arguments embed_each {float} E cfg fuel rows _.
Arguments vectorize_batch {float} E cfg fuel batch_size _.
Arguments _cool_if_cb_open {float} cfg _.
Arguments retry_loop {float} E cfg todo txt k _.
Arguments attempt_result {float} E n txt.
Arguments failed_attempt {float} txt s.
Arguments backed_off {float} E cfg attempt s.
Arguments succeeded_rows {float} rows results.
Arguments batch_started {float} rows s.
Arguments none_failed {float} p s s'.

(** * Concrete runs *)

(** An environment for examples: a float is written as its literal, the
    stand-in for SHA-256 spells the text out (so that distinct texts get
    distinct keys), and every draw falls in the middle of its
    interval. *)

(** The digits of a literal, read as a number; a sign is skipped. *)
Definition magnitude (literal : string) : Z :=
  fold_left (fun acc c => if (N_of_ascii c =? 45)%N then acc
                          else 10 * acc + (Z.of_N (N_of_ascii c) - 48))
    (list_ascii_of_string literal) 0.

(** An [int] that rounds to a double beyond the largest one: [float]
    raises [OverflowError] on it. *)
Definition too_large (literal : string) : bool :=
  2 ^ 1024 - 2 ^ 970 <=? magnitude literal.

Definition is_digit (c : ascii) : bool :=
  (48 <=? N_of_ascii c)%N && (N_of_ascii c <=? 57)%N.

(** What follows a digit of [digit (["_"] digit)*]. *)
Fixpoint skip_digits (l : list ascii) : list ascii :=
  match l with
  | [] => []
  | c :: l' =>
      if is_digit c then skip_digits l'
      else if (N_of_ascii c =? 95)%N then
        match l' with
        | d :: l'' => if is_digit d then skip_digits l'' else l
        | [] => l
        end
      else l
  end.

(** [digitpart]: what is left after it, if one starts here. *)
Definition digitpart (l : list ascii) : option (list ascii) :=
  match l with
  | c :: l' => if is_digit c then Some (skip_digits l') else None
  | [] => None
  end.

Definition lower (c : ascii) : ascii :=
  if (65 <=? N_of_ascii c)%N && (N_of_ascii c <=? 90)%N
  then ascii_of_N (N_of_ascii c + 32) else c.

Definition skip_sign (l : list ascii) : list ascii :=
  match l with
  | c :: l' => if (N_of_ascii c =? 43)%N || (N_of_ascii c =? 45)%N then l' else l
  | [] => []
  end.

(** [number]: digits with an optional point, or a point and digits. *)
Definition number (l : list ascii) : option (list ascii) :=
  match l with
  | "."%char :: l' => digitpart l'
  | _ =>
      match digitpart l with
      | Some ("."%char :: l') =>
          match digitpart l' with
          | Some rest => Some rest
          | None => Some l'
          end
      | r => r
      end
  end.

(** [exponent], if there is one. *)
Definition exponent (l : list ascii) : option (list ascii) :=
  match l with
  | c :: l' => if (N_of_ascii (lower c) =? 101)%N then digitpart (skip_sign l') else Some l
  | [] => Some []
  end.

(** The strings [float] accepts, surrounding whitespace removed. *)
Definition is_float_string (l : list ascii) : bool :=
  let body := skip_sign l in
  let word := string_of_list_ascii (map lower body) in
  if String.eqb word "inf" || String.eqb word "infinity" || String.eqb word "nan"
  then true
  else match number body with
       | Some rest => match exponent rest with Some [] => true | _ => false end
       | None => false
       end.

Definition hex_digit (n : N) : ascii :=
  ascii_of_N (if (n <? 10)%N then 48 + n else 87 + n).

(** [repr(s)] of a string of ASCII characters. *)
Definition py_repr (s : string) : string :=
  let l := list_ascii_of_string s in
  let has q := existsb (fun c => (N_of_ascii c =? q)%N) l in
  let quote := if has 39%N && negb (has 34%N) then ascii_of_N 34 else ascii_of_N 39 in
  let escape c :=
    let n := N_of_ascii c in
    if (n =? 92)%N || (n =? N_of_ascii quote)%N then ["\"%char; c]
    else if (n =? 10)%N then ["\"%char; "n"%char]
    else if (n =? 13)%N then ["\"%char; "r"%char]
    else if (n =? 9)%N then ["\"%char; "t"%char]
    else if (n <? 32)%N || (n =? 127)%N
    then ["\"%char; "x"%char; hex_digit (n / 16); hex_digit (n mod 16)]
    else [c] in
  string_of_list_ascii ([quote] ++ concat (map escape l) ++ [quote]).

(** [float(x)] on a decoded value, the float written as its literal. *)
Definition literal_float (x : jval) : string + string :=
  match x with
  | JNum literal =>
      if is_int_literal literal && too_large literal
      then inl "int too large to convert to float"%string
      else inr literal
  | JBool true => inr "1.0"%string
  | JBool false => inr "0.0"%string
  | JStr s =>
      let body := map ascii_of_N (strip (map N_of_ascii (list_ascii_of_string s))) in
      if is_float_string body then inr (string_of_list_ascii body)
      else inl ("could not convert string to float: " ++ py_repr s)%string
  | v =>
      inl ("float() argument must be a string or a real number, not '"
           ++ py_type_name v ++ "'")%string
  end.

Definition spelled_out (s : pystr) : string :=
  string_of_list_ascii (map ascii_of_N s).

Definition pystr_of (s : string) : pystr :=
  map N_of_ascii (list_ascii_of_string s).

Definition example_env (replies : nat -> pystr -> reply)
    (faults : nat -> option string) : env string :=
  {| py_float := literal_float; sha256_hex := spelled_out;
     inference := replies; storage_fault := faults;
     draw := fun _ => 1 # 2 |}.

Definition embedding_reply : reply :=
  ReplyJson (JObj [("embedding"%string, JList [JNum "0.5"; JNum "-0.25"])]).

(** The endpoint answers every prompt. *)
Definition endpoint_up : nat -> pystr -> reply := fun _ _ => embedding_reply.

(** The endpoint is unreachable. *)
Definition endpoint_down : nat -> pystr -> reply :=
  fun _ _ => ReplyError "connection refused".

(** The endpoint fails on one prompt and answers the others. *)
Definition endpoint_failing_on (bad : pystr) : nat -> pystr -> reply :=
  fun _ prompt =>
    if decide (prompt = bad) then ReplyError "500 Internal Server Error"
    else embedding_reply.


Definition no_faults : nat -> option string := fun _ => None.

Definition storage_locked : nat -> option string :=
  fun _ => Some "database is locked"%string.

Definition example_item (id : Z) (txt : string) : work_item :=
  {| rowid := id; bubble_id := txt; composer_id := "composer";
     created_at_utc := "2025-11-05 00:00:00"; text := Some (pystr_of txt);
     bubble_type_name := "user"; processed := 0 |}.

(** A state right after [__init__], at clock 0, with the given queue;
    [initialized] says whether [initialize] has created the tables. *)
Definition example_state (initialized : bool) (queue : list work_item)
    (dlq : list dlq_row) : state string :=
  {| eng := set_cache_initialized initialized (new_engine 0);
     db := {| chat_data := queue; vectors := []; embed_cache := [];
              embed_dlq := dlq; qdrant := [] |};
     io := {| clock := 0; posts := 0; requests := 0; draws := 0; trace := [] |} |}.

(** The batch of the end-to-end scenario: three unprocessed items, the
    endpoint failing on the second. *)
Definition three_items : list work_item :=
  [example_item 1 "item one"; example_item 2 "item two"; example_item 3 "item three"].

Definition env_failing_on_two : env string :=
  example_env (endpoint_failing_on (pystr_of "item two")) no_faults.

(** A batch with a blank item between an item that embeds and one that
    fails. *)
Definition blank_in_the_middle : list work_item :=
  [example_item 1 "alpha"; example_item 2 "   "; example_item 3 "gamma"].

Definition env_failing_on_gamma : env string :=
  example_env (endpoint_failing_on (pystr_of "gamma")) no_faults.

(** A row whose text is NULL. *)
Definition null_item : work_item :=
  {| rowid := 7; bubble_id := "bubble-7"; composer_id := "composer";
     created_at_utc := "2025-11-05 00:00:00"; text := None;
     bubble_type_name := "user"; processed := 0 |}.

Definition env_up : env string := example_env endpoint_up no_faults.
Definition env_down : env string := example_env endpoint_down no_faults.

(** Only the second storage request fails: in a batch, that is the table
    check of the first embedding request. *)
Definition second_request_fails : nat -> option string :=
  fun n => if decide (n = 1%nat) then Some "unable to open database file"%string else None.

(** 7999 letters, a space and one more letter: the cut at 8000 falls
    right after the space. *)
Definition cut_after_space : pystr :=
  repeat 97%N (Z.to_nat 7999) ++ [32%N; 98%N].

(** ** Data for the further properties *)

(** The defaults with no attempt at all. *)
Definition no_attempts : config :=
  {| model := model CONFIG_DEFAULTS; min_interval_ms := min_interval_ms CONFIG_DEFAULTS;
     attempts := 0; base_ms := base_ms CONFIG_DEFAULTS; max_ms := max_ms CONFIG_DEFAULTS;
     cb_threshold := cb_threshold CONFIG_DEFAULTS; cb_pause_s := cb_pause_s CONFIG_DEFAULTS;
     target := target CONFIG_DEFAULTS |}.

(** The defaults with [--target mvm]. *)
Definition mvm_only : config :=
  {| model := model CONFIG_DEFAULTS; min_interval_ms := min_interval_ms CONFIG_DEFAULTS;
     attempts := attempts CONFIG_DEFAULTS; base_ms := base_ms CONFIG_DEFAULTS;
     max_ms := max_ms CONFIG_DEFAULTS; cb_threshold := cb_threshold CONFIG_DEFAULTS;
     cb_pause_s := cb_pause_s CONFIG_DEFAULTS; target := TargetMvm |}.

(** An entry left in the dead letter queue by a failed request for
    ["hello"]. *)
Definition hello_entry : dlq_row :=
  {| d_key := "hello"; d_text := pystr_of "hello";
     d_last_error := "connection refused"; d_attempts := 1; d_last_attempt_at := 0 |}.

(** The endpoint answers with status 200 and an error message. *)
Definition endpoint_without_embedding : nat -> pystr -> reply :=
  fun _ _ => ReplyJson (JObj [("error"%string, JStr "model not found")]).

(** Only the sixth storage request fails: in a batch of one item with
    the tables in place, that is the update of the queue. *)
Definition sixth_request_fails : nat -> option string :=
  fun n => if decide (n = 5%nat) then Some "database is locked"%string else None.

(** A configuration file that changes the interval of the rate limiter. *)
Definition faster_rate : list (string * jval) :=
  [("rate_limit"%string, JObj [("min_interval_ms"%string, JNum "500")])].

(** Qdrant cannot be reached. *)
Definition qdrant_unreachable : option Z -> M string bool :=
  fun _ s => (Ok false, s).

(** ** The end-to-end scenario of the specification *)

Example end_to_end_batch :
  let s' := snd (vectorize_batch env_failing_on_two CONFIG_DEFAULTS 6 10
                   (example_state true three_items [])) in
  fst (vectorize_batch env_failing_on_two CONFIG_DEFAULTS 6 10
         (example_state true three_items [])) = Ok 2 /\
  map processed (chat_data (db s')) = [1; 0; 1] /\
  map (state_row_id string) (vectors (db s')) = [1; 3] /\
  map (p_id string) (qdrant (db s')) = ["item one"; "item three"]%string /\
  map (fun r => (d_key r, d_attempts r)) (embed_dlq (db s')) = [("item two"%string, 1)] /\
  posts (io s') = 5%nat.
Proof. vm_compute. repeat split. Qed.

(** The two back-offs of the failing item: 1000 ms and 2000 ms, each with
    a jitter of half of a tenth. *)
Example backoff_delays :
  List.filter (fun ev => match ev with EvSleep _ => true | _ => false end)
    (trace (io (snd (vectorize_batch env_failing_on_two CONFIG_DEFAULTS 6 10
                       (example_state true three_items [])))))
  = [EvSleep (21000 # 20000); EvSleep (42000 # 20000)].
Proof. vm_compute. reflexivity. Qed.

(** ** C1: a blank item is marked although its call returned no vector *)

(** The three calls return a vector, the empty list and [None]; the batch
    marks the first two rows. *)
Lemma blank_item_marked_processed :
  fst (embed_each env_failing_on_gamma CONFIG_DEFAULTS 6 blank_in_the_middle
         (batch_started blank_in_the_middle (example_state true blank_in_the_middle [])))
  = Ok [Some ["0.5"; "-0.25"]%string; Some []; None] /\
  fst (vectorize_batch env_failing_on_gamma CONFIG_DEFAULTS 6 10
         (example_state true blank_in_the_middle [])) = Ok 2 /\
  map (fun r => (rowid r, processed r))
    (chat_data (db (snd (vectorize_batch env_failing_on_gamma CONFIG_DEFAULTS 6 10
                           (example_state true blank_in_the_middle [])))))
  = [(1, 1); (2, 1); (3, 0)].
Proof. vm_compute. repeat split. Qed.

(** The same batch under the contract. Qdrant refuses the points, one of
    which has no component, but no request to the queue or to the dead
    letter store fails: the rows marked are those whose call returned
    something, and the failed text has its one entry. *)
Lemma partial_failure_contract_witness :
  let s := example_state true blank_in_the_middle [] in
  let s' := snd (vectorize_batch env_failing_on_gamma CONFIG_DEFAULTS 6 10 s) in
  let rows := queue_select 10 (chat_data (db s)) in
  let t := _norm_text (pystr_of "gamma") default_max_chars in
  In (EvStore (QdrantUpsert [1; 2]) false) (trace (io s')) /\
  none_failed queue_or_dlq s s' /\
  (exists results s1,
     embed_each env_failing_on_gamma CONFIG_DEFAULTS 6 rows (batch_started rows s)
     = (Ok results, s1) /\
     fst (vectorize_batch env_failing_on_gamma CONFIG_DEFAULTS 6 10 s)
     = Ok (Z.of_nat (length (succeeded_rows rows results))) /\
     chat_data (db s')
     = queue_update (map rowid (succeeded_rows rows results)) (chat_data (db s))) /\
  (exists e now,
     dlq_entries (_hash_key env_failing_on_gamma t)
       (embed_dlq (db (snd (generate_embedding env_failing_on_gamma CONFIG_DEFAULTS 6
                              (pystr_of "gamma") s))))
     = [{| d_key := _hash_key env_failing_on_gamma t; d_text := t;
           d_last_error := e; d_attempts := 1; d_last_attempt_at := now |}]).
Proof.
  intros s s' rows t.
  assert (Hrate : (0 < min_interval_ms CONFIG_DEFAULTS)%Q) by reflexivity.
  assert (Hfuel : (token_fuel CONFIG_DEFAULTS <= 6)%nat) by (vm_compute; lia).
  assert (Hwf : wf s) by (split; vm_compute; discriminate).
  assert (Hnd : NoDup (map rowid (chat_data (db s)))).
  { apply (bool_decide_unpack _). vm_compute. exact I. }
  destruct (partial_failure_contract string env_failing_on_gamma CONFIG_DEFAULTS
              Hrate 6 Hfuel 10 s Hwf Hnd) as [(n & s2 & Hrun & Hgood) Hdlq].
  assert (Hs2 : s2 = s') by (unfold s'; rewrite Hrun; reflexivity).
  subst s2.
  assert (Hnone : none_failed queue_or_dlq s s') by (vm_compute; reflexivity).
  split; [vm_compute; tauto|]. split; [exact Hnone|]. split.
  - destruct (Hgood Hnone) as (results & s1 & Heach & _ & Hn & Hchat & _).
    exists results, s1. split; [exact Heach|].
    split; [rewrite Hrun; cbn [fst]; f_equal; exact Hn | exact Hchat].
  - destruct (Hdlq (pystr_of "gamma") s
                (snd (generate_embedding env_failing_on_gamma CONFIG_DEFAULTS 6
                        (pystr_of "gamma") s)))
      as (e & now & _ & Hentries).
    + vm_compute. discriminate.
    + apply NoDup_nil_2.
    + vm_compute. reflexivity.
    + vm_compute. reflexivity.
    + vm_compute. reflexivity.
    + exists e, now. exact Hentries.
Defined.

(** ** C2: an item without text is a success of its batch *)



(** ** C3: the second call is served from the cache *)

Lemma cache_hit_idempotent_witness :
  let s := example_state false [] [] in
  let s1 := snd (generate_embedding env_up CONFIG_DEFAULTS 6 (pystr_of "hello world") s) in
  exists s1' s2,
    await_token string CONFIG_DEFAULTS 6 s1 = (Ok tt, s1') /\
    generate_embedding env_up CONFIG_DEFAULTS 6 (pystr_of "  hello   world ") s1
    = (Ok (Some ["0.5"; "-0.25"]%string), s2) /\
    posts (io s2) = posts (io s1).
Proof.
  intros s s1.
  assert (Hrate : (0 < min_interval_ms CONFIG_DEFAULTS)%Q) by reflexivity.
  assert (Hfuel : (token_fuel CONFIG_DEFAULTS <= 6)%nat) by (vm_compute; lia).
  assert (Hfirst : generate_embedding env_up CONFIG_DEFAULTS 6 (pystr_of "hello world") s
                   = (Ok (Some ["0.5"; "-0.25"]%string), s1)) by (vm_compute; reflexivity).
  assert (Hvec : ["0.5"; "-0.25"]%string <> []) by discriminate.
  destruct (cache_hit_idempotent string env_up CONFIG_DEFAULTS 6
              (pystr_of "hello world") (pystr_of "  hello   world ") s s1
              ["0.5"; "-0.25"]%string
              {| c_key := "hello world"; c_vector := ["0.5"; "-0.25"]%string;
                 c_model := "nomic-embed-text"; c_dims := 2; c_created_at := 0 |}
              Hrate Hfuel Hfirst Hvec)
    as (s1' & s2 & Hawait & Hrun & Hposts & _);
    [vm_compute; reflexivity | reflexivity | vm_compute; reflexivity
    | vm_compute; reflexivity |].
  exists s1', s2. split; [exact Hawait|]. split; [exact Hrun | exact Hposts].
Defined.

(** ** C4: two permanent failures, one entry *)

Example two_failures_one_entry :
  let s := example_state true [] [] in
  let s1 := snd (generate_embedding env_down CONFIG_DEFAULTS 6 (pystr_of "hello") s) in
  let s2 := snd (generate_embedding env_down CONFIG_DEFAULTS 6 (pystr_of "hello") s1) in
  map (fun r => (d_key r, d_attempts r)) (embed_dlq (db s1)) = [("hello"%string, 1)] /\
  map (fun r => (d_key r, d_attempts r, d_last_error r)) (embed_dlq (db s2))
  = [("hello"%string, 2, "connection refused"%string)].
Proof. vm_compute. split; reflexivity. Qed.

Lemma dlq_upsert_semantics_witness :
  let s := example_state true [] [] in
  let s1 := snd (generate_embedding env_down CONFIG_DEFAULTS 6 (pystr_of "hello") s) in
  let s2 := snd (generate_embedding env_down CONFIG_DEFAULTS 6 (pystr_of "hello") s1) in
  exists e now,
    dlq_entries "hello" (embed_dlq (db s2))
    = [{| d_key := "hello"; d_text := pystr_of "hello"; d_last_error := e;
          d_attempts := 2; d_last_attempt_at := now |}].
Proof.
  intros s s1 s2.
  assert (Hok : storage_ok env_down) by (intros n; reflexivity).
  assert (Hatt : 1 <= attempts CONFIG_DEFAULTS) by (vm_compute; discriminate).
  assert (Hnd : NoDup (map d_key (embed_dlq (db s)))) by apply NoDup_nil_2.
  assert (Hrun1 : generate_embedding env_down CONFIG_DEFAULTS 6 (pystr_of "hello") s
                  = (Ok None, s1)) by (vm_compute; reflexivity).
  assert (Hrun2 : generate_embedding env_down CONFIG_DEFAULTS 6 (pystr_of "hello") s1
                  = (Ok None, s2)) by (vm_compute; reflexivity).
  exact (proj2 (dlq_upsert_semantics string env_down CONFIG_DEFAULTS)
           6%nat (pystr_of "hello") s s1 s2 Hok Hatt Hnd eq_refl Hrun1 Hrun2).
Defined.

(** ** C5: the breaker at its threshold *)

Example breaker_opens_at_ten :
  let s := with_eng string (set_cb_failures 10) (example_state true [] []) in
  let s' := snd (_cool_if_cb_open CONFIG_DEFAULTS s) in
  fst (_cool_if_cb_open CONFIG_DEFAULTS s) = Ok tt /\
  trace (io s') = [EvLog ERROR "circuit_open"; EvSleep 30] /\
  clock (io s') = 30%Q /\
  cb_failures (eng s') = 0 /\
  stat "circuit_trips" (eng s') = 1.
Proof. vm_compute. repeat split. Qed.

Lemma circuit_breaker_gate_witness :
  let s := with_eng string (set_cb_failures 10) (example_state true [] []) in
  (exists s',
     _cool_if_cb_open CONFIG_DEFAULTS s = (Ok tt, s') /\
     cb_failures (eng s') = 0 /\ stat "circuit_trips" (eng s') = 1) /\
  _cool_if_cb_open CONFIG_DEFAULTS (example_state true [] [])
  = (Ok tt, example_state true [] []).
Proof.
  intros s. split.
  - destruct (proj1 (proj2 (circuit_breaker_gate string CONFIG_DEFAULTS s)))
      as (s' & Hrun & _ & _ & Hcb & Htrips & _); [vm_compute; discriminate|].
    exists s'. split; [exact Hrun|]. split; [exact Hcb | exact Htrips].
  - apply (proj2 (proj2 (circuit_breaker_gate string CONFIG_DEFAULTS
                           (example_state true [] [])))).
    vm_compute. reflexivity.
Defined.

(** ** C6: a token is taken before the text is found to be empty *)

Lemma token_taken_for_empty_text :
  let s := example_state true [] [] in
  let s' := snd (generate_embedding env_up CONFIG_DEFAULTS 6 (pystr_of "   ") s) in
  _norm_text (pystr_of "   ") default_max_chars = [] /\
  fst (generate_embedding env_up CONFIG_DEFAULTS 6 (pystr_of "   ") s) = Ok (Some []) /\
  tokens (eng s) = 2%Q /\
  tokens (eng s') = 1%Q /\
  trace (io s') = [EvNow].
Proof. vm_compute. repeat split. Qed.

Lemma empty_text_after_token_witness :
  exists s1,
    generate_embedding env_up CONFIG_DEFAULTS 6 (pystr_of "   ") (example_state true [] [])
    = (Ok (Some []), counted string "empty_text" s1) /\
    exists level, (1 <= level)%Q /\ (tokens (eng s1) == level - 1)%Q.
Proof.
  assert (Hrate : (0 < min_interval_ms CONFIG_DEFAULTS)%Q) by reflexivity.
  assert (Hfuel : (token_fuel CONFIG_DEFAULTS <= 6)%nat) by (vm_compute; lia).
  assert (Hwf : wf (example_state true [] [])) by (split; vm_compute; discriminate).
  assert (Hready : ready env_up (example_state true [] [])) by (left; reflexivity).
  destruct (empty_text_after_token string env_up CONFIG_DEFAULTS 6 (pystr_of "   ")
              (example_state true [] []) Hrate Hfuel Hwf Hready eq_refl)
    as (s1 & _ & Hrun & Htaken & _).
  exists s1. split; [exact Hrun | exact Htaken].
Defined.

(** ** C7: a storage error in the table check aborts the request *)

Example table_check_error_escapes :
  generate_embedding (example_env endpoint_up storage_locked) CONFIG_DEFAULTS 6
    (pystr_of "hello") (example_state false [] [])
  = (Raised "database is locked",
     requested string SqlEnsureTables false (example_state false [] [])).
Proof. vm_compute. reflexivity. Qed.

(** With the endpoint up and the queue readable, one such error makes
    the whole batch fail: nothing is embedded and nothing is marked. *)
Example table_check_error_fails_batch :
  let r := vectorize_batch (example_env endpoint_up second_request_fails)
             CONFIG_DEFAULTS 6 10 (example_state false three_items []) in
  fst r = Ok 0 /\
  trace (io (snd r))
  = [EvStore SqlQueueSelect true; EvLog INFO "batch_start";
     EvStore SqlEnsureTables false; EvLog ERROR "batch_failed"] /\
  map processed (chat_data (db (snd r))) = [0; 0; 0].
Proof. vm_compute. repeat split. Qed.

(** ** C10: normalising twice can differ from normalising once *)

Lemma norm_text_not_idempotent :
  length (_norm_text cut_after_space default_max_chars) = Z.to_nat 8000 /\
  length (_norm_text (_norm_text cut_after_space default_max_chars) default_max_chars)
  = Z.to_nat 7999 /\
  _norm_text (_norm_text cut_after_space default_max_chars) default_max_chars
  <> _norm_text cut_after_space default_max_chars.
Proof.
  assert (H1 : length (_norm_text cut_after_space default_max_chars) = Z.to_nat 8000)
    by (vm_compute; reflexivity).
  assert (H2 : length (_norm_text (_norm_text cut_after_space default_max_chars)
                         default_max_chars) = Z.to_nat 7999)
    by (vm_compute; reflexivity).
  split; [exact H1|]. split; [exact H2|].
  intros Heq. rewrite Heq, H1 in H2. apply Nat2Z.inj_iff in H2.
  rewrite !Z2Nat.id in H2; lia.
Qed.

Lemma norm_text_twice_strips_witness :
  _norm_text (_norm_text (pystr_of "  hello   world ") default_max_chars) default_max_chars
  = _norm_text (pystr_of "  hello   world ") default_max_chars.
Proof.
  apply (proj1 (proj2 (norm_text_twice_strips string env_up (pystr_of "  hello   world ")))).
  vm_compute. lia.
Defined.

(** ** C8: one failed attempt, then an embedding *)


(** ** C9: a batch keeps the rows of the queue *)


(** The endpoint is down and no call returns a vector; the row without
    text is marked all the same, its call having returned the empty
    list. *)
Lemma flag_set_without_a_vector :
  let queue := [null_item; example_item 8 "delta"] in
  let s := example_state true queue [] in
  let s' := snd (vectorize_batch env_down CONFIG_DEFAULTS 6 10 s) in
  fst (embed_each env_down CONFIG_DEFAULTS 6 queue (batch_started queue s))
  = Ok [Some []; None] /\
  fst (vectorize_batch env_down CONFIG_DEFAULTS 6 10 s) = Ok 1 /\
  embed_cache (db s') = [] /\
  map (fun r => (rowid r, processed r)) (chat_data (db s')) = [(7, 1); (8, 0)].
Proof. vm_compute. repeat split. Qed.

(** ** C7: the unguarded error, at a concrete state *)

Lemma cache_storage_errors_witness :
  generate_embedding (example_env endpoint_up storage_locked) CONFIG_DEFAULTS 6
    (pystr_of "hello") (example_state false [] [])
  = (Raised "database is locked",
     requested string SqlEnsureTables false (example_state false [] [])).
Proof.
  apply (proj2 (proj2 (proj2 (proj2
           (cache_storage_errors string (example_env endpoint_up storage_locked)
              CONFIG_DEFAULTS))))); reflexivity.
Defined.

(** * Concrete runs of the further properties *)


Lemma permanent_failure_accounting_witness :
  let s := example_state true [] [] in
  let s' := snd (generate_embedding env_down CONFIG_DEFAULTS 6 (pystr_of "hello") s) in
  posts (io s') = (posts (io s) + Z.to_nat (attempts CONFIG_DEFAULTS))%nat /\
  stat "embedding_errors" (eng s')
  = stat "embedding_errors" (eng s) + attempts CONFIG_DEFAULTS.
Proof.
  intros s s'.
  assert (Hatt : 1 <= attempts CONFIG_DEFAULTS) by (vm_compute; discriminate).
  assert (Hrun : generate_embedding env_down CONFIG_DEFAULTS 6 (pystr_of "hello") s
                 = (Ok None, s')) by (vm_compute; reflexivity).
  destruct (permanent_failure_accounting string env_down CONFIG_DEFAULTS 6
              (pystr_of "hello") s s' Hatt Hrun) as (Hposts & Herrors & _).
  split; [exact Hposts | exact Herrors].
Defined.

Lemma no_attempts_no_request_witness :
  let s := example_state true [] [] in
  let s' := snd (generate_embedding env_up no_attempts 6 (pystr_of "hello") s) in
  fst (generate_embedding env_up no_attempts 6 (pystr_of "hello") s) = Ok None /\
  posts (io s') = posts (io s) /\
  embed_dlq (db s') = embed_dlq (db s).
Proof.
  intros s s'.
  assert (Hatt : attempts no_attempts <= 0) by (vm_compute; discriminate).
  assert (Hrun : generate_embedding env_up no_attempts 6 (pystr_of "hello") s
                 = (Ok None, s')) by (vm_compute; reflexivity).
  destruct (no_attempts_no_request string env_up no_attempts 6 (pystr_of "hello")
              s s' None Hatt Hrun) as (Hposts & Hdlq & _).
  split; [rewrite Hrun; reflexivity|]. split; [exact Hposts | exact Hdlq].
Defined.

Lemma batch_returns_rows_marked_witness :
  let s := example_state true three_items [] in
  let s' := snd (vectorize_batch env_failing_on_two CONFIG_DEFAULTS 6 10 s) in
  queue_count (chat_data (db s')) = queue_count (chat_data (db s)) - 2.
Proof.
  intros s s'.
  assert (Hnd : NoDup (map rowid (chat_data (db s)))).
  { apply (bool_decide_unpack _). vm_compute. exact I. }
  assert (Hrun : vectorize_batch env_failing_on_two CONFIG_DEFAULTS 6 10 s = (Ok 2, s'))
    by (vm_compute; reflexivity).
  exact (proj1 (batch_returns_rows_marked string env_failing_on_two CONFIG_DEFAULTS
                  6 10 s s' 2 Hnd Hrun)).
Defined.

Lemma run_returns_rows_marked_witness :
  let s := example_state true three_items [] in
  let s' := snd (run_instant_mode string env_failing_on_two CONFIG_DEFAULTS 5 6 s) in
  fst (run_instant_mode string env_failing_on_two CONFIG_DEFAULTS 5 6 s) = Ok 2 /\
  queue_count (chat_data (db s')) = queue_count (chat_data (db s)) - 2.
Proof.
  intros s s'.
  assert (Hnd : NoDup (map rowid (chat_data (db s)))).
  { apply (bool_decide_unpack _). vm_compute. exact I. }
  assert (Hrun : run_instant_mode string env_failing_on_two CONFIG_DEFAULTS 5 6 s
                 = (Ok 2, s')) by (vm_compute; reflexivity).
  split; [rewrite Hrun; reflexivity|].
  exact (proj1 (proj1 (run_returns_rows_marked string env_failing_on_two CONFIG_DEFAULTS
                         5 6 1 s Hnd) 2 s' Hrun)).
Defined.

Lemma operations_return_witness :
  let s := example_state true three_items [] in
  (exists n s', vectorize_batch env_failing_on_two CONFIG_DEFAULTS 6 10 s = (Ok n, s')) /\
  (exists n s',
     run_instant_mode string env_failing_on_two CONFIG_DEFAULTS 4 6 s = (Ok n, s')).
Proof.
  intros s.
  assert (Hrate : (0 < min_interval_ms CONFIG_DEFAULTS)%Q) by reflexivity.
  assert (Hfuel : (token_fuel CONFIG_DEFAULTS <= 6)%nat) by (vm_compute; lia).
  assert (Hwf : wf s) by (split; vm_compute; discriminate).
  assert (Hnd : NoDup (map rowid (chat_data (db s)))).
  { apply (bool_decide_unpack _). vm_compute. exact I. }
  destruct (operations_return string env_failing_on_two CONFIG_DEFAULTS Hrate 6 Hfuel
              4 25 10 10 s Hwf) as (_ & (n & s1 & Hb & _) & _ & Hinstant).
  split; [exists n, s1; exact Hb|].
  destruct (Hinstant Hnd ltac:(vm_compute; lia)) as (n' & s2 & Hrun & _).
  exists n', s2. exact Hrun.
Defined.

Lemma instant_mode_empties_queue_witness :
  let s := example_state true three_items [] in
  exists s',
    run_instant_mode string env_up CONFIG_DEFAULTS 4 6 s = (Ok 3, s') /\
    queue_count (chat_data (db s')) = 0.
Proof.
  intros s.
  assert (Hrate : (0 < min_interval_ms CONFIG_DEFAULTS)%Q) by reflexivity.
  assert (Hok : storage_ok env_up) by (intros n; reflexivity).
  assert (Hup : endpoint_ok string env_up) by (intros n txt; eexists; reflexivity).
  assert (Hatt : 1 <= attempts CONFIG_DEFAULTS) by (vm_compute; discriminate).
  assert (Hfuel : (token_fuel CONFIG_DEFAULTS <= 6)%nat) by (vm_compute; lia).
  assert (Hwf : wf s) by (split; vm_compute; discriminate).
  assert (Hnd : NoDup (map rowid (chat_data (db s)))).
  { apply (bool_decide_unpack _). vm_compute. exact I. }
  destruct (instant_mode_empties_queue string env_up CONFIG_DEFAULTS Hrate Hok Hup Hatt
              6 Hfuel 4 s Hwf Hnd ltac:(vm_compute; lia)) as (s' & Hrun & Hdone & _).
  exists s'. split; [exact Hrun | exact Hdone].
Defined.

Lemma drain_dlq_outcome_witness :
  let s := example_state true [] [hello_entry] in
  exists s',
    drain_dlq string env_up CONFIG_DEFAULTS 6 25 s = (Ok tt, s') /\
    (dlq_find "hello" (embed_dlq (db s')) = None \/
     exists e now,
       dlq_find "hello" (embed_dlq (db s')) = Some (dlq_bump e now hello_entry)).
Proof.
  intros s.
  assert (Hrate : (0 < min_interval_ms CONFIG_DEFAULTS)%Q) by reflexivity.
  assert (Hok : storage_ok env_up) by (intros n; reflexivity).
  assert (Hatt : 1 <= attempts CONFIG_DEFAULTS) by (vm_compute; discriminate).
  assert (Hfuel : (token_fuel CONFIG_DEFAULTS <= 6)%nat) by (vm_compute; lia).
  assert (Hwf : wf s) by (split; vm_compute; discriminate).
  assert (Hnd : NoDup (map d_key (embed_dlq (db s)))).
  { apply (bool_decide_unpack _). vm_compute. exact I. }
  assert (Hall : Forall (engine_written string env_up) (embed_dlq (db s))).
  { constructor; [|constructor]. exists (pystr_of "hello"). split; reflexivity. }
  destruct (drain_dlq_outcome string env_up CONFIG_DEFAULTS Hrate Hok Hatt 6 Hfuel 25 s
              Hwf Hnd Hall) as (s' & Hrun & _ & Hpicked).
  exists s'. split; [exact Hrun|].
  destruct (Hpicked "hello"%string (pystr_of "hello")) as (r & Hfind & _ & _ & Hout).
  { left. reflexivity. }
  injection Hfind as <-. exact Hout.
Defined.

Lemma config_merge_one_level_witness :
  dict_get "rate_limit" (load_config (Some (inr (JObj faster_rate))))
  = JObj [("max_concurrent"%string, JNum "1"); ("min_interval_ms"%string, JNum "500")].
Proof.
  assert (Hnd : NoDup (map fst faster_rate)).
  { apply (bool_decide_unpack _). vm_compute. exact I. }
  exact (eq_trans (proj1 (config_merge_one_level faster_rate "rate_limit" Hnd)) eq_refl).
Defined.

Lemma health_check_passes_without_embedding_witness :
  let E := example_env endpoint_without_embedding no_faults in
  let s := example_state false [] [] in
  exists s',
    initialize string E mvm_only None qdrant_unreachable true s
    = (Ok (Some {| effective_target := TargetMvm; embedding_dim := None |}), s') /\
    posts (io s') = 3%nat.
Proof.
  intros E s.
  destruct (health_check_passes_without_embedding string E mvm_only s qdrant_unreachable)
    as (_ & Hinit).
  { intros i _. reflexivity. }
  eexists. split; [apply Hinit; [reflexivity | right; reflexivity]|]. reflexivity.
Defined.

Lemma health_check_gives_up_witness :
  let s := example_state false [] [] in
  exists s',
    initialize string env_down CONFIG_DEFAULTS None qdrant_unreachable true s
    = (Ok None, s') /\
    clock (io s') = 3%Q.
Proof.
  intros s. eexists. split.
  - apply (health_check_gives_up string env_down CONFIG_DEFAULTS s qdrant_unreachable true).
    intros i _. reflexivity.
  - vm_compute. reflexivity.
Defined.

Lemma failed_update_keeps_what_was_stored_witness :
  let E := example_env endpoint_up sixth_request_fails in
  let s := example_state true [example_item 1 "item one"] [] in
  exists s',
    vectorize_batch E CONFIG_DEFAULTS 6 10 s = (Ok 0, s') /\
    chat_data (db s') = chat_data (db s) /\
    map (state_row_id string) (vectors (db s')) = [1].
Proof.
  intros E s.
  set (rows := queue_select 10 (chat_data (db s))).
  assert (Hrun : embed_each E CONFIG_DEFAULTS 6 rows (batch_started rows s)
                 = (Ok [Some ["0.5"; "-0.25"]%string],
                    snd (embed_each E CONFIG_DEFAULTS 6 rows (batch_started rows s))))
    by (vm_compute; reflexivity).
  destruct (failed_update_keeps_what_was_stored string E CONFIG_DEFAULTS 6 10 s _ _
              "database is locked"%string eq_refl Hrun)
    as (s' & Hbatch & Hchat & Hvec & _).
  { discriminate. }
  { vm_compute. reflexivity. }
  exists s'. split; [exact Hbatch|]. split; [exact Hchat|].
  rewrite Hvec. vm_compute. reflexivity.
Defined.

Lemma empty_batch_ends_instant_mode_witness :
  let s := example_state true three_items [] in
  let s1 := snd (get_queue_size string env_down s) in
  let s2 := snd (vectorize_batch env_down CONFIG_DEFAULTS 6 10 s1) in
  instant_loop string env_down CONFIG_DEFAULTS 1 6 0 s = (Ok 0, s2) /\
  chat_data (db s2) = chat_data (db s).
Proof.
  intros s s1 s2.
  assert (Hsize : get_queue_size string env_down s = (Ok 3, s1))
    by (vm_compute; reflexivity).
  assert (Hb : vectorize_batch env_down CONFIG_DEFAULTS 6 10 s1 = (Ok 0, s2))
    by (vm_compute; reflexivity).
  destruct (empty_batch_ends_instant_mode string env_down CONFIG_DEFAULTS 0 6 0 3
              s s1 s2 Hsize ltac:(lia) Hb) as (Hloop & Hchat & _).
  split; [exact Hloop | exact Hchat].
Defined.
